(** * qris_editor.py: the TLV codec of the QRIS decoder and editor

    A shallow embedding of the core of [qris_editor.py]: the cursor loops of
    [QRISParser] (top-level parse and the three composite accessors), the
    summary view, [QRISEditor.build] with its override set and per-tag length
    limits, the checksum taken from the [crc] package, and
    [QRCodeHandler.validate_qris].

    Python values are modelled as follows.
    - [str]: a list of characters; a character is a code point in
      U+0000..U+00FF (the Latin-1 block, of which ASCII is the lower half).
      The built-ins the program calls ([int], [strip], [upper], [encode],
      slicing, [rfind], [in], [startswith], [format]) are given for every
      such string.  [upper] can leave the block, so its result is a list of
      code points ([text]).  [Unicode.validate_qris] is the validator on
      any sequence of code points, where [encode] can raise.
    - [int]: [Z].  A cursor can become negative, and slices follow Python's
      rule for negative indices.
    - [dict] looked up by key only: [gmap].  The dict literal of [get_info],
      which is iterated in order, is a list of pairs.
    - a [while] loop whose cursor is not known to advance takes a step budget
      ([fuel]); [None] (or [OutOfFuel]) means the loop is still running when
      the budget is spent. *)

From Stdlib Require Import ZArith Ascii String.
From stdpp Require Import base option list strings gmap.

Local Open Scope Z_scope.

(** ** Python strings *)

Definition str := list ascii.

(** Code points of a [str] after an operation that may leave Latin-1. *)
Definition text := list N.

Definition lit (s : string) : str := list_ascii_of_string s.

Definition code (c : ascii) : Z := Z.of_N (N_of_ascii c).

Definition codepoints (s : str) : text := N_of_ascii <$> s.

Definition len (s : str) : Z := Z.of_nat (length s).

(** Index normalisation of a slice bound: a negative bound counts from the
    end, and every bound is clipped to [0, n]. *)
Definition clamp (n i : Z) : Z :=
  if i <? 0 then Z.max 0 (i + n) else Z.min i n.

(** [s[i:j]] *)
Definition slice (s : str) (i j : Z) : str :=
  let lo := clamp (len s) i in
  let hi := clamp (len s) j in
  take (Z.to_nat (hi - lo)) (drop (Z.to_nat lo) s).

Definition is_digit (c : ascii) : bool :=
  (48 <=? code c) && (code c <=? 57).

Definition digit_val (c : ascii) : Z := code c - 48.

Definition is_plus (c : ascii) : bool := code c =? 43.

Definition is_minus (c : ascii) : bool := code c =? 45.

(** White space skipped by [int()] around the number: TAB, LF, VT, FF, CR,
    SPACE, and in this block U+0085 and U+00A0. *)
Definition int_space (c : ascii) : bool :=
  ((9 <=? code c) && (code c <=? 13)) || (code c =? 32)
  || (code c =? 133) || (code c =? 160).

(** [int(s)] for the strings the program passes to it, which have at most
    two characters (lemma [slice_length_le]).  [None] is [ValueError].  Two
    characters are a number when they are two digits, or one digit with a
    sign before it or white space on either side. *)
Definition py_int (s : str) : option Z :=
  match s with
  | [a] => if is_digit a then Some (digit_val a) else None
  | [a; b] =>
      if is_digit a && is_digit b then Some (10 * digit_val a + digit_val b)
      else if int_space a && is_digit b then Some (digit_val b)
      else if is_digit a && int_space b then Some (digit_val a)
      else if is_plus a && is_digit b then Some (digit_val b)
      else if is_minus a && is_digit b then Some (- digit_val b)
      else None
  | _ => None
  end.

(** White space removed by [str.strip()]: the set of [int_space] and the
    separators U+001C..U+001F. *)
Definition is_space (c : ascii) : bool :=
  int_space c || ((28 <=? code c) && (code c <=? 31)).

Fixpoint lstrip (s : str) : str :=
  match s with
  | c :: r => if is_space c then lstrip r else s
  | [] => []
  end.

Definition rstrip (s : str) : str := reverse (lstrip (reverse s)).

Definition strip (s : str) : str := rstrip (lstrip s).

(** [c.upper()], as code points: a..z and the accented small letters move
    down by 32, U+00DF becomes "SS", U+00B5 and U+00FF have their capitals
    outside the block. *)
Definition upper_char (c : ascii) : text :=
  let n := code c in
  if (97 <=? n) && (n <=? 122) then [Z.to_N (n - 32)]
  else if n =? 181 then [924%N]
  else if n =? 223 then [83%N; 83%N]
  else if (224 <=? n) && (n <=? 254) && negb (n =? 247) then [Z.to_N (n - 32)]
  else if n =? 255 then [376%N]
  else [Z.to_N n].

Definition upper (s : str) : text := s ≫= upper_char.

(** [sub] is found in [s] at index [i]. *)
Definition occurs_at (s sub : str) (i : nat) : Prop :=
  take (length sub) (drop i s) = sub.

Definition startswith (s p : str) : bool :=
  bool_decide (take (length p) s = p).

(** [sub in s] *)
Fixpoint contains (s sub : str) : bool :=
  startswith s sub ||
  match s with
  | [] => false
  | _ :: r => contains r sub
  end.

(** [s.rfind(sub)] where [s] is the part of the string from index [i] on:
    the highest index at which [sub] starts, or -1. *)
Fixpoint rfind_from (s sub : str) (i : Z) : Z :=
  match s with
  | [] => if startswith [] sub then i else -1
  | _ :: r =>
      let k := rfind_from r sub (i + 1) in
      if k =? -1 then (if startswith s sub then i else -1) else k
  end.

Definition rfind (s sub : str) : Z := rfind_from s sub 0.

(** [s.encode()]: UTF-8; a code point below U+0080 is one byte, the others
    of the block are two. *)
Definition encode_char (c : ascii) : list Z :=
  let n := code c in
  if n <? 128 then [n] else [192 + n / 64; 128 + n mod 64].

Definition encode (s : str) : list Z := s ≫= encode_char.

(** *** Number formatting *)

Definition digit_char (d : Z) : ascii :=
  nth (Z.to_nat d) (lit "0123456789ABCDEF") "0"%char.

Fixpoint digits_from (base : Z) (fuel : nat) (n : Z) (acc : str) : str :=
  match fuel with
  | O => acc
  | S k =>
      let acc' := digit_char (n mod base) :: acc in
      if n / base =? 0 then acc' else digits_from base k (n / base) acc'
  end.

(** The digits of [n >= 0] in [base]; a number has at most [log2 n + 1]
    of them. *)
Definition to_base (base n : Z) : str :=
  digits_from base (S (Z.to_nat (Z.log2 n))) n [].

(** [format(n, '0<width>d')] and [format(n, '0<width>X')]: sign, then zeros
    up to the width, then the digits. *)
Definition format_int (base : Z) (width : nat) (n : Z) : str :=
  let ds := to_base base (Z.abs n) in
  let sign := if n <? 0 then lit "-" else [] in
  sign ++ replicate (width - length sign - length ds) "0"%char ++ ds.

Definition format_d : Z → str := format_int 10 0.
Definition format_02d : Z → str := format_int 10 2.
Definition format_04X : Z → str := format_int 16 4.

Definition newline : str := ["010"%char].

(** A digit of [format(n, 'X')]: 0..9 or A..F. *)
Definition is_upper_hex (c : ascii) : bool :=
  is_digit c || ((65 <=? code c) && (code c <=? 70)).

(** The character [c] is the upper-case hexadecimal digit [d] or its
    small letter. *)
Definition same_hex (c d : ascii) : Prop :=
  c = d ∨ (65 <= code d <= 70 ∧ code c = code d + 32).

(** [f"{s:<width>}"] on a string: padded with spaces on the right. *)
Definition ljust (width : nat) (s : str) : str :=
  s ++ replicate (width - length s) " "%char.

(** ** The [crc] package: [Calculator(Crc16.IBM_3740).checksum] *)

Module Crc.

Record Configuration := {
  width : Z;
  polynomial : Z;
  init_value : Z;
  final_xor_value : Z;
  reverse_input : bool;
  reverse_output : bool;
}.

(** [Crc16.IBM_3740] *)
Definition IBM_3740 : Configuration := {|
  width := 16;
  polynomial := 0x1021;
  init_value := 0xFFFF;
  final_xor_value := 0x0000;
  reverse_input := false;
  reverse_output := false;
|}.

Definition topbit (c : Configuration) : Z := Z.shiftl 1 (width c - 1).
Definition bitmask (c : Configuration) : Z := 2 ^ width c - 1.

(** The value with its lowest [w] bits in the opposite order. *)
Fixpoint reverse_bits (w : nat) (v : Z) : Z :=
  match w with
  | O => 0
  | S k => Z.lor (Z.shiftl (Z.land v 1) (Z.of_nat k)) (reverse_bits k (Z.shiftr v 1))
  end.

(** One turn of the inner loop of [Register._process_byte]; the register
    setter masks every assignment. *)
Definition shift_step (c : Configuration) (reg : Z) : Z :=
  if Z.land reg (topbit c) =? 0
  then Z.land (Z.shiftl reg 1) (bitmask c)
  else Z.land (Z.lxor (Z.shiftl reg 1) (polynomial c)) (bitmask c).

(** [Register._process_byte] *)
Definition process_byte (c : Configuration) (reg byte : Z) : Z :=
  let reg := Z.land (Z.lxor reg (Z.shiftl byte (width c - 8))) (bitmask c) in
  Z.land (Nat.iter 8 (shift_step c) reg) (bitmask c).

(** [BasicRegister.update] *)
Definition update (c : Configuration) (reg : Z) (data : list Z) : Z :=
  foldl (λ reg byte,
           process_byte c reg
             (if reverse_input c then reverse_bits 8 byte else byte))
        reg data.

(** [BasicRegister.digest] *)
Definition digest (c : Configuration) (reg : Z) : Z :=
  let reg := if reverse_output c
             then Z.land (reverse_bits (Z.to_nat (width c)) reg) (bitmask c)
             else reg in
  Z.lxor reg (final_xor_value c).

(** [Calculator.checksum]: [init], [update] with the data, [digest]. *)
Definition checksum (c : Configuration) (data : list Z) : Z :=
  digest c (update c (Z.land (init_value c) (bitmask c)) data).

End Crc.


(** ** Results of a loop that may raise *)

Inductive exn :=
  | ValueError (msg : str).

Inductive outcome (A : Type) :=
  | OutOfFuel
  | Raised (e : exn)
  | Returned (a : A).

Arguments OutOfFuel {A}.
Arguments Raised {A} e.
Arguments Returned {A} a.

(** ** class QRISParser *)

(** A value of [self.data]: the dict with the keys 'tag', 'name', 'length'
    and 'value'. *)
Module Entry.

Record t := {
  tag : str;
  name : str;
  length : Z;
  value : str;
}.

End Entry.

Module QRISParser.

Definition TAGS : gmap str str :=
  list_to_map [
    (lit "00", lit "Payload Format Indicator");
    (lit "01", lit "Point of Initiation Method");
    (lit "26", lit "Merchant Account Information");
    (lit "51", lit "Merchant Account Information (QRIS)");
    (lit "52", lit "Merchant Category Code");
    (lit "53", lit "Transaction Currency");
    (lit "54", lit "Transaction Amount");
    (lit "55", lit "Tip or Convenience Indicator");
    (lit "56", lit "Value of Convenience Fee Fixed");
    (lit "57", lit "Value of Convenience Fee Percentage");
    (lit "58", lit "Country Code");
    (lit "59", lit "Merchant Name");
    (lit "60", lit "Merchant City");
    (lit "61", lit "Postal Code");
    (lit "62", lit "Additional Data Field Template");
    (lit "63", lit "CRC (Checksum)")
  ].

Record t := {
  raw : str;
  data : gmap str Entry.t;
}.

(** The loop of [_parse], from cursor [pos] with the dict [d] filled so
    far. *)
Fixpoint _parse (fuel : nat) (data : str) (pos : Z) (d : gmap str Entry.t)
  : option (gmap str Entry.t) :=
  match fuel with
  | O => None
  | S fuel =>
      if pos <? len data then
        if pos + 4 >? len data then Some d
        else
          let tag := slice data pos (pos + 2) in
          match py_int (slice data (pos + 2) (pos + 4)) with
          | None => Some d
          | Some length =>
              let value := slice data (pos + 4) (pos + 4 + length) in
              _parse fuel data (pos + 4 + length)
                (<[tag := {| Entry.tag := tag;
                             Entry.name := default (lit "Unknown Tag " ++ tag) (TAGS !! tag);
                             Entry.length := length;
                             Entry.value := value |}]> d)
          end
      else Some d
  end.

(** [__init__] *)
Definition init (fuel : nat) (qris_string : str) : option t :=
  let raw := strip qris_string in
  d ← _parse fuel raw 0 ∅;
  Some {| raw := raw; data := d |}.

(** [self.data.get(tag, {}).get('value', '')] *)
Definition get_value (self : t) (tag : str) : str :=
  from_option Entry.value [] (data self !! tag).

Definition merchant_name (self : t) : str := get_value self (lit "59").
Definition merchant_city (self : t) : str := get_value self (lit "60").
Definition postal_code (self : t) : str := get_value self (lit "61").
Definition checksum (self : t) : str := get_value self (lit "63").

(** The loop of [nmid]. *)
Fixpoint nmid_loop (fuel : nat) (tag51_value : str) (pos : Z) : option str :=
  match fuel with
  | O => None
  | S fuel =>
      if pos <? len tag51_value then
        if pos + 4 >? len tag51_value then Some []
        else
          let subtag := slice tag51_value pos (pos + 2) in
          match py_int (slice tag51_value (pos + 2) (pos + 4)) with
          | None => Some []
          | Some sublength =>
              let subvalue := slice tag51_value (pos + 4) (pos + 4 + sublength) in
              if bool_decide (subtag = lit "02") then Some subvalue
              else nmid_loop fuel tag51_value (pos + 4 + sublength)
          end
      else Some []
  end.

Definition nmid (fuel : nat) (self : t) : option str :=
  let tag51_value := get_value self (lit "51") in
  let tag51_value :=
    if bool_decide (tag51_value = []) then get_value self (lit "26")
    else tag51_value in
  nmid_loop fuel tag51_value 0.

(** The loop of [acquiring_id]. *)
Fixpoint acquiring_id_loop (fuel : nat) (tag_value : str) (pos : Z) : option str :=
  match fuel with
  | O => None
  | S fuel =>
      if pos <? len tag_value then
        if pos + 4 >? len tag_value then Some []
        else
          let subtag := slice tag_value pos (pos + 2) in
          match py_int (slice tag_value (pos + 2) (pos + 4)) with
          | None => Some []
          | Some sublength =>
              let subvalue := slice tag_value (pos + 4) (pos + 4 + sublength) in
              if bool_decide (subtag = lit "01") then
                Some (if len subvalue >=? 8 then slice subvalue 0 8 else subvalue)
              else acquiring_id_loop fuel tag_value (pos + 4 + sublength)
          end
      else Some []
  end.

Definition acquiring_id (fuel : nat) (self : t) : option str :=
  let tag_value := get_value self (lit "26") in
  let tag_value :=
    if bool_decide (tag_value = []) then get_value self (lit "51")
    else tag_value in
  acquiring_id_loop fuel tag_value 0.

(** The loop of [terminal_id]. *)
Fixpoint terminal_id_loop (fuel : nat) (tag62_value : str) (pos : Z) : option str :=
  match fuel with
  | O => None
  | S fuel =>
      if pos <? len tag62_value then
        if pos + 4 >? len tag62_value then Some []
        else
          let subtag := slice tag62_value pos (pos + 2) in
          match py_int (slice tag62_value (pos + 2) (pos + 4)) with
          | None => Some []
          | Some sublength =>
              let subvalue := slice tag62_value (pos + 4) (pos + 4 + sublength) in
              if bool_decide (subtag = lit "07") then Some subvalue
              else terminal_id_loop fuel tag62_value (pos + 4 + sublength)
          end
      else Some []
  end.

Definition terminal_id (fuel : nat) (self : t) : option str :=
  terminal_id_loop fuel (get_value self (lit "62")) 0.

(** [get_info]: the dict literal, its items in the order they are
    written; the three composite accessors are evaluated on the way. *)
Definition get_info (fuel : nat) (self : t) : option (list (str * str)) :=
  nmid ← nmid fuel self;
  terminal_id ← terminal_id fuel self;
  acquiring_id ← acquiring_id fuel self;
  Some [
    (lit "Merchant Name", merchant_name self);
    (lit "Merchant City", merchant_city self);
    (lit "NMID", nmid);
    (lit "Terminal ID", terminal_id);
    (lit "Acquiring ID", acquiring_id);
    (lit "Country Code", get_value self (lit "58"));
    (lit "Postal Code", get_value self (lit "61"));
    (lit "Merchant Category", get_value self (lit "52"));
    (lit "Currency", get_value self (lit "53"));
    (lit "Checksum", checksum self)
  ].

(** The lines [display_info] prints for the items of [info]: one for each
    item whose value is not empty. *)
Definition info_lines (info : list (str * str)) : list str :=
  '(key, value) ← info;
  if bool_decide (value = []) then []
  else [lit "  " ++ ljust 20 key ++ lit ": " ++ value].

(** [display_info]: the arguments of its [print] calls, in order. *)
Definition display_info (fuel : nat) (self : t) : option (list str) :=
  info ← get_info fuel self;
  Some ([newline ++ replicate 50 "="%char;
         lit "          QRIS MERCHANT INFORMATION";
         replicate 50 "="%char]
        ++ info_lines info
        ++ [replicate 50 "-"%char;
            lit "  QRIS Raw Value:";
            lit "  " ++ raw self;
            replicate 50 "="%char ++ newline]).

End QRISParser.

(** ** class QRISEditor *)

Module QRISEditor.

Record t := {
  raw : str;
  parser : QRISParser.t;
  modifications : gmap str str;
}.

(** [__init__] *)
Definition init (fuel : nat) (qris_string : str) : option t :=
  let raw := strip qris_string in
  parser ← QRISParser.init fuel raw;
  Some {| raw := raw; parser := parser; modifications := ∅ |}.

Definition set_modification (self : t) (tag value : str) : t :=
  {| raw := raw self;
     parser := parser self;
     modifications := <[tag := value]> (modifications self) |}.

Definition set_merchant_name (self : t) (name : str) : t :=
  if bool_decide (name = []) then self
  else set_modification self (lit "59") name.

Definition set_merchant_city (self : t) (city : str) : t :=
  if bool_decide (city = []) then self
  else set_modification self (lit "60") city.

Definition set_postal_code (self : t) (postal_code : str) : t :=
  if bool_decide (postal_code = []) then self
  else set_modification self (lit "61") postal_code.

Definition _calculate_checksum (data : str) : str :=
  format_04X (Crc.checksum Crc.IBM_3740 (encode data)).

(** [{'59': 25, '60': 15, '61': 5}.get(tag, 99)] *)
Definition max_len (tag : str) : Z :=
  if bool_decide (tag = lit "59") then 25
  else if bool_decide (tag = lit "60") then 15
  else if bool_decide (tag = lit "61") then 5
  else 99.

(** The message of the [ValueError] raised by [build]. *)
Definition too_long (tag : str) (length max_len : Z) : exn :=
  ValueError (lit "Tag " ++ tag ++ lit " value terlalu panjang ("
              ++ format_d length ++ lit " karakter, max "
              ++ format_d max_len ++ lit ")").

(** The message of the [ValueError] of [int()]; no run reaches it from
    [build], whose second [int()] reads what the first one accepted. *)
Definition invalid_literal : exn :=
  ValueError (lit "invalid literal for int() with base 10").

(** The loop of [build], from cursor [pos] with the pieces [result]
    appended so far. *)
Fixpoint build_loop (fuel : nat) (data : str) (modifications : gmap str str)
    (pos : Z) (result : list str) : outcome (list str) :=
  match fuel with
  | O => OutOfFuel
  | S fuel =>
      if pos <? len data then
        if pos + 4 >? len data then Returned result
        else
          let tag := slice data pos (pos + 2) in
          match py_int (slice data (pos + 2) (pos + 4)) with
          | None => Returned result
          | Some length =>
              let value := slice data (pos + 4) (pos + 4 + length) in
              if bool_decide (tag = lit "63") then
                build_loop fuel data modifications (pos + 4 + length) result
              else
                let '(value, length) :=
                  match modifications !! tag with
                  | Some v => (v, len v)
                  | None => (value, length)
                  end in
                let max_len := max_len tag in
                if length >? max_len then Raised (too_long tag length max_len)
                else
                  match py_int (slice data (pos + 2) (pos + 4)) with
                  | None => Raised invalid_literal
                  | Some step =>
                      build_loop fuel data modifications (pos + 4 + step)
                        (result ++ [tag ++ format_02d length ++ value])
                  end
          end
      else Returned result
  end.

(** [build] *)
Definition build (fuel : nat) (self : t) : outcome str :=
  match build_loop fuel (raw self) (modifications self) 0 [] with
  | OutOfFuel => OutOfFuel
  | Raised e => Raised e
  | Returned result =>
      let qris_without_checksum := concat result ++ lit "6304" in
      let checksum := _calculate_checksum qris_without_checksum in
      let final_qris := qris_without_checksum ++ checksum in
      Returned final_qris
  end.

End QRISEditor.

(** ** class QRCodeHandler *)

Module QRCodeHandler.

Definition too_short : text := codepoints (lit "Data terlalu pendek untuk QRIS valid").
Definition not_qris : text := codepoints (lit "Bukan format QRIS (tidak dimulai dengan 000201)").
Definition no_checksum : text := codepoints (lit "Tidak ditemukan checksum (Tag 63)").
Definition bad_checksum_format : text := codepoints (lit "Format checksum tidak valid").
Definition checksum_mismatch (calculated_checksum : str) (checksum_in_data : text) : text :=
  codepoints (lit "Checksum tidak valid (expected: ") ++ codepoints calculated_checksum
  ++ codepoints (lit ", got: ") ++ checksum_in_data ++ codepoints (lit ")").
Definition no_merchant_name : text := codepoints (lit "Tidak ditemukan nama merchant (Tag 59)").
Definition valid : text := codepoints (lit "QRIS valid").

(** [validate_qris] *)
Definition validate_qris (data : str) : bool * text :=
  if len data <? 50 then (false, too_short)
  else if negb (startswith data (lit "000201")) then (false, not_qris)
  else if negb (contains data (lit "6304")) then (false, no_checksum)
  else
    let checksum_pos := rfind data (lit "6304") in
    if (checksum_pos =? -1) || (len data <? checksum_pos + 8)
    then (false, bad_checksum_format)
    else
      let data_without_checksum := slice data 0 (checksum_pos + 4) in
      let checksum_in_data := upper (slice data (checksum_pos + 4) (checksum_pos + 8)) in
      let calculated_checksum :=
        format_04X (Crc.checksum Crc.IBM_3740 (encode data_without_checksum)) in
      if negb (bool_decide (checksum_in_data = codepoints calculated_checksum))
      then (false, checksum_mismatch calculated_checksum checksum_in_data)
      else if negb (contains data (lit "59")) then (false, no_merchant_name)
      else (true, valid).

End QRCodeHandler.

(** ** The fields a cursor loop reads

    The five loops of the program ([_parse], [nmid], [acquiring_id],
    [terminal_id], [build]) share their head: the two stop tests, the tag,
    the length read by [int()], the value, and the advance by [4 + length].
    [read_field] is that head at one cursor position, and [scan] is the
    sequence of fields a loop reads when nothing else ends it. *)

Module Field.

Record t := {
  tag : str;
  length : Z;
  value : str;
}.

End Field.

Module Cursor.

(** What one turn of the loop reads at [pos]; [None] when the loop stops
    there (cursor at the end, fewer than four characters left, or a length
    that [int()] rejects). *)
Definition read_field (data : str) (pos : Z) : option Field.t :=
  if pos <? len data then
    if pos + 4 >? len data then None
    else
      length ← py_int (slice data (pos + 2) (pos + 4));
      Some {| Field.tag := slice data pos (pos + 2);
              Field.length := length;
              Field.value := slice data (pos + 4) (pos + 4 + length) |}
  else None.

Definition next_pos (pos : Z) (f : Field.t) : Z := pos + 4 + Field.length f.

(** All the fields read from [pos] on, when the loop stops within [fuel]
    turns. *)
Fixpoint scan (fuel : nat) (data : str) (pos : Z) : option (list Field.t) :=
  match fuel with
  | O => None
  | S fuel =>
      match read_field data pos with
      | None => Some []
      | Some f => cons f <$> scan fuel data (next_pos pos f)
      end
  end.

(** The fields read in the first [n] turns. *)
Fixpoint scan_prefix (n : nat) (data : str) (pos : Z) : list Field.t :=
  match n with
  | O => []
  | S n =>
      match read_field data pos with
      | None => []
      | Some f => f :: scan_prefix n data (next_pos pos f)
      end
  end.

(** The last field of a list that carries [tag]. *)
Definition last_with (tag : str) (fs : list Field.t) : option Field.t :=
  last (filter (λ f, Field.tag f = tag) fs).

(** The first field of a list that carries [tag]. *)
Definition first_with (tag : str) (fs : list Field.t) : option Field.t :=
  head (filter (λ f, Field.tag f = tag) fs).

(** The entry [_parse] stores for a field. *)
Definition entry_of (f : Field.t) : Entry.t :=
  {| Entry.tag := Field.tag f;
     Entry.name := default (lit "Unknown Tag " ++ Field.tag f)
                     (QRISParser.TAGS !! Field.tag f);
     Entry.length := Field.length f;
     Entry.value := Field.value f |}.

(** The dict after the entries of the fields [fs] are stored in [d] one
    after the other. *)
Definition store (d : gmap str Entry.t) (fs : list Field.t) : gmap str Entry.t :=
  foldl (λ d f, <[Field.tag f := entry_of f]> d) d fs.

End Cursor.

(** ** Edit sessions and override sets *)

Module Edit.

(** A call of one of the three setters of [QRISEditor]. *)
Inductive t :=
  | SetMerchantName (name : str)
  | SetMerchantCity (city : str)
  | SetPostalCode (postal_code : str).

Definition apply (self : QRISEditor.t) (e : t) : QRISEditor.t :=
  match e with
  | SetMerchantName name => QRISEditor.set_merchant_name self name
  | SetMerchantCity city => QRISEditor.set_merchant_city self city
  | SetPostalCode postal_code => QRISEditor.set_postal_code self postal_code
  end.

(** An editor on [raw] after the setter calls [es]. *)
Definition session (raw : str) (parser : QRISParser.t) (es : list t) : QRISEditor.t :=
  foldl apply
    {| QRISEditor.raw := raw; QRISEditor.parser := parser;
       QRISEditor.modifications := ∅ |} es.

(** The length and the value [build] checks and emits for a field. *)
Definition length_after (modifications : gmap str str) (f : Field.t) : Z :=
  match modifications !! Field.tag f with
  | Some v => len v
  | None => Field.length f
  end.

Definition value_after (modifications : gmap str str) (f : Field.t) : str :=
  default (Field.value f) (modifications !! Field.tag f).

Definition too_long (modifications : gmap str str) (f : Field.t) : bool :=
  length_after modifications f >? QRISEditor.max_len (Field.tag f).

(** The piece [build] appends for a field. *)
Definition piece (modifications : gmap str str) (f : Field.t) : str :=
  Field.tag f ++ format_02d (length_after modifications f)
  ++ value_after modifications f.

(** The error [build] raises at a field that is too long. *)
Definition error (modifications : gmap str str) (f : Field.t) : exn :=
  QRISEditor.too_long (Field.tag f) (length_after modifications f)
    (QRISEditor.max_len (Field.tag f)).

(** The fields [build] keeps: all but the checksum tag. *)
Definition kept (fs : list Field.t) : list Field.t :=
  filter (λ f, Field.tag f ≠ lit "63") fs.


(** The first kept field that is too long. *)
Definition first_too_long (modifications : gmap str str) (fs : list Field.t)
  : option Field.t :=
  List.find (too_long modifications) (kept fs).

End Edit.

(** ** Well-formed payloads *)

Module Payload.

(** A field as the standard writes it: a two-character tag other than the
    checksum tag, and a value within the limit of its tag. *)
Definition well_formed (f : str * str) : Prop :=
  length f.1 = 2%nat ∧ f.1 ≠ lit "63" ∧ len f.2 <= QRISEditor.max_len f.1.

Definition serialize (fs : list (str * str)) : str :=
  '(tag, value) ← fs; tag ++ format_02d (len value) ++ value.

(** Fields followed by the checksum tag with the four characters [cs]. *)
Definition payload (fs : list (str * str)) (cs : str) : str :=
  serialize fs ++ lit "6304" ++ cs.

(** The field the cursor loop reads for a serialized field, and for the
    checksum tag. *)
Definition field_of (f : str * str) : Field.t :=
  {| Field.tag := f.1; Field.length := len f.2; Field.value := f.2 |}.

Definition checksum_field (cs : str) : Field.t :=
  {| Field.tag := lit "63"; Field.length := 4; Field.value := cs |}.

End Payload.

(** ** CRC-16/CCITT-FALSE by its parameters

    The reference definition of the checksum as the catalogue of CRC
    algorithms gives it: a 16-bit register that starts at 0xFFFF; the
    message goes in bit by bit, the highest bit of each byte first; a turn
    shifts the register left by one and, when the bit shifted out differs
    from the message bit, xors the polynomial 0x1021; the register is the
    result, neither reflected nor xored. *)

Module CcittFalse.

Definition poly : Z := 0x1021.
Definition init : Z := 0xFFFF.

Definition feed_bit (reg : Z) (bit : bool) : Z :=
  let out := xorb (Z.testbit reg 15) bit in
  let reg := Z.shiftl reg 1 mod 2 ^ 16 in
  if out then Z.lxor reg poly else reg.

Definition bits_of_byte (byte : Z) : list bool :=
  (λ i, Z.testbit byte (Z.of_nat i)) <$> [7; 6; 5; 4; 3; 2; 1; 0]%nat.

Definition crc (data : list Z) : Z :=
  foldl feed_bit init (data ≫= bits_of_byte).

End CcittFalse.

(** ** Sample payloads *)

Module Sample.

Definition fields : list (str * str) :=
  [(lit "00", lit "01"); (lit "01", lit "11");
   (lit "59", lit "Warung Sejahtera"); (lit "60", lit "JAKARTA");
   (lit "58", lit "ID")].

(** A payload with its checksum as the engine writes it. *)
Definition upper_case : str :=
  lit "0002010102115916Warung Sejahtera6007JAKARTA5802ID6304DA08".

(** The same payload with the checksum in small letters. *)
Definition lower_case : str :=
  lit "0002010102115916Warung Sejahtera6007JAKARTA5802ID6304da08".

(** A payload whose merchant name has 26 characters. *)
Definition long_name : str :=
  lit "0002010102115926ABCDEFGHIJKLMNOPQRSTUVWXYZ6007JAKARTA6304B6FE".

Definition name26 : str := lit "ABCDEFGHIJKLMNOPQRSTUVWXYZ".

(** A payload whose merchant account information holds the sub-tag "01"
    twice. *)
Definition twice_01 : str := lit "26140103AAA0103BBB".

(** The parser of the empty string. *)
Definition empty : QRISParser.t :=
  {| QRISParser.raw := []; QRISParser.data := ∅ |}.

(** A parsed document with only the merchant account information. *)
Definition account : QRISParser.t :=
  {| QRISParser.raw := lit "26190115ID1020017612345";
     QRISParser.data :=
       Cursor.store ∅ [{| Field.tag := lit "26"; Field.length := 19;
                          Field.value := lit "0115ID1020017612345" |}] |}.

End Sample.

(** ** Further notions for the properties of the whole program *)

Module Walk.

(** The cursor after [n] turns of a loop that starts at [pos]; [None] when
    the loop has stopped before. *)
Fixpoint cursor_after (n : nat) (data : str) (pos : Z) : option Z :=
  match n with
  | O => Some pos
  | S n =>
      match Cursor.read_field data pos with
      | None => None
      | Some f => cursor_after n data (Cursor.next_pos pos f)
      end
  end.

(** The fields of a payload with the overrides put in place. *)
Definition override (modifications : gmap str str) (fs : list (str * str))
  : list (str * str) :=
  (λ f, (f.1, default f.2 (modifications !! f.1))) <$> fs.

(** The value the serialization of [fs] carries for [tag]: that of the
    last field with this tag. *)
Definition value_of (tag : str) (fs : list (str * str)) : option str :=
  snd <$> last (filter (λ f, f.1 = tag) fs).

(** The value an accessor finds for a sub-tag among the sub-fields [fs]:
    that of the first sub-field with this tag. *)
Definition first_value_of (tag : str) (fs : list (str * str)) : option str :=
  snd <$> head (filter (λ f, f.1 = tag) fs).

(** A tag written with digits, as the standard has them. *)
Definition numeric (tag : str) : Prop := Forall (λ c, is_digit c = true) tag.

(** A sub-field of a composite value as the standard writes it: a
    two-character tag and at most 99 characters. *)
Definition sub_field (f : str * str) : Prop :=
  length f.1 = 2%nat ∧ len f.2 <= 99.

End Walk.

(** ** class TemplateGenerator *)

Module TemplateGenerator.

(** [generate]: the id printed in the footer,
    [self.parser.acquiring_id or "00000000"]. *)
Definition dicetak_id (fuel : nat) (parser : QRISParser.t) : option str :=
  acquiring_id ← QRISParser.acquiring_id fuel parser;
  Some (if bool_decide (acquiring_id = []) then lit "00000000" else acquiring_id).

(** [_get_text_position], with the width of the text box
    ([bbox[2] - bbox[0]]) as an argument. *)
Definition _get_text_position (text_width y template_width : Z) : Z * Z :=
  let x := (template_width - text_width) / 2 in
  (x, y).

End TemplateGenerator.

(** ** [QRCodeHandler.read_from_image]

    The image file and the decoder are outside the program.  What the
    function sees of them is, for each variant of the image it may try,
    whether the decoder finds a symbol and, when it does, the text of the
    first one (here within the same block of code points as every other
    string). *)

Module Reader.

Record image := {
  colour : option str;
  gray : option str;
  thresh : option str;
  adaptive : option str;
  scaled_0_5 : option str;
  scaled_1_5 : option str;
  scaled_2_0 : option str;
}.

Inductive error :=
  | FileNotFoundError (msg : text)
  | ValueError (msg : text).

(** [not qr_data] *)
Definition unread (qr_data : option str) : bool :=
  match qr_data with
  | None => true
  | Some s => bool_decide (s = [])
  end.

(** [if decoded: qr_data = decoded[0].data.decode('utf-8')] *)
Definition take_decoded (decoded qr_data : option str) : option str :=
  match decoded with
  | Some s => Some s
  | None => qr_data
  end.

(** [for scale in [0.5, 1.5, 2.0]], with its [break]. *)
Fixpoint scale_loop (decoded : list (option str)) (qr_data : option str) : option str :=
  match decoded with
  | [] => qr_data
  | Some s :: _ => Some s
  | None :: decoded => scale_loop decoded qr_data
  end.

Definition cannot_read (image_path : str) : text :=
  codepoints (lit "Cannot read image: " ++ image_path).

Definition not_recognised : text :=
  codepoints
    (lit "Tidak dapat mengenali QR code dari gambar. Pastikan QR terlihat jelas.").

Definition not_valid (error_msg : text) : text :=
  codepoints (lit "QR code bukan QRIS valid: ") ++ error_msg.

(** [read_from_image]; [img] is [None] when [cv2.imread] gives [None]. *)
Definition read_from_image (image_path : str) (img : option image) : error + str :=
  match img with
  | None => inl (FileNotFoundError (cannot_read image_path))
  | Some img =>
      let qr_data := None in
      let qr_data := take_decoded (colour img) qr_data in
      let qr_data :=
        if unread qr_data then take_decoded (gray img) qr_data else qr_data in
      let qr_data :=
        if unread qr_data then take_decoded (thresh img) qr_data else qr_data in
      let qr_data :=
        if unread qr_data then take_decoded (adaptive img) qr_data else qr_data in
      let qr_data :=
        if unread qr_data
        then scale_loop [scaled_0_5 img; scaled_1_5 img; scaled_2_0 img] qr_data
        else qr_data in
      if unread qr_data then inl (ValueError not_recognised)
      else
        let qr_data := default [] qr_data in
        let '(is_valid, error_msg) := QRCodeHandler.validate_qris qr_data in
        if negb is_valid then inl (ValueError (not_valid error_msg))
        else inr qr_data
  end.

End Reader.

(** ** [main], from the payload read to the parse of the new payload

    [qris_data] is what [read_from_image] returned, and the three lines are
    what [input()] returns at the three prompts.  What is printed is left
    out, but [display_info] is called where [main] calls it, since its
    accessors are loops. *)

Module Main.

Inductive result :=
  | NoChange
  | Edited (new_qris : str) (new_parser : QRISParser.t).

(** The three guarded setter calls. *)
Definition edited (editor : QRISEditor.t) (new_name new_city new_postal : str)
  : QRISEditor.t :=
  let editor :=
    if bool_decide (new_name = []) then editor
    else QRISEditor.set_merchant_name editor new_name in
  let editor :=
    if bool_decide (new_city = []) then editor
    else QRISEditor.set_merchant_city editor new_city in
  if bool_decide (new_postal = []) then editor
  else QRISEditor.set_postal_code editor new_postal.

Definition main (fuel : nat) (qris_data name_line city_line postal_line : str)
  : outcome result :=
  match QRISParser.init fuel qris_data with
  | None => OutOfFuel
  | Some parser =>
      match QRISParser.display_info fuel parser with
      | None => OutOfFuel
      | Some _ =>
          let new_name := strip name_line in
          let new_city := strip city_line in
          let new_postal := strip postal_line in
          if bool_decide (new_name = []) && bool_decide (new_city = [])
             && bool_decide (new_postal = [])
          then Returned NoChange
          else
            match QRISEditor.init fuel qris_data with
            | None => OutOfFuel
            | Some editor =>
                let editor := edited editor new_name new_city new_postal in
                match QRISEditor.build fuel editor with
                | OutOfFuel => OutOfFuel
                | Raised e => Raised e
                | Returned new_qris =>
                    match QRISParser.init fuel new_qris with
                    | None => OutOfFuel
                    | Some new_parser =>
                        match QRISParser.display_info fuel new_parser with
                        | None => OutOfFuel
                        | Some _ => Returned (Edited new_qris new_parser)
                        end
                    end
                end
            end
      end
  end.

End Main.

(** ** More sample data *)

Module Example.

(** The sub-fields of a merchant account. *)
Definition account_fields : list (str * str) :=
  [(lit "00", lit "ID.CO.QRIS.WWW"); (lit "02", lit "ID1020017612345");
   (lit "03", lit "UMI")].

(** A parsed document with the merchant account under tag "51" and a
    terminal label under tag "62". *)
Definition merchant : QRISParser.t :=
  {| QRISParser.raw :=
       lit "51440014ID.CO.QRIS.WWW0215ID10200176123450303UMI62070703A01";
     QRISParser.data :=
       Cursor.store ∅
         [{| Field.tag := lit "51"; Field.length := 44;
             Field.value := Payload.serialize account_fields |};
          {| Field.tag := lit "62"; Field.length := 7;
             Field.value := lit "0703A01" |}] |}.

(** An editor on the sample payload, before any setter is called. *)
Definition editor : QRISEditor.t :=
  {| QRISEditor.raw := Sample.upper_case; QRISEditor.parser := Sample.empty;
     QRISEditor.modifications := ∅ |}.

(** The parser of the sample payload. *)
Definition parser : QRISParser.t :=
  {| QRISParser.raw := Sample.upper_case;
     QRISParser.data :=
       Cursor.store ∅
         ((Payload.field_of <$> Sample.fields) ++ [Payload.checksum_field (lit "DA08")]) |}.

(** An image in which the decoder finds the sample payload at once. *)
Definition photo : Reader.image :=
  {| Reader.colour := Some Sample.upper_case; Reader.gray := None;
     Reader.thresh := None; Reader.adaptive := None;
     Reader.scaled_0_5 := None; Reader.scaled_1_5 := None;
     Reader.scaled_2_0 := None |}.

(** A merchant name under which the checksum of the sample payload reads
    "6304". *)
Definition unlucky_name : str := lit "TOKO ATAV".

(** An image in which the decoder finds nothing as read, a symbol without
    text in the gray variant, and the sample payload after the fixed
    threshold. *)
Definition faint : Reader.image :=
  {| Reader.colour := None; Reader.gray := Some [];
     Reader.thresh := Some Sample.upper_case; Reader.adaptive := None;
     Reader.scaled_0_5 := None; Reader.scaled_1_5 := None;
     Reader.scaled_2_0 := None |}.

End Example.

(** ** Numerals

    The number that a string of digits denotes in a base, as [int(s, base)]
    reads it from digits and capital letters: the reference against which
    the output of [format] is stated. *)

Module Numeral.

(** The value of one digit: "0".."9" are 0..9 and "A".."F" are 10..15. *)
Definition digit_value (c : ascii) : option Z :=
  let n := code c in
  if (48 <=? n) && (n <=? 57) then Some (n - 48)
  else if (65 <=? n) && (n <=? 70) then Some (n - 55)
  else None.

(** One more digit to the right of a numeral of value [acc]. *)
Definition shift_in (base : Z) (acc : option Z) (c : ascii) : option Z :=
  a ← acc;
  d ← digit_value c;
  if d <? base then Some (a * base + d) else None.

(** [None] when a character is no digit of the base. *)
Definition number_of (base : Z) (s : str) : option Z :=
  foldl (shift_in base) (Some 0) s.

End Numeral.

(** ** UTF-8

    [str.encode()] on code points, by the bit layout of RFC 3629: one byte
    below U+0080, two below U+0800, three below U+10000, four up to
    U+10FFFF.  The surrogates U+D800..U+DFFF have no encoding: [None] is
    [UnicodeEncodeError]. *)

Module Utf8.

Definition is_surrogate (p : Z) : bool := (0xD800 <=? p) && (p <=? 0xDFFF).

(** The continuation byte that holds the six bits of [p] from bit [k]. *)
Definition continuation (p : Z) (k : Z) : Z :=
  Z.lor 0x80 (Z.land (Z.shiftr p k) 0x3F).

Definition encode_point (p : Z) : option (list Z) :=
  if p <? 0x80 then Some [p]
  else if p <? 0x800 then
    Some [Z.lor 0xC0 (Z.shiftr p 6); continuation p 0]
  else if is_surrogate p then None
  else if p <? 0x10000 then
    Some [Z.lor 0xE0 (Z.shiftr p 12); continuation p 6; continuation p 0]
  else
    Some [Z.lor 0xF0 (Z.shiftr p 18); continuation p 12; continuation p 6;
          continuation p 0].

Fixpoint encode (s : text) : option (list Z) :=
  match s with
  | [] => Some []
  | p :: r =>
      bs ← encode_point (Z.of_N p);
      rest ← encode r;
      Some (bs ++ rest)
  end.

End Utf8.

(** ** [validate_qris] on any Python string

    A Python string is a sequence of code points up to U+10FFFF, the
    surrogates included, and [str] above holds those of Latin-1.  This is
    [validate_qris] on all of them, with what [str.encode()] raises on a
    surrogate.  [upper()] of a code point beyond Latin-1 is read from the
    tables of Unicode, which are not modelled: [beyond] stands for them. *)

Module Unicode.

Inductive error :=
  | UnicodeEncodeError.

Definition len (s : text) : Z := Z.of_nat (length s).

(** [s[i:j]] *)
Definition slice (s : text) (i j : Z) : text :=
  let lo := clamp (len s) i in
  let hi := clamp (len s) j in
  take (Z.to_nat (hi - lo)) (drop (Z.to_nat lo) s).

Definition startswith (s p : text) : bool :=
  bool_decide (take (length p) s = p).

(** [sub in s] *)
Fixpoint contains (s sub : text) : bool :=
  startswith s sub ||
  match s with
  | [] => false
  | _ :: r => contains r sub
  end.

Fixpoint rfind_from (s sub : text) (i : Z) : Z :=
  match s with
  | [] => if startswith [] sub then i else -1
  | _ :: r =>
      let k := rfind_from r sub (i + 1) in
      if k =? -1 then (if startswith s sub then i else -1) else k
  end.

(** [s.rfind(sub)] *)
Definition rfind (s sub : text) : Z := rfind_from s sub 0.

(** [s.upper()] *)
Definition upper (beyond : N → text) (s : text) : text :=
  p ← s; if (p <? 256)%N then upper_char (ascii_of_N p) else beyond p.

(** [validate_qris]; [inl] is the exception that leaves it. *)
Definition validate_qris (beyond : N → text) (data : text) : error + bool * text :=
  if len data <? 50 then inr (false, QRCodeHandler.too_short)
  else if negb (startswith data (codepoints (lit "000201")))
  then inr (false, QRCodeHandler.not_qris)
  else if negb (contains data (codepoints (lit "6304")))
  then inr (false, QRCodeHandler.no_checksum)
  else
    let checksum_pos := rfind data (codepoints (lit "6304")) in
    if (checksum_pos =? -1) || (len data <? checksum_pos + 8)
    then inr (false, QRCodeHandler.bad_checksum_format)
    else
      let data_without_checksum := slice data 0 (checksum_pos + 4) in
      let checksum_in_data :=
        upper beyond (slice data (checksum_pos + 4) (checksum_pos + 8)) in
      match Utf8.encode data_without_checksum with
      | None => inl UnicodeEncodeError
      | Some bytes =>
          let calculated_checksum :=
            format_04X (Crc.checksum Crc.IBM_3740 bytes) in
          if negb (bool_decide (checksum_in_data = codepoints calculated_checksum))
          then inr (false, QRCodeHandler.checksum_mismatch calculated_checksum
                             checksum_in_data)
          else if negb (contains data (codepoints (lit "59")))
          then inr (false, QRCodeHandler.no_merchant_name)
          else inr (true, QRCodeHandler.valid)
      end.


End Unicode.

(** * Lemmas and theorems *)

Import Cursor.

(** ** Strings and slices *)

Ltac cmp :=
  repeat match goal with
  | |- context [?a <? ?b] => destruct (Z.ltb_spec a b)
  | |- context [?a >? ?b] => rewrite (Z.gtb_ltb a b)
  | |- context [?a <=? ?b] => destruct (Z.leb_spec a b)
  | |- context [?a >=? ?b] => rewrite (Z.geb_leb a b)
  | |- context [?a =? ?b] => destruct (Z.eqb_spec a b)
  end.

Lemma len_nonneg s : 0 <= len s.
Proof. unfold len. lia. Qed.

Lemma len_app a b : len (a ++ b) = len a + len b.
Proof. unfold len. rewrite length_app. lia. Qed.

Lemma len_nil : len [] = 0.
Proof. reflexivity. Qed.

Lemma len_cons c s : len (c :: s) = 1 + len s.
Proof. unfold len. simpl. lia. Qed.

Lemma len_zero s : len s = 0 → s = [].
Proof. unfold len. destruct s; [done | simpl; lia]. Qed.

Lemma clamp_inside n i : 0 <= i <= n → clamp n i = i.
Proof. intros. unfold clamp. cmp; lia. Qed.

Lemma clamp_over n i : 0 <= n <= i → clamp n i = n.
Proof. intros. unfold clamp. cmp; lia. Qed.

Lemma clamp_range n i : 0 <= n → 0 <= clamp n i <= n.
Proof. intros. unfold clamp. cmp; lia. Qed.

Lemma clamp_mono n i j : 0 <= n → i <= j → i < 0 ∨ 0 <= j → clamp n j - clamp n i <= j - i.
Proof. intros. unfold clamp. cmp; lia. Qed.

(** A slice of width two has at most two characters, wherever the cursor
    is: [int()] is only ever asked about such strings. *)
Lemma slice_length_le s i : (length (slice s i (i + 2)) <= 2)%nat.
Proof.
  unfold slice. rewrite length_take.
  pose proof (len_nonneg s).
  assert (clamp (len s) (i + 2) - clamp (len s) i <= 2).
  { unfold clamp. cmp; lia. }
  lia.
Qed.

Lemma slice_inside s i j :
  0 <= i <= j → j <= len s →
  slice s i j = take (Z.to_nat (j - i)) (drop (Z.to_nat i) s).
Proof.
  intros. unfold slice. rewrite !clamp_inside by lia. reflexivity.
Qed.

Lemma slice_over s i j :
  0 <= i <= len s → len s <= j → slice s i j = drop (Z.to_nat i) s.
Proof.
  intros. unfold slice. rewrite (clamp_inside _ i), (clamp_over _ j) by lia.
  apply take_ge. rewrite length_drop. unfold len in *. lia.
Qed.

Lemma slice_at (a b c : str) i j :
  i = len a → j = len a + len b → slice (a ++ b ++ c) i j = b.
Proof.
  intros -> ->. pose proof (len_nonneg a). pose proof (len_nonneg b).
  rewrite slice_inside by (rewrite ?len_app; pose proof (len_nonneg c); lia).
  unfold len. rewrite Nat2Z.id.
  replace (Z.to_nat _) with (length b) by lia.
  rewrite drop_app_length, take_app_length. reflexivity.
Qed.

Lemma slice_prefix (a b : str) j : j = len a → slice (a ++ b) 0 j = a.
Proof.
  intros ->. change (a ++ b) with ([] ++ a ++ b). apply slice_at; reflexivity.
Qed.

Lemma slice_elem c s i j : c ∈ slice s i j → c ∈ s.
Proof.
  unfold slice. intros H.
  apply (subseteq_take _ _) in H. apply (subseteq_drop _ _) in H. exact H.
Qed.

(** ** [int()] *)

Lemma is_digit_range c : is_digit c = true → 0 <= digit_val c <= 9.
Proof.
  unfold is_digit, digit_val. rewrite andb_true_iff, !Z.leb_le. lia.
Qed.

Lemma py_int_range s n : py_int s = Some n → -9 <= n <= 99.
Proof.
  unfold py_int. intros H.
  repeat (case_match; simplify_eq);
    repeat match goal with
           | H : _ && _ = true |- _ => apply andb_true_iff in H as [? ?]
           | H : is_digit _ = true |- _ => apply is_digit_range in H
           end; lia.
Qed.

Lemma py_int_two_digits a b :
  is_digit a = true → is_digit b = true →
  py_int [a; b] = Some (10 * digit_val a + digit_val b).
Proof. intros Ha Hb. unfold py_int. rewrite Ha, Hb. reflexivity. Qed.

(** [int()] rejects a length field that holds no decimal digit. *)
Lemma py_int_no_digit s : Forall (λ c, is_digit c = false) s → py_int s = None.
Proof.
  intros H. destruct s as [|a [|b [|? ?]]]; try reflexivity.
  - inversion_clear H as [|? ? Ha _]. simpl. rewrite Ha. reflexivity.
  - inversion_clear H as [|? ? Ha H']. inversion_clear H' as [|? ? Hb _].
    simpl. rewrite Ha, Hb. simpl. rewrite !andb_false_r. reflexivity.
Qed.

(** ** Number formatting *)

Lemma format_02d_table :
  Forall (λ n, py_int (format_02d n) = Some n ∧ length (format_02d n) = 2%nat)
         (seqZ 0 100).
Proof. apply (bool_decide_unpack _). vm_compute. reflexivity. Qed.

Lemma py_int_format_02d n : 0 <= n <= 99 → py_int (format_02d n) = Some n.
Proof.
  intros. pose proof format_02d_table as T.
  rewrite Forall_forall in T. apply T. apply elem_of_seqZ. lia.
Qed.

Lemma format_02d_length n : -9 <= n <= 99 → length (format_02d n) = 2%nat.
Proof.
  intros.
  assert (T : Forall (λ n, length (format_02d n) = 2%nat) (seqZ (-9) 109)).
  { apply (bool_decide_unpack _). vm_compute. reflexivity. }
  rewrite Forall_forall in T. apply T. apply elem_of_seqZ. lia.
Qed.

Lemma format_02d_digits n :
  0 <= n <= 99 →
  ∃ a b, format_02d n = [a; b] ∧ is_digit a = true ∧ is_digit b = true.
Proof.
  intros.
  assert (T : Forall (λ n, match format_02d n with
                           | [a; b] => is_digit a && is_digit b
                           | _ => false
                           end = true) (seqZ 0 100)).
  { apply (bool_decide_unpack _). vm_compute. reflexivity. }
  rewrite Forall_forall in T. specialize (T n).
  destruct (format_02d n) as [|a [|b [|? ?]]]; try (discriminate T; apply elem_of_seqZ; lia).
  exists a, b. apply andb_true_iff in T; [|apply elem_of_seqZ; lia]. tauto.
Qed.

(** ** The loops, one turn at a time *)

Lemma read_field_inv data pos f :
  read_field data pos = Some f →
  pos + 4 <= len data ∧
  py_int (slice data (pos + 2) (pos + 4)) = Some (Field.length f) ∧
  Field.tag f = slice data pos (pos + 2) ∧
  Field.value f = slice data (pos + 4) (pos + 4 + Field.length f).
Proof.
  unfold read_field. cmp; try discriminate.
  destruct (py_int _) as [l|]; simpl; [|discriminate].
  intros [= <-]. simpl. split_and!; [lia | done..].
Qed.

Lemma read_field_length data pos f :
  read_field data pos = Some f → -9 <= Field.length f <= 99.
Proof.
  intros H. apply read_field_inv in H as (_ & H & _).
  by apply py_int_range in H.
Qed.

Lemma _parse_step k data pos d :
  QRISParser._parse (S k) data pos d =
  match read_field data pos with
  | None => Some d
  | Some f =>
      QRISParser._parse k data (next_pos pos f) (<[Field.tag f := entry_of f]> d)
  end.
Proof.
  cbn [QRISParser._parse]. unfold read_field.
  cmp; try reflexivity. destruct (py_int _); reflexivity.
Qed.

Lemma nmid_loop_step k v pos :
  QRISParser.nmid_loop (S k) v pos =
  match read_field v pos with
  | None => Some []
  | Some f =>
      if bool_decide (Field.tag f = lit "02") then Some (Field.value f)
      else QRISParser.nmid_loop k v (next_pos pos f)
  end.
Proof.
  cbn [QRISParser.nmid_loop]. unfold read_field.
  cmp; try reflexivity. destruct (py_int _); reflexivity.
Qed.

Lemma acquiring_id_loop_step k v pos :
  QRISParser.acquiring_id_loop (S k) v pos =
  match read_field v pos with
  | None => Some []
  | Some f =>
      if bool_decide (Field.tag f = lit "01") then
        Some (if len (Field.value f) >=? 8 then slice (Field.value f) 0 8
              else Field.value f)
      else QRISParser.acquiring_id_loop k v (next_pos pos f)
  end.
Proof.
  cbn [QRISParser.acquiring_id_loop]. unfold read_field.
  cmp; try reflexivity; destruct (py_int _); reflexivity.
Qed.

Lemma terminal_id_loop_step k v pos :
  QRISParser.terminal_id_loop (S k) v pos =
  match read_field v pos with
  | None => Some []
  | Some f =>
      if bool_decide (Field.tag f = lit "07") then Some (Field.value f)
      else QRISParser.terminal_id_loop k v (next_pos pos f)
  end.
Proof.
  cbn [QRISParser.terminal_id_loop]. unfold read_field.
  cmp; try reflexivity. destruct (py_int _); reflexivity.
Qed.

Lemma build_loop_step k data mods pos res :
  QRISEditor.build_loop (S k) data mods pos res =
  match read_field data pos with
  | None => Returned res
  | Some f =>
      if bool_decide (Field.tag f = lit "63") then
        QRISEditor.build_loop k data mods (next_pos pos f) res
      else if Edit.too_long mods f then Raised (Edit.error mods f)
      else QRISEditor.build_loop k data mods (next_pos pos f)
             (res ++ [Edit.piece mods f])
  end.
Proof.
  cbn [QRISEditor.build_loop]. unfold read_field.
  cmp; try reflexivity. destruct (py_int _) as [l|]; [|reflexivity].
  simpl. case_bool_decide; [reflexivity|].
  unfold Edit.too_long, Edit.error, Edit.piece, Edit.length_after,
    Edit.value_after, next_pos. simpl.
  destruct (mods !! _); simpl; rewrite Z.gtb_ltb; reflexivity.
Qed.

(** ** The sequence of fields *)

Lemma scan_S k data pos :
  scan (S k) data pos =
  match read_field data pos with
  | None => Some []
  | Some f => cons f <$> scan k data (next_pos pos f)
  end.
Proof. reflexivity. Qed.

Lemma scan_prefix_scan k data pos fs :
  scan k data pos = Some fs → scan_prefix k data pos = fs.
Proof.
  revert pos fs. induction k as [|k IH]; intros pos fs; [discriminate|].
  simpl. destruct (read_field data pos) as [f|]; [|by intros [= <-]].
  destruct (scan k data _) as [fs'|] eqn:E; simpl; [|discriminate].
  intros [= <-]. f_equal. by apply IH.
Qed.

Lemma scan_more k j data pos fs :
  scan k data pos = Some fs → scan (k + j) data pos = Some fs.
Proof.
  revert pos fs. induction k as [|k IH]; intros pos fs; [discriminate|].
  simpl. destruct (read_field data pos) as [f|]; [|done].
  destruct (scan k data _) as [fs'|] eqn:E; simpl; [|discriminate].
  intros [= <-]. by rewrite (IH _ _ E).
Qed.

Lemma scan_det k1 k2 data pos fs1 fs2 :
  scan k1 data pos = Some fs1 → scan k2 data pos = Some fs2 → fs1 = fs2.
Proof.
  intros H1 H2. apply (scan_more _ k2) in H1. apply (scan_more _ k1) in H2.
  rewrite (Nat.add_comm k2 k1) in H2. congruence.
Qed.

Lemma scan_prefix_more k j data pos :
  scan_prefix k data pos `prefix_of` scan_prefix (k + j) data pos.
Proof.
  revert pos. induction k as [|k IH]; intros pos; [apply prefix_nil|].
  simpl. destruct (read_field data pos) as [f|]; [|done].
  by apply prefix_cons.
Qed.

(** A field read in some turn is read in every longer run. *)
Lemma scan_prefix_elem_more k j data pos f :
  f ∈ scan_prefix k data pos → f ∈ scan_prefix (k + j) data pos.
Proof.
  intros H. destruct (scan_prefix_more k j data pos) as [r ->].
  apply elem_of_app. by left.
Qed.

Lemma scan_prefix_length_le k data pos :
  (length (scan_prefix k data pos) <= k)%nat.
Proof.
  revert pos. induction k as [|k IH]; intros pos; simpl; [lia|].
  destruct (read_field data pos); simpl; [|lia]. specialize (IH (next_pos pos t)). lia.
Qed.

Lemma scan_prefix_field_length k data pos f :
  f ∈ scan_prefix k data pos → -9 <= Field.length f <= 99.
Proof.
  revert pos. induction k as [|k IH]; intros pos; simpl; [by intros ?%elem_of_nil|].
  destruct (read_field data pos) as [g|] eqn:E; [|by intros ?%elem_of_nil].
  intros [->|H]%elem_of_cons; [by eapply read_field_length | by eapply IH].
Qed.

(** When the loop stops after exactly the fields of the prefix, the scan
    is that prefix. *)
Lemma scan_of_prefix k data pos :
  (length (scan_prefix k data pos) < k)%nat →
  scan k data pos = Some (scan_prefix k data pos).
Proof.
  revert pos. induction k as [|k IH]; intros pos; simpl; [lia|].
  destruct (read_field data pos) as [f|]; [|done].
  simpl. intros H. rewrite IH by lia. done.
Qed.

(** ** [_parse] and the sequence of fields *)

Lemma _parse_scan k data pos d :
  QRISParser._parse k data pos d = store d <$> scan k data pos.
Proof.
  revert pos d. induction k as [|k IH]; intros pos d; [reflexivity|].
  rewrite _parse_step. simpl. destruct (read_field data pos) as [f|]; [|done].
  rewrite IH. by destruct (scan k data _).
Qed.

Lemma store_lookup d fs tag :
  store d fs !! tag =
  match last_with tag fs with
  | Some f => Some (entry_of f)
  | None => d !! tag
  end.
Proof.
  revert d. induction fs as [|f fs IH]; intros d; [done|].
  simpl. rewrite IH. unfold last_with. rewrite filter_cons.
  case_decide as Ht.
  - destruct (filter _ fs) as [|g gs] eqn:E; simpl.
    + rewrite <- Ht. by rewrite lookup_insert_eq.
    + rewrite last_cons. by destruct (last gs).
  - destruct (last _); [done|]. by rewrite lookup_insert_ne.
Qed.

(** ** Termination of the cursor loop

    A length is read by [int()] and can be negative ("-4" stands still,
    "-5" steps back), so a loop need not stop.  It does stop, within a
    number of turns bounded by the length of the string, when no length
    read on the way is negative. *)
Lemma scan_stops_from data k pos :
  (∀ n f, f ∈ scan_prefix n data pos → 0 <= Field.length f) →
  len data - pos < 4 * Z.of_nat k →
  ∃ fs, scan (S k) data pos = Some fs.
Proof.
  revert pos. induction k as [|k IH]; intros pos Hnn Hk.
  - exists []. simpl. unfold read_field.
    by destruct (Z.ltb_spec pos (len data)); [lia|].
  - rewrite scan_S. destruct (read_field data pos) as [f|] eqn:E; [|by exists []].
    assert (0 <= Field.length f).
    { apply (Hnn 1%nat). simpl. rewrite E. apply elem_of_cons. by left. }
    destruct (IH (next_pos pos f)) as [fs Hfs].
    + intros n g Hg. apply (Hnn (S n)). simpl. rewrite E. apply elem_of_cons. by right.
    + unfold next_pos. lia.
    + exists (f :: fs). by rewrite Hfs.
Qed.

Lemma scan_stops data :
  (∀ n f, f ∈ scan_prefix n data 0 → 0 <= Field.length f) →
  ∃ fs, scan (S (S (length data))) data 0 = Some fs.
Proof.
  intros Hnn. apply scan_stops_from; [done|]. unfold len. lia.
Qed.

(** With the length "-4" the cursor stands still: the loop reads the same
    field in every turn, and [_parse] never returns. *)
Lemma negative_length_spins fuel d :
  scan fuel (lit "00-4") 0 = None ∧ QRISParser._parse fuel (lit "00-4") 0 d = None.
Proof.
  assert (H : scan fuel (lit "00-4") 0 = None).
  { induction fuel as [|fuel IH]; [reflexivity|].
    rewrite scan_S.
    change (read_field (lit "00-4") 0)
      with (Some {| Field.tag := lit "00"; Field.length := -4; Field.value := [] |}).
    cbv beta iota. change (next_pos 0 _) with 0. by rewrite IH. }
  by rewrite _parse_scan, H.
Qed.

(** ** [build] and the sequence of fields *)

Lemma kept_cons f fs :
  Edit.kept (f :: fs) =
  if bool_decide (Field.tag f = lit "63") then Edit.kept fs else f :: Edit.kept fs.
Proof.
  unfold Edit.kept. rewrite filter_cons.
  case_decide; case_bool_decide; done.
Qed.

(** What the loop of [build] does with a budget of [k] turns: the first
    kept field that is too long raises; otherwise the pieces of the kept
    fields are appended when the loop stops within the budget. *)
Lemma build_loop_spec k data mods pos res :
  QRISEditor.build_loop k data mods pos res =
  match Edit.first_too_long mods (scan_prefix k data pos) with
  | Some f => Raised (Edit.error mods f)
  | None =>
      match scan k data pos with
      | Some fs => Returned (res ++ (Edit.piece mods <$> Edit.kept fs))
      | None => OutOfFuel
      end
  end.
Proof.
  revert pos res. induction k as [|k IH]; intros pos res; [reflexivity|].
  rewrite build_loop_step. cbn [scan scan_prefix].
  destruct (read_field data pos) as [f|]; [|by rewrite app_nil_r].
  unfold Edit.first_too_long in *. rewrite kept_cons.
  case_bool_decide.
  - rewrite IH. destruct (find _ _); [done|].
    destruct (scan k data _); simpl; [|done]. by rewrite kept_cons, bool_decide_true.
  - cbn [find]. destruct (Edit.too_long mods f); [done|].
    rewrite IH. destruct (find _ _); [done|].
    destruct (scan k data _); simpl; [|done].
    rewrite kept_cons, bool_decide_false by done.
    by rewrite fmap_cons, <- app_assoc.
Qed.


Lemma build_loop_returned k data mods r :
  QRISEditor.build_loop k data mods 0 [] = Returned r ↔
  ∃ fs, scan k data 0 = Some fs ∧
        Edit.first_too_long mods fs = None ∧
        r = Edit.piece mods <$> Edit.kept fs.
Proof.
  rewrite build_loop_spec. split.
  - destruct (Edit.first_too_long _ _) eqn:E; [done|].
    destruct (scan k data 0) as [fs|] eqn:E'; [|done].
    rewrite (scan_prefix_scan _ _ _ _ E') in E. intros [= <-]. by exists fs.
  - intros (fs & E & F & ->). by rewrite (scan_prefix_scan _ _ _ _ E), F, E.
Qed.

Lemma first_too_long_Some mods fs f :
  Edit.first_too_long mods fs = Some f →
  f ∈ fs ∧ Field.tag f ≠ lit "63" ∧
  Edit.length_after mods f > QRISEditor.max_len (Field.tag f).
Proof.
  unfold Edit.first_too_long. intros [Hin Ht]%find_some.
  apply list_elem_of_In, list_elem_of_filter in Hin as [? ?].
  unfold Edit.too_long in Ht. rewrite Z.gtb_ltb, Z.ltb_lt in Ht.
  split_and!; [done | done | lia].
Qed.

Lemma first_too_long_None mods fs f :
  Edit.first_too_long mods fs = None →
  f ∈ fs → Field.tag f ≠ lit "63" →
  Edit.length_after mods f <= QRISEditor.max_len (Field.tag f).
Proof.
  unfold Edit.first_too_long. intros H Hin Ht.
  pose proof (find_none _ _ H f) as Hf.
  unfold Edit.too_long in Hf. rewrite Z.gtb_ltb, Z.ltb_ge in Hf.
  apply Hf, list_elem_of_In, list_elem_of_filter. done.
Qed.


(** ** Edit sessions *)








Lemma build_raised fuel self e :
  QRISEditor.build fuel self = Raised e ↔
  QRISEditor.build_loop fuel (QRISEditor.raw self) (QRISEditor.modifications self) 0 []
  = Raised e.
Proof. unfold QRISEditor.build. destruct (QRISEditor.build_loop _ _ _ _ _); naive_solver. Qed.

Lemma max_len_le tag : QRISEditor.max_len tag <= 99.
Proof. unfold QRISEditor.max_len. repeat case_bool_decide; lia. Qed.


(** ** Numerals and [format] *)

Lemma digit_char_table :
  Forall (λ d, Numeral.digit_value (digit_char d) = Some d
               ∧ (d ≠ 0 → digit_char d ≠ "0"%char)) (seqZ 0 16).
Proof. repeat constructor; vm_compute; congruence. Qed.

Lemma digit_value_digit_char d :
  0 <= d < 16 → Numeral.digit_value (digit_char d) = Some d.
Proof.
  intros Hd. pose proof digit_char_table as T. rewrite Forall_forall in T.
  apply T, elem_of_seqZ. lia.
Qed.

Lemma digit_char_not_zero d : 0 < d < 16 → digit_char d ≠ "0"%char.
Proof.
  intros Hd. pose proof digit_char_table as T. rewrite Forall_forall in T.
  apply T; [apply elem_of_seqZ|]; lia.
Qed.

Lemma number_of_snoc base s c :
  Numeral.number_of base (s ++ [c])
  = Numeral.shift_in base (Numeral.number_of base s) c.
Proof. unfold Numeral.number_of. by rewrite foldl_app. Qed.

Lemma shift_in_None base s : foldl (Numeral.shift_in base) None s = None.
Proof. induction s as [|c s IH]; [done|]. exact IH. Qed.

(** Zeros in front do not change the number. *)
Lemma number_of_zeros base k s :
  0 < base →
  Numeral.number_of base (replicate k "0"%char ++ s) = Numeral.number_of base s.
Proof.
  intros Hb. induction k as [|k IH]; [done|].
  cbn [replicate app]. unfold Numeral.number_of in *. cbn [foldl].
  assert (Numeral.shift_in base (Some 0) "0"%char = Some 0) as ->; [|exact IH].
  unfold Numeral.shift_in. change (Numeral.digit_value "0"%char) with (Some 0).
  cbn [mbind option_bind]. by destruct (Z.ltb_spec 0 base); [|lia].
Qed.

(** The digits [digits_from] writes in front of [acc] denote [n], and
    start with no zero unless [n] is 0. *)
Lemma digits_from_number base fuel n acc :
  2 <= base <= 16 → 0 <= n < 2 ^ Z.of_nat fuel → (1 <= fuel)%nat →
  ∃ ds, digits_from base fuel n acc = ds ++ acc
        ∧ Numeral.number_of base ds = Some n
        ∧ ds ≠ []
        ∧ (n ≠ 0 → head ds ≠ Some "0"%char).
Proof.
  intros Hb. revert n acc. induction fuel as [|fuel IH]; intros n acc Hn Hf; [lia|].
  cbn [digits_from].
  assert (Hm : 0 <= n mod base < base) by (apply Z.mod_pos_bound; lia).
  assert (Hd : Numeral.digit_value (digit_char (n mod base)) = Some (n mod base))
    by (apply digit_value_digit_char; lia).
  destruct (Z.eqb_spec (n / base) 0) as [Hz|Hz].
  - assert (Hsmall : n mod base = n).
    { pose proof (Z.div_mod n base ltac:(lia)) as E. rewrite Hz in E. lia. }
    exists [digit_char (n mod base)]. split_and!; [done| |done|].
    + unfold Numeral.number_of. cbn [foldl]. unfold Numeral.shift_in.
      cbn [mbind option_bind]. rewrite Hd. cbn [mbind option_bind].
      destruct (Z.ltb_spec (n mod base) base); [|lia]. f_equal. lia.
    + intros Hn0 [= E]. revert E. apply digit_char_not_zero. lia.
  - assert (Hq : 1 <= n / base).
    { pose proof (Z.div_pos n base ltac:(lia) ltac:(lia)). lia. }
    assert (Hge : base <= n).
    { destruct (Z.lt_ge_cases n base); [|done]. rewrite Z.div_small in Hz; lia. }
    assert (Hfuel : (1 <= fuel)%nat).
    { destruct fuel; [|lia]. simpl in Hn. lia. }
    destruct (IH (n / base) (digit_char (n mod base) :: acc)) as (ds & E & Hv & Hne & Hh).
    + split; [lia|].
      apply Z.div_lt_upper_bound; [lia|].
      rewrite Nat2Z.inj_succ, Z.pow_succ_r in Hn by lia.
      assert (0 < 2 ^ Z.of_nat fuel) by (apply Z.pow_pos_nonneg; lia). nia.
    + done.
    + exists (ds ++ [digit_char (n mod base)]). rewrite E, <- app_assoc.
      split_and!; [done| | |].
      * rewrite number_of_snoc, Hv. unfold Numeral.shift_in.
        cbn [mbind option_bind]. rewrite Hd. cbn [mbind option_bind].
        destruct (Z.ltb_spec (n mod base) base); [|lia]. f_equal.
        pose proof (Z.div_mod n base ltac:(lia)). lia.
      * by destruct ds.
      * intros _. destruct ds as [|c ds]; [done|]. apply Hh. lia.
Qed.

Lemma to_base_number base n :
  2 <= base <= 16 → 0 <= n →
  Numeral.number_of base (to_base base n) = Some n
  ∧ to_base base n ≠ []
  ∧ (n ≠ 0 → head (to_base base n) ≠ Some "0"%char).
Proof.
  intros Hb Hn. unfold to_base.
  destruct (digits_from_number base (S (Z.to_nat (Z.log2 n))) n [] Hb)
    as (ds & -> & Hv & Hne & Hh).
  - split; [done|]. destruct (Z.eq_dec n 0) as [->|]; [done|].
    rewrite Nat2Z.inj_succ, Z2Nat.id by apply Z.log2_nonneg.
    apply Z.log2_spec. lia.
  - lia.
  - by rewrite app_nil_r.
Qed.


(** [format(n, '04X')] of a 16-bit number denotes [n] in base 16. *)
Lemma format_04X_number n :
  0 <= n < 2 ^ 16 → Numeral.number_of 16 (format_04X n) = Some n.
Proof.
  intros Hn. unfold format_04X, format_int.
  rewrite Z.abs_eq by lia. destruct (Z.ltb_spec n 0); [lia|].
  cbn [app]. rewrite number_of_zeros by lia. apply to_base_number; lia.
Qed.


(** ** The length limit of [build] *)


(** C9. [build] applies the limit to fields that were never overridden:
    when the payload holds a field "59" (or "60", "61") whose declared
    length is above 25 (or 15, 5), [build] without any override raises the
    length error, for the first field above its limit, and returns no
    payload. *)
Theorem build_checks_original_fields raw parser n f :
  f ∈ scan_prefix n raw 0 →
  (Field.tag f = lit "59" ∧ Field.length f > 25) ∨
  (Field.tag f = lit "60" ∧ Field.length f > 15) ∨
  (Field.tag f = lit "61" ∧ Field.length f > 5) →
  ∃ g, g ∈ scan_prefix n raw 0 ∧
       Field.length g > QRISEditor.max_len (Field.tag g) ∧
       QRISEditor.build n (Edit.session raw parser []) =
       Raised (QRISEditor.too_long (Field.tag g) (Field.length g)
                 (QRISEditor.max_len (Field.tag g))).
Proof.
  intros Hin Hf.
  assert (Hl : Edit.length_after ∅ f > QRISEditor.max_len (Field.tag f)).
  { unfold Edit.length_after. rewrite lookup_empty.
    destruct Hf as [[-> ?]|[[-> ?]|[-> ?]]]; done. }
  assert (Ht : Field.tag f ≠ lit "63").
  { destruct Hf as [[-> ?]|[[-> ?]|[-> ?]]]; done. }
  destruct (Edit.first_too_long ∅ (scan_prefix n raw 0)) as [g|] eqn:E.
  - exists g. pose proof (first_too_long_Some _ _ _ E) as (Hg & _ & Hgl).
    unfold Edit.length_after in Hgl. rewrite lookup_empty in Hgl.
    split_and!; [done..|]. apply build_raised. simpl.
    rewrite build_loop_spec, E. unfold Edit.error, Edit.length_after.
    by rewrite lookup_empty.
  - pose proof (first_too_long_None _ _ _ E Hin Ht). lia.
Qed.

(** C10. In [build] the cursor moves by the length read from the payload,
    whatever the overrides are: a turn that neither stops nor raises
    continues at [pos + 4 + length] for the length read at [pos].  Hence two
    builds of one payload under any two override sets that both return have
    read the same fields and emit a piece for the same tags in the same
    order; the piece of a field is its tag, the two-character length and the
    value, which are those of the payload when the tag has no override and
    the override with its character count when it has one. *)
Theorem build_cursor_ignores_overrides data mods1 mods2 :
  (∀ k pos res length,
      pos + 4 <= len data →
      py_int (slice data (pos + 2) (pos + 4)) = Some length →
      (∃ e, QRISEditor.build_loop (S k) data mods1 pos res = Raised e) ∨
      (∃ res', QRISEditor.build_loop (S k) data mods1 pos res =
               QRISEditor.build_loop k data mods1 (pos + 4 + length) res'))
  ∧ (∀ k1 k2 r1 r2,
      QRISEditor.build_loop k1 data mods1 0 [] = Returned r1 →
      QRISEditor.build_loop k2 data mods2 0 [] = Returned r2 →
      ∃ fs, scan k1 data 0 = Some fs ∧
            r1 = Edit.piece mods1 <$> Edit.kept fs ∧
            r2 = Edit.piece mods2 <$> Edit.kept fs ∧
            Forall (λ f,
              ∀ mods, mods = mods1 ∨ mods = mods2 →
                length (format_02d (Edit.length_after mods f)) = 2%nat ∧
                Edit.piece mods f =
                match mods !! Field.tag f with
                | Some v => Field.tag f ++ format_02d (len v) ++ v
                | None => Field.tag f ++ format_02d (Field.length f) ++ Field.value f
                end) (Edit.kept fs)).
Proof.
  split.
  - intros k pos res length Hpos Hint. rewrite build_loop_step.
    unfold read_field. rewrite Hint.
    destruct (Z.ltb_spec pos (len data)); [|lia].
    rewrite Z.gtb_ltb. destruct (Z.ltb_spec (len data) (pos + 4)); [lia|].
    simpl. case_bool_decide; [right; by eexists|].
    destruct (Edit.too_long _ _); [left|right]; by eexists.
  - intros k1 k2 r1 r2 H1 H2.
    apply build_loop_returned in H1 as (fs & E1 & F1 & ->).
    apply build_loop_returned in H2 as (fs' & E2 & F2 & ->).
    rewrite (scan_det _ _ _ _ _ _ E2 E1) in *. clear E2 fs'.
    exists fs. split_and!; [done..|].
    apply Forall_forall. intros f [Ht Hin]%list_elem_of_filter mods Hm.
    assert (Hl : Edit.length_after mods f <= 99).
    { etrans; [|apply (max_len_le (Field.tag f))].
      destruct Hm as [->| ->]; by eapply first_too_long_None. }
    assert (Hr : -9 <= Field.length f <= 99).
    { apply (scan_prefix_field_length k1 data 0).
      by rewrite (scan_prefix_scan _ _ _ _ E1). }
    split.
    + apply format_02d_length. unfold Edit.length_after in *.
      destruct (mods !! Field.tag f); [pose proof (len_nonneg s)|]; lia.
    + unfold Edit.piece, Edit.length_after, Edit.value_after.
      by destruct (mods !! Field.tag f).
Qed.

(** ** The composite accessors and the sequence of fields *)

Lemma first_with_cons tag f fs :
  first_with tag (f :: fs) =
  if bool_decide (Field.tag f = tag) then Some f else first_with tag fs.
Proof.
  unfold first_with. rewrite filter_cons. case_decide; case_bool_decide; done.
Qed.

Lemma truncate_take (v : str) :
  (if len v >=? 8 then slice v 0 8 else v) = take 8 v.
Proof.
  rewrite Z.geb_leb. destruct (Z.leb_spec 8 (len v)).
  - rewrite slice_inside by lia. reflexivity.
  - symmetry. apply take_ge. unfold len in *. lia.
Qed.

Lemma nmid_loop_spec k v pos :
  QRISParser.nmid_loop k v pos =
  match first_with (lit "02") (scan_prefix k v pos) with
  | Some f => Some (Field.value f)
  | None => match scan k v pos with Some _ => Some [] | None => None end
  end.
Proof.
  revert pos. induction k as [|k IH]; intros pos; [reflexivity|].
  rewrite nmid_loop_step. cbn [scan scan_prefix].
  destruct (read_field v pos) as [f|]; [|reflexivity].
  rewrite first_with_cons. case_bool_decide; [reflexivity|].
  rewrite IH. destruct (first_with _ _); [reflexivity|].
  by destruct (scan k v _).
Qed.

Lemma acquiring_id_loop_spec k v pos :
  QRISParser.acquiring_id_loop k v pos =
  match first_with (lit "01") (scan_prefix k v pos) with
  | Some f => Some (take 8 (Field.value f))
  | None => match scan k v pos with Some _ => Some [] | None => None end
  end.
Proof.
  revert pos. induction k as [|k IH]; intros pos; [reflexivity|].
  rewrite acquiring_id_loop_step. cbn [scan scan_prefix].
  destruct (read_field v pos) as [f|]; [|reflexivity].
  rewrite first_with_cons. case_bool_decide; [by rewrite truncate_take|].
  rewrite IH. destruct (first_with _ _); [reflexivity|].
  by destruct (scan k v _).
Qed.

Lemma terminal_id_loop_spec k v pos :
  QRISParser.terminal_id_loop k v pos =
  match first_with (lit "07") (scan_prefix k v pos) with
  | Some f => Some (Field.value f)
  | None => match scan k v pos with Some _ => Some [] | None => None end
  end.
Proof.
  revert pos. induction k as [|k IH]; intros pos; [reflexivity|].
  rewrite terminal_id_loop_step. cbn [scan scan_prefix].
  destruct (read_field v pos) as [f|]; [|reflexivity].
  rewrite first_with_cons. case_bool_decide; [reflexivity|].
  rewrite IH. destruct (first_with _ _); [reflexivity|].
  by destruct (scan k v _).
Qed.

(** ** The parse loop *)

(** One turn of the loop of [_parse], at any cursor and with any dict built
    so far: when fewer than four characters remain past the cursor the loop
    stops and the dict is the result; when [int()] rejects the two
    characters of the length field (as it does when neither is a decimal
    digit) the loop stops and the dict built so far is the result;
    otherwise the field is stored with the characters from [pos + 4] up to
    [pos + 4 + length] as value, which are all that remain when fewer than
    [length] do, and the loop goes on at [pos + 4 + length]. *)
Lemma parse_loop_turn k data pos d :
  (len data - pos < 4 → QRISParser._parse (S k) data pos d = Some d)
  ∧ (py_int (slice data (pos + 2) (pos + 4)) = None →
     QRISParser._parse (S k) data pos d = Some d)
  ∧ (Forall (λ c, is_digit c = false) (slice data (pos + 2) (pos + 4)) →
     QRISParser._parse (S k) data pos d = Some d)
  ∧ (∀ length,
       4 <= len data - pos →
       py_int (slice data (pos + 2) (pos + 4)) = Some length →
       let tag := slice data pos (pos + 2) in
       let value := slice data (pos + 4) (pos + 4 + length) in
       QRISParser._parse (S k) data pos d =
       QRISParser._parse k data (pos + 4 + length)
         (<[tag := {| Entry.tag := tag;
                      Entry.name := default (lit "Unknown Tag " ++ tag)
                                      (QRISParser.TAGS !! tag);
                      Entry.length := length;
                      Entry.value := value |}]> d)
       ∧ (0 <= pos → len data - (pos + 4) <= length →
          value = drop (Z.to_nat (pos + 4)) data)).
Proof.
  assert (Hnone : py_int (slice data (pos + 2) (pos + 4)) = None →
                  QRISParser._parse (S k) data pos d = Some d).
  { intros H. rewrite _parse_step. unfold read_field. rewrite H.
    by repeat case_match. }
  split_and!.
  - intros H. rewrite _parse_step. unfold read_field.
    destruct (Z.ltb_spec pos (len data)); [|done].
    rewrite Z.gtb_ltb. by destruct (Z.ltb_spec (len data) (pos + 4)); [|lia].
  - exact Hnone.
  - intros H. by apply Hnone, py_int_no_digit.
  - intros length Hpos Hint tag value. split.
    + rewrite _parse_step. unfold read_field. rewrite Hint.
      destruct (Z.ltb_spec pos (len data)); [|lia].
      rewrite Z.gtb_ltb. by destruct (Z.ltb_spec (len data) (pos + 4)); [lia|].
    + intros H0 Hl. subst value. apply slice_over; lia.
Qed.

(** ** The acquiring id *)

(** What [acquiring_id] returns when its loop stops.  For every parsed
    document, [acquiring_id] scans the value of tag "26", or that of tag
    "51" when "26" is absent or its value is empty, with the cursor loop
    of the parser.  It returns the value of the first
    sub-field tagged "01", cut to its first 8 characters when it is longer,
    and the empty string when the loop stops (container empty, fewer than
    four characters left, a length that is no number, or the end reached)
    without such a sub-field.  In particular with "51" absent and a first
    sub-field "01" of "26" with value "ID1020017612345" the result is
    "ID102001".  The accessor returns, within a number of turns given by
    the length of the container, when no sub-field read has a negative
    length. *)
Lemma acquiring_id_first_01 (self : QRISParser.t) :
  let v26 := from_option Entry.value [] (QRISParser.data self !! lit "26") in
  let v51 := from_option Entry.value [] (QRISParser.data self !! lit "51") in
  let container := if bool_decide (v26 = []) then v51 else v26 in
  (∀ n f, first_with (lit "01") (scan_prefix n container 0) = Some f →
          QRISParser.acquiring_id n self = Some (take 8 (Field.value f)) ∧
          (len (Field.value f) <= 8 → take 8 (Field.value f) = Field.value f))
  ∧ (∀ n fs, scan n container 0 = Some fs → first_with (lit "01") fs = None →
             QRISParser.acquiring_id n self = Some [])
  ∧ (container = [] → ∀ n, QRISParser.acquiring_id (S n) self = Some [])
  ∧ (∀ n f, QRISParser.data self !! lit "51" = None →
            first_with (lit "01") (scan_prefix n v26 0) = Some f →
            Field.value f = lit "ID1020017612345" →
            QRISParser.acquiring_id n self = Some (lit "ID102001"))
  ∧ ((∀ n f, f ∈ scan_prefix n container 0 → 0 <= Field.length f) →
     ∃ r, QRISParser.acquiring_id (S (S (length container))) self = Some r).
Proof.
  intros v26 v51 container.
  assert (Hacq : ∀ n, QRISParser.acquiring_id n self =
                      QRISParser.acquiring_id_loop n container 0) by done.
  split_and!.
  - intros n f Hf. rewrite Hacq, acquiring_id_loop_spec, Hf. split; [done|].
    intros Hl. apply take_ge. unfold len in Hl. lia.
  - intros n fs Hs Hf.
    by rewrite Hacq, acquiring_id_loop_spec, (scan_prefix_scan _ _ _ _ Hs), Hf, Hs.
  - intros Hc n. rewrite Hacq, Hc. reflexivity.
  - intros n f H51 Hf Hv. rewrite Hacq, acquiring_id_loop_spec.
    assert (container = v26) as ->.
    { subst container v51. rewrite H51. simpl. by case_bool_decide. }
    rewrite Hf, Hv. reflexivity.
  - intros Hnn. destruct (scan_stops container Hnn) as [fs Hs].
    rewrite Hacq, acquiring_id_loop_spec, Hs.
    destruct (first_with _ _); by eexists.
Qed.

(** ** Repeated tags *)

(** C7, as the code has it.  At the top level the entry of a tag in the
    document is that of the last field read with this tag (its length and
    value), and a repeated tag does not disturb the fields after it: the
    document is the result of storing every field the cursor loop reads,
    in order.  Inside a composite value there is
    no document: each accessor returns at the first sub-field with the tag
    it looks for.  The parse returns a document when no length read is
    negative. *)
Theorem parse_last_write_wins data k :
  (∀ fs, scan k data 0 = Some fs →
         ∃ d, QRISParser._parse k data 0 ∅ = Some d ∧
              ∀ tag, d !! tag = entry_of <$> last_with tag fs)
  ∧ (∀ d, QRISParser._parse k data 0 ∅ = Some d →
          ∃ fs, scan k data 0 = Some fs ∧
                ∀ tag, d !! tag = entry_of <$> last_with tag fs)
  ∧ (∀ f, first_with (lit "01") (scan_prefix k data 0) = Some f →
          QRISParser.acquiring_id_loop k data 0 = Some (take 8 (Field.value f)))
  ∧ (∀ f, first_with (lit "02") (scan_prefix k data 0) = Some f →
          QRISParser.nmid_loop k data 0 = Some (Field.value f))
  ∧ (∀ f, first_with (lit "07") (scan_prefix k data 0) = Some f →
          QRISParser.terminal_id_loop k data 0 = Some (Field.value f))
  ∧ ((∀ n f, f ∈ scan_prefix n data 0 → 0 <= Field.length f) →
     ∃ d, QRISParser._parse (S (S (length data))) data 0 ∅ = Some d).
Proof.
  assert (Hl : ∀ fs tag, store ∅ fs !! tag = entry_of <$> last_with tag fs).
  { intros fs tag. rewrite store_lookup. by destruct (last_with tag fs). }
  split_and!.
  - intros fs Hs. exists (store ∅ fs). by rewrite _parse_scan, Hs.
  - intros d. rewrite _parse_scan. destruct (scan k data 0) as [fs|]; [|done].
    intros [= <-]. by exists fs.
  - intros f Hf. by rewrite acquiring_id_loop_spec, Hf.
  - intros f Hf. by rewrite nmid_loop_spec, Hf.
  - intros f Hf. by rewrite terminal_id_loop_spec, Hf.
  - intros Hnn. destruct (scan_stops data Hnn) as [fs Hs].
    exists (store ∅ fs). by rewrite _parse_scan, Hs.
Qed.

(** ** The summary view *)

Lemma info_lines_filter info :
  QRISParser.info_lines info =
  (λ kv, lit "  " ++ ljust 20 kv.1 ++ lit ": " ++ kv.2)
    <$> filter (λ kv, kv.2 ≠ []) info.
Proof.
  induction info as [|[key value] info IH]; [done|].
  unfold QRISParser.info_lines in *. rewrite bind_cons, IH, filter_cons. simpl.
  case_bool_decide; case_decide; done.
Qed.

(** C8, as the code has it.  When the three composite accessors return,
    [get_info] returns all ten labels in their fixed order, each with the
    value of its accessor, also when that value is empty; it is
    [display_info] that leaves out the items with an empty value, printing
    one line for each of the others. *)
Theorem get_info_all_labels fuel self nmid terminal_id acquiring_id :
  QRISParser.nmid fuel self = Some nmid →
  QRISParser.terminal_id fuel self = Some terminal_id →
  QRISParser.acquiring_id fuel self = Some acquiring_id →
  let info := [
    (lit "Merchant Name", QRISParser.merchant_name self);
    (lit "Merchant City", QRISParser.merchant_city self);
    (lit "NMID", nmid);
    (lit "Terminal ID", terminal_id);
    (lit "Acquiring ID", acquiring_id);
    (lit "Country Code", QRISParser.get_value self (lit "58"));
    (lit "Postal Code", QRISParser.postal_code self);
    (lit "Merchant Category", QRISParser.get_value self (lit "52"));
    (lit "Currency", QRISParser.get_value self (lit "53"));
    (lit "Checksum", QRISParser.checksum self)] in
  QRISParser.get_info fuel self = Some info
  ∧ length info = 10%nat
  ∧ QRISParser.display_info fuel self =
    Some ([newline ++ replicate 50 "="%char;
           lit "          QRIS MERCHANT INFORMATION";
           replicate 50 "="%char]
          ++ ((λ kv, lit "  " ++ ljust 20 kv.1 ++ lit ": " ++ kv.2)
                <$> filter (λ kv, kv.2 ≠ []) info)
          ++ [replicate 50 "-"%char;
              lit "  QRIS Raw Value:";
              lit "  " ++ QRISParser.raw self;
              replicate 50 "="%char ++ newline]).
Proof.
  intros Hn Ht Ha info.
  assert (Hi : QRISParser.get_info fuel self = Some info).
  { unfold QRISParser.get_info. rewrite Hn, Ht, Ha. reflexivity. }
  split_and!; [done..|].
  unfold QRISParser.display_info. rewrite Hi. cbn [mbind option_bind].
  by rewrite <- info_lines_filter.
Qed.

(** ** The checksum *)

Lemma land_topbit_eqb reg :
  (Z.land reg (Z.shiftl 1 15) =? 0) = negb (Z.testbit reg 15).
Proof.
  change (Z.shiftl 1 15) with (2 ^ 15).
  destruct (Z.testbit reg 15) eqn:E; simpl.
  - apply Z.eqb_neq. intros H.
    assert (Z.testbit (Z.land reg (2 ^ 15)) 15 = true) as H'.
    { rewrite Z.land_spec, E, Z.pow2_bits_eqb by lia. reflexivity. }
    rewrite H, Z.testbit_0_l in H'. discriminate.
  - apply Z.eqb_eq, Z.bits_inj'. intros i Hi.
    rewrite Z.land_spec, Z.testbit_0_l, Z.pow2_bits_eqb by lia.
    destruct (Z.eqb_spec 15 i) as [<-|]; [by rewrite E | apply andb_false_r].
Qed.

Lemma testbit_high p i : 0 <= p < 2 ^ 16 → 16 <= i → Z.testbit p i = false.
Proof.
  intros Hp Hi. destruct (Z.eq_dec p 0) as [->|]; [apply Z.testbit_0_l|].
  apply Z.bits_above_log2; [lia|].
  assert (Z.log2 p < 16) by (apply Z.log2_lt_pow2; lia). lia.
Qed.

Lemma lxor_mod_small x p :
  0 <= p < 2 ^ 16 → Z.lxor x p mod 2 ^ 16 = Z.lxor (x mod 2 ^ 16) p.
Proof.
  intros Hp. apply Z.bits_inj'. intros i Hi.
  rewrite Z.testbit_mod_pow2, !Z.lxor_spec, Z.testbit_mod_pow2 by lia.
  destruct (Z.ltb_spec i 16); simpl; [done|].
  by rewrite (testbit_high p i).
Qed.

(** One turn of the register of the package, by bits. *)
Lemma shift_step_bits reg :
  Crc.shift_step Crc.IBM_3740 reg =
  if Z.testbit reg 15
  then Z.lxor (Z.shiftl reg 1 mod 2 ^ 16) CcittFalse.poly
  else Z.shiftl reg 1 mod 2 ^ 16.
Proof.
  unfold Crc.shift_step, Crc.topbit, Crc.bitmask. cbn [Crc.width Crc.IBM_3740 Crc.polynomial].
  change (16 - 1) with 15. rewrite land_topbit_eqb.
  change (2 ^ 16 - 1) with (Z.ones 16). rewrite !Z.land_ones by lia.
  destruct (Z.testbit reg 15); simpl negb; cbv iota; [|reflexivity].
  apply lxor_mod_small. done.
Qed.

Lemma feed_bit_shift_step reg (bit : bool) :
  CcittFalse.feed_bit reg bit =
  Crc.shift_step Crc.IBM_3740 (Z.lxor reg (if bit then 2 ^ 15 else 0)).
Proof.
  rewrite shift_step_bits. unfold CcittFalse.feed_bit.
  rewrite Z.lxor_spec.
  assert (Z.testbit (if bit then 2 ^ 15 else 0) 15 = bit) as ->.
  { destruct bit; [by rewrite Z.pow2_bits_eqb by lia | apply Z.testbit_0_l]. }
  assert (Z.shiftl (Z.lxor reg (if bit then 2 ^ 15 else 0)) 1 mod 2 ^ 16
          = Z.shiftl reg 1 mod 2 ^ 16) as ->.
  { destruct bit; [|by rewrite Z.lxor_0_r].
    apply Z.bits_inj'. intros i Hi.
    rewrite !Z.testbit_mod_pow2, !Z.shiftl_spec, Z.lxor_spec, Z.pow2_bits_eqb by lia.
    destruct (Z.ltb_spec i 16); [|done]. rewrite !andb_true_l.
    destruct (Z.eqb_spec 15 (i - 1)); [lia|]. apply xorb_false_r. }
  reflexivity.
Qed.

(** The byte of the message still to come sits in the high bits of the
    register of the package; a turn consumes its highest bit. *)
Lemma shift_step_pending s b j :
  0 <= j <= 7 →
  Crc.shift_step Crc.IBM_3740 (Z.lxor s (Z.shiftl (b mod 2 ^ (j + 1)) (15 - j))) =
  Z.lxor (CcittFalse.feed_bit s (Z.testbit b j)) (Z.shiftl (b mod 2 ^ j) (16 - j)).
Proof.
  intros Hj. rewrite shift_step_bits. unfold CcittFalse.feed_bit.
  assert (Z.testbit (Z.lxor s (Z.shiftl (b mod 2 ^ (j + 1)) (15 - j))) 15
          = xorb (Z.testbit s 15) (Z.testbit b j)) as ->.
  { rewrite Z.lxor_spec, Z.shiftl_spec, Z.testbit_mod_pow2 by lia.
    replace (15 - (15 - j)) with j by lia.
    by rewrite (proj2 (Z.ltb_lt j (j + 1))) by lia. }
  assert (Z.shiftl (Z.lxor s (Z.shiftl (b mod 2 ^ (j + 1)) (15 - j))) 1 mod 2 ^ 16
          = Z.lxor (Z.shiftl s 1 mod 2 ^ 16) (Z.shiftl (b mod 2 ^ j) (16 - j))) as ->.
  { apply Z.bits_inj'. intros i Hi.
    rewrite Z.testbit_mod_pow2, Z.lxor_spec, Z.testbit_mod_pow2 by lia.
    rewrite (Z.shiftl_spec (b mod 2 ^ j)) by lia.
    destruct (Z.ltb_spec i 16) as [Hlt|Hge]; rewrite ?andb_true_l, ?andb_false_l.
    - destruct (Z.eq_dec i 0) as [->|Hi0].
      + rewrite !Z.shiftl_spec_low, (Z.testbit_neg_r _ (0 - (16 - j))) by lia. done.
      + rewrite (Z.shiftl_spec s 1 i) by lia.
        rewrite Z.shiftl_spec, Z.lxor_spec, Z.shiftl_spec by lia. f_equal.
        replace (i - 1 - (15 - j)) with (i - (16 - j)) by lia.
        destruct (Z.lt_ge_cases (i - (16 - j)) 0).
        * rewrite !(Z.testbit_neg_r _ (i - (16 - j))) by lia. done.
        * rewrite !Z.testbit_mod_pow2 by lia.
          rewrite (proj2 (Z.ltb_lt (i - (16 - j)) (j + 1))),
            (proj2 (Z.ltb_lt (i - (16 - j)) j)) by lia. done.
    - rewrite Z.testbit_mod_pow2 by lia.
      rewrite (proj2 (Z.ltb_ge (i - (16 - j)) j)) by lia. done. }
  destruct (xorb _ _); [|reflexivity].
  rewrite !Z.lxor_assoc. f_equal. apply Z.lxor_comm.
Qed.

Lemma feed_bit_range r bit : 0 <= CcittFalse.feed_bit r bit < 2 ^ 16.
Proof.
  unfold CcittFalse.feed_bit.
  pose proof (Z.mod_pos_bound (Z.shiftl r 1) (2 ^ 16) eq_refl).
  destruct (xorb _ _); [|done].
  rewrite <- lxor_mod_small by done. by apply Z.mod_pos_bound.
Qed.

Lemma process_byte_feed r b :
  0 <= r < 2 ^ 16 → 0 <= b < 256 →
  Crc.process_byte Crc.IBM_3740 r b = foldl CcittFalse.feed_bit r (CcittFalse.bits_of_byte b).
Proof.
  intros Hr Hb. unfold Crc.process_byte, Crc.bitmask.
  cbn [Crc.width Crc.IBM_3740].
  change (2 ^ 16 - 1) with (Z.ones 16). rewrite !Z.land_ones by lia.
  assert (Z.lxor r (Z.shiftl b (16 - 8)) mod 2 ^ 16
          = Z.lxor r (Z.shiftl (b mod 2 ^ (7 + 1)) (15 - 7))) as ->.
  { rewrite (Z.mod_small b) by lia. apply Z.mod_small.
    rewrite <- (Z.mod_small r (2 ^ 16)) by lia.
    assert (0 <= Z.shiftl b 8 < 2 ^ 16). { rewrite Z.shiftl_mul_pow2 by lia. lia. }
    change (16 - 8) with 8. change (15 - 7) with 8.
    rewrite <- lxor_mod_small by lia. by apply Z.mod_pos_bound. }
  cbn [Nat.iter nat_rect].
  rewrite (shift_step_pending r b 7) by lia.
  rewrite (shift_step_pending _ b 6) by lia.
  rewrite (shift_step_pending _ b 5) by lia.
  rewrite (shift_step_pending _ b 4) by lia.
  rewrite (shift_step_pending _ b 3) by lia.
  rewrite (shift_step_pending _ b 2) by lia.
  rewrite (shift_step_pending _ b 1) by lia.
  rewrite (shift_step_pending _ b 0) by lia.
  change (b mod 2 ^ 0) with (b mod 1). rewrite Z.mod_1_r, Z.shiftl_0_l, Z.lxor_0_r.
  apply Z.mod_small, feed_bit_range.
Qed.

Lemma code_range c : 0 <= code c < 256.
Proof. unfold code. pose proof (N_ascii_bounded c). lia. Qed.

Lemma encode_bytes s : Forall (λ b, 0 <= b < 256) (encode s).
Proof.
  unfold encode. induction s as [|c s IH]; [constructor|].
  rewrite bind_cons. apply Forall_app. split; [|done].
  unfold encode_char. pose proof (code_range c).
  destruct (Z.ltb_spec (code c) 128).
  - repeat constructor; lia.
  - assert (2 <= code c / 64 < 4).
    { split; [apply Z.div_le_lower_bound | apply Z.div_lt_upper_bound]; lia. }
    pose proof (Z.mod_pos_bound (code c) 64 eq_refl).
    repeat constructor; lia.
Qed.

Lemma foldl_feed_bit_range bits r :
  0 <= r < 2 ^ 16 → 0 <= foldl CcittFalse.feed_bit r bits < 2 ^ 16.
Proof.
  revert r. induction bits as [|b bits IH]; intros r Hr; [done|].
  simpl. apply IH, feed_bit_range.
Qed.

Lemma update_feed data r :
  0 <= r < 2 ^ 16 → Forall (λ b, 0 <= b < 256) data →
  Crc.update Crc.IBM_3740 r data =
  foldl CcittFalse.feed_bit r (data ≫= CcittFalse.bits_of_byte).
Proof.
  intros Hr Hd. revert r Hr.
  induction Hd as [|b data Hb _ IH]; intros r Hr; [done|].
  rewrite bind_cons, foldl_app. unfold Crc.update in *. cbn [foldl Crc.reverse_input Crc.IBM_3740].
  rewrite process_byte_feed by done. apply IH, foldl_feed_bit_range, Hr.
Qed.

(** The checksum of the package under [Crc16.IBM_3740] is the reference
    CRC-16/CCITT-FALSE. *)
Lemma checksum_reference data :
  Forall (λ b, 0 <= b < 256) data →
  Crc.checksum Crc.IBM_3740 data = CcittFalse.crc data.
Proof.
  intros Hd. unfold Crc.checksum, Crc.digest.
  cbn [Crc.reverse_output Crc.final_xor_value Crc.init_value Crc.IBM_3740].
  rewrite Z.lxor_0_r. change (Z.land 65535 _) with CcittFalse.init.
  by apply update_feed.
Qed.

Lemma crc_range data : 0 <= CcittFalse.crc data < 2 ^ 16.
Proof. apply foldl_feed_bit_range. done. Qed.

Lemma digit_char_hex d : 0 <= d < 16 → is_upper_hex (digit_char d) = true.
Proof.
  intros Hd.
  assert (d ∈ seqZ 0 16) as Hin by (apply elem_of_seqZ; lia).
  clear Hd. revert d Hin. apply Forall_forall, (bool_decide_unpack _).
  vm_compute. reflexivity.
Qed.

Lemma digits_from_hex fuel n acc (m : nat) :
  0 <= n < 2 ^ Z.of_nat fuel → n < 16 ^ Z.of_nat m → (1 <= m)%nat →
  ∃ ds, digits_from 16 fuel n acc = ds ++ acc ∧ (length ds <= m)%nat ∧
        Forall (λ c, is_upper_hex c = true) ds.
Proof.
  revert n acc m. induction fuel as [|fuel IH]; intros n acc m Hn Hm H1.
  { exists []. split_and!; [done | simpl; lia | constructor]. }
  cbn [digits_from].
  assert (Hd : is_upper_hex (digit_char (n mod 16)) = true).
  { apply digit_char_hex, Z.mod_pos_bound. lia. }
  destruct (Z.eqb_spec (n / 16) 0) as [Hz|Hz].
  { exists [digit_char (n mod 16)]. split_and!; [done | simpl; lia | by constructor]. }
  assert (16 <= n).
  { destruct (Z.lt_ge_cases n 16); [|done]. rewrite Z.div_small in Hz; lia. }
  destruct m as [|[|m]]; [lia | simpl in Hm; lia |].
  destruct (IH (n / 16) (digit_char (n mod 16) :: acc) (S m)) as (ds & E & Hl & Hh).
  - split; [apply Z.div_pos; lia|].
    apply Z.div_lt_upper_bound; [lia|].
    rewrite Nat2Z.inj_succ, Z.pow_succ_r in Hn by lia. lia.
  - apply Z.div_lt_upper_bound; [lia|].
    rewrite (Nat2Z.inj_succ (S m)), Z.pow_succ_r in Hm by lia. lia.
  - lia.
  - exists (ds ++ [digit_char (n mod 16)]). rewrite E, <- app_assoc.
    split_and!; [done | rewrite length_app; simpl; lia |].
    apply Forall_app. split; [done | by constructor].
Qed.

Lemma format_04X_hex n :
  0 <= n < 2 ^ 16 →
  length (format_04X n) = 4%nat ∧ Forall (λ c, is_upper_hex c = true) (format_04X n).
Proof.
  intros Hn. unfold format_04X, format_int, to_base.
  rewrite Z.abs_eq by lia. destruct (Z.ltb_spec n 0); [lia|].
  destruct (digits_from_hex (S (Z.to_nat (Z.log2 n))) n [] 4) as (ds & -> & Hl & Hh).
  - split; [lia|]. destruct (Z.eq_dec n 0) as [->|]; [done|].
    rewrite Nat2Z.inj_succ, Z2Nat.id by apply Z.log2_nonneg.
    apply Z.log2_spec. lia.
  - change (16 ^ Z.of_nat 4) with (2 ^ 16). lia.
  - lia.
  - rewrite app_nil_r. simpl. split.
    + rewrite length_app, length_replicate. lia.
    + apply Forall_app. split; [|done]. by apply Forall_replicate.
Qed.

(** ** The bytes of a string *)

(** On a character of the block, [encode_char] gives the bytes of RFC
    3629. *)
Lemma encode_char_utf8 c :
  Utf8.encode_point (Z.of_N (N_of_ascii c)) = Some (encode_char c).
Proof. destruct c as [[] [] [] [] [] [] [] []]; reflexivity. Qed.

Lemma encode_utf8 (s : str) : Utf8.encode (codepoints s) = Some (encode s).
Proof.
  induction s as [|c s IH]; [reflexivity|].
  change (codepoints (c :: s)) with (N_of_ascii c :: codepoints s).
  cbn [Utf8.encode]. rewrite encode_char_utf8, IH. reflexivity.
Qed.

(** C5. The checksum engine computes CRC-16/CCITT-FALSE over the bytes
    of the string: the bytes are those of its UTF-8 encoding (RFC 3629: one
    byte for an ASCII character, two for the others of the block); the
    configuration [Crc16.IBM_3740] of the package has width 16, polynomial
    0x1021, initial value 0xFFFF, no reflection of input or output and no
    final xor, and the register of the package ends with the value of the
    reference definition by these parameters.  The result is formatted as
    exactly four characters out of 0..9 and A..F that denote that value in
    base 16, so with zeros in front of a small value.  The checksum of
    "123456789" is "29B1"; that of the one character U+00E9, of bytes C3
    A9, is "7ACB"; that of "HM" is "0003"; that of the empty string is
    "FFFF". *)
Theorem checksum_is_crc16_ccitt_false (data : str) :
  QRISEditor._calculate_checksum data = format_04X (CcittFalse.crc (encode data))
  ∧ Utf8.encode (codepoints data) = Some (encode data)
  ∧ length (QRISEditor._calculate_checksum data) = 4%nat
  ∧ Forall (λ c, is_upper_hex c = true) (QRISEditor._calculate_checksum data)
  ∧ Numeral.number_of 16 (QRISEditor._calculate_checksum data)
    = Some (CcittFalse.crc (encode data))
  ∧ Crc.IBM_3740 =
    {| Crc.width := 16; Crc.polynomial := 0x1021; Crc.init_value := 0xFFFF;
       Crc.final_xor_value := 0; Crc.reverse_input := false;
       Crc.reverse_output := false |}
  ∧ encode (lit "123456789") = [49; 50; 51; 52; 53; 54; 55; 56; 57]
  ∧ QRISEditor._calculate_checksum (lit "123456789") = lit "29B1"
  ∧ encode ["233"%char] = [0xC3; 0xA9]
  ∧ QRISEditor._calculate_checksum ["233"%char] = lit "7ACB"
  ∧ QRISEditor._calculate_checksum (lit "HM") = lit "0003"
  ∧ QRISEditor._calculate_checksum [] = lit "FFFF".
Proof.
  assert (H : QRISEditor._calculate_checksum data
              = format_04X (CcittFalse.crc (encode data))).
  { unfold QRISEditor._calculate_checksum.
    by rewrite checksum_reference by apply encode_bytes. }
  rewrite H. pose proof (format_04X_hex _ (crc_range (encode data))) as [? ?].
  split_and!; [done | apply encode_utf8 | done | done
               | apply format_04X_number, crc_range | done | ..];
    vm_compute; reflexivity.
Qed.

(** ** Searching a string *)

Lemma startswith_occurs s p : startswith s p = true ↔ occurs_at s p 0.
Proof. unfold startswith, occurs_at. by rewrite bool_decide_eq_true. Qed.

Lemma startswith_app s p : startswith s p = true ↔ ∃ r, s = p ++ r.
Proof.
  unfold startswith. rewrite bool_decide_eq_true. split.
  - intros H. exists (drop (length p) s). by rewrite <- H at 1; rewrite take_drop.
  - intros [r ->]. apply take_app_length.
Qed.

Lemma occurs_at_cons c s sub i : occurs_at (c :: s) sub (S i) ↔ occurs_at s sub i.
Proof. done. Qed.

Lemma occurs_at_app pre sub post : occurs_at (pre ++ sub ++ post) sub (length pre).
Proof. unfold occurs_at. by rewrite drop_app_length, take_app_length. Qed.

Lemma occurs_at_split s sub i :
  occurs_at s sub i → (i <= length s)%nat →
  s = take i s ++ sub ++ drop (i + length sub) s.
Proof.
  unfold occurs_at. intros H Hi.
  rewrite <- H at 1. rewrite <- drop_drop, take_drop. by rewrite take_drop.
Qed.

Lemma occurs_at_length s sub i :
  occurs_at s sub i → sub ≠ [] → (i + length sub <= length s)%nat.
Proof.
  unfold occurs_at. intros H Hs.
  assert (length (take (length sub) (drop i s)) = length sub) as Hl by by rewrite H.
  rewrite length_take, length_drop in Hl.
  assert (length sub ≠ 0)%nat by by destruct sub. lia.
Qed.

Lemma contains_occurs s sub :
  contains s sub = true ↔ ∃ i, occurs_at s sub i.
Proof.
  induction s as [|c s IH].
  - simpl. rewrite orb_false_r, startswith_occurs. split; [by exists 0%nat|].
    intros [i H]. unfold occurs_at in *. by rewrite drop_nil in *.
  - cbn [contains]. rewrite orb_true_iff, IH, startswith_occurs. split.
    + intros [H|[i H]]; [by exists 0%nat | by exists (S i)].
    + intros [[|i] H]; [by left | right; by exists i].
Qed.

Lemma rfind_from_spec s sub i :
  0 <= i →
  (rfind_from s sub i = -1 ∧ ∀ j, (j <= length s)%nat → ¬ occurs_at s sub j) ∨
  (∃ j, (j <= length s)%nat ∧ rfind_from s sub i = i + Z.of_nat j ∧
        occurs_at s sub j ∧
        ∀ j', (j < j' <= length s)%nat → ¬ occurs_at s sub j').
Proof.
  revert i. induction s as [|c s IH]; intros i Hi.
  - simpl. destruct (startswith [] sub) eqn:E.
    + right. exists 0%nat. split_and!; [done | lia | by apply startswith_occurs |].
      simpl. lia.
    + left. split; [done|]. intros j Hj. simpl in Hj.
      replace j with 0%nat by lia. rewrite <- startswith_occurs. congruence.
  - cbn [rfind_from]. destruct (IH (i + 1)) as [[-> Hno]|(j & Hj & -> & Hocc & Hlast)]; [lia|..].
    + simpl. destruct (startswith (c :: s) sub) eqn:E.
      * right. exists 0%nat. split_and!; [simpl; lia | lia | by apply startswith_occurs |].
        intros [|j'] Hj'; [lia|]. rewrite occurs_at_cons. apply Hno. simpl in Hj'. lia.
      * left. split; [done|]. intros [|j] Hj.
        -- rewrite <- startswith_occurs. congruence.
        -- rewrite occurs_at_cons. apply Hno. simpl in Hj. lia.
    + destruct (Z.eqb_spec (i + 1 + Z.of_nat j) (-1)); [lia|].
      right. exists (S j). split_and!; [simpl; lia | lia | done |].
      intros [|j'] Hj'; [lia|]. rewrite occurs_at_cons. apply Hlast. simpl in Hj'. lia.
Qed.

(** [rfind] returns the index of the last place where [sub] is found. *)
Lemma rfind_last pre sub post :
  (∀ j, (length pre < j)%nat → ¬ occurs_at (pre ++ sub ++ post) sub j) →
  rfind (pre ++ sub ++ post) sub = len pre.
Proof.
  intros Hlast. unfold rfind.
  pose proof (occurs_at_app pre sub post) as Hocc.
  assert (length pre <= length (pre ++ sub ++ post))%nat by (rewrite length_app; lia).
  destruct (rfind_from_spec (pre ++ sub ++ post) sub 0) as [[_ Hno]|(j & Hj & -> & Hj' & Hl)];
    [lia | by destruct (Hno (length pre)) |].
  destruct (Nat.lt_trichotomy j (length pre)) as [Hlt|[->|Hgt]].
  - destruct (Hl (length pre)); [lia | done].
  - unfold len. lia.
  - by destruct (Hlast j).
Qed.

Lemma rfind_none s sub :
  (∀ j, ¬ occurs_at s sub j) → rfind s sub = -1.
Proof.
  intros Hno. unfold rfind.
  destruct (rfind_from_spec s sub 0) as [[? _]|(j & _ & _ & Hj & _)]; [lia | done |].
  by destruct (Hno j).
Qed.

(** ** Upper case *)

Lemma code_inj c d : code c = code d → c = d.
Proof.
  unfold code. intros H%(inj Z.of_N).
  by rewrite <- (ascii_N_embedding c), <- (ascii_N_embedding d), H.
Qed.

Lemma upper_hex_range d :
  is_upper_hex d = true → 48 <= code d <= 57 ∨ 65 <= code d <= 70.
Proof.
  unfold is_upper_hex, is_digit.
  rewrite orb_true_iff, !andb_true_iff, !Z.leb_le. tauto.
Qed.

Lemma upper_char_hex c d rest rest' :
  is_upper_hex d = true →
  upper_char c ++ rest = N_of_ascii d :: rest' ↔ same_hex c d ∧ rest = rest'.
Proof.
  intros Hd%upper_hex_range. pose proof (code_range c) as Hc.
  assert (Hn : ∀ z, 0 <= z → Z.to_N z = N_of_ascii d ↔ z = code d).
  { intros z Hz. unfold code. split; [intros <-|intros ->].
    - by rewrite Z2N.id. - by rewrite N2Z.id. }
  assert (H83 : N_of_ascii d = 83%N → code d = 83) by (unfold code; by intros ->).
  assert (H924 : N_of_ascii d = 924%N → code d = 924) by (unfold code; by intros ->).
  assert (H376 : N_of_ascii d = 376%N → code d = 376) by (unfold code; by intros ->).
  unfold upper_char, same_hex.
  repeat match goal with
         | |- context [?a <=? ?b] => destruct (Z.leb_spec a b)
         | |- context [?a =? ?b] => destruct (Z.eqb_spec a b)
         end; cbn [andb negb app]; (split; [intros [= E <-]|intros [[E|E] <-]]);
    try (apply Hn in E; [|lia]);
    try apply H83 in E; try apply H924 in E; try apply H376 in E;
    try (subst c; exfalso; lia);
    try (exfalso; lia);
    try (split; [|done]);
    try (left; apply code_inj; lia);
    try (right; lia);
    try (f_equal; apply Hn; lia);
    try (subst c; f_equal; apply Hn; lia).
Qed.

Lemma upper_same_hex s h :
  Forall (λ d, is_upper_hex d = true) h →
  upper s = codepoints h ↔ Forall2 same_hex s h.
Proof.
  intros Hh. revert s. induction Hh as [|d h Hd _ IH]; intros s.
  - destruct s as [|c s]; [by split; [constructor|]|].
    split; [|by intros ?%Forall2_nil_inv_r].
    unfold upper. rewrite bind_cons. unfold upper_char.
    repeat case_match; discriminate.
  - destruct s as [|c s]; [by split; [|intros ?%Forall2_nil_inv_l]|].
    unfold upper in *. rewrite bind_cons. unfold codepoints in *.
    rewrite fmap_cons, upper_char_hex by done.
    rewrite Forall2_cons, IH. done.
Qed.

(** ** [validate_qris] *)

Lemma checksum_hex data :
  length (QRISEditor._calculate_checksum data) = 4%nat ∧
  Forall (λ c, is_upper_hex c = true) (QRISEditor._calculate_checksum data).
Proof.
  unfold QRISEditor._calculate_checksum.
  rewrite checksum_reference by apply encode_bytes.
  apply format_04X_hex, crc_range.
Qed.

(** The checks of [validate_qris] after the prefix test, with the string
    cut at the last checksum header. *)
Lemma validate_at_last_header pre post :
  let data := pre ++ lit "6304" ++ post in
  50 <= len data → startswith data (lit "000201") = true →
  (∀ j, (length pre < j)%nat → ¬ occurs_at data (lit "6304") j) →
  QRCodeHandler.validate_qris data =
  if len post <? 4 then (false, QRCodeHandler.bad_checksum_format)
  else
    let expected := QRISEditor._calculate_checksum (pre ++ lit "6304") in
    let got := upper (take 4 post) in
    if bool_decide (got = codepoints expected) then
      if contains data (lit "59") then (true, QRCodeHandler.valid)
      else (false, QRCodeHandler.no_merchant_name)
    else (false, QRCodeHandler.checksum_mismatch expected got).
Proof.
  intros data Hlen Hpre Hlast. unfold QRCodeHandler.validate_qris.
  destruct (Z.ltb_spec (len data) 50); [lia|]. rewrite Hpre. cbn [negb].
  assert (contains data (lit "6304") = true) as ->.
  { apply contains_occurs. eexists. apply occurs_at_app. }
  cbn [negb]. subst data. rewrite (rfind_last _ _ _ Hlast).
  pose proof (len_nonneg pre). pose proof (len_nonneg post).
  destruct (Z.eqb_spec (len pre) (-1)); [lia|]. cbn [orb].
  rewrite !len_app. change (len (lit "6304")) with 4.
  destruct (Z.ltb_spec (len pre + (4 + len post)) (len pre + 8));
    destruct (Z.ltb_spec (len post) 4); try lia; [done|].
  assert (slice (pre ++ lit "6304" ++ post) 0 (len pre + 4) = pre ++ lit "6304") as ->.
  { rewrite app_assoc. apply slice_prefix. by rewrite len_app. }
  assert (slice (pre ++ lit "6304" ++ post) (len pre + 4) (len pre + 8) = take 4 post) as ->.
  { rewrite <- (take_drop 4 post) at 1. rewrite !app_assoc, <- (app_assoc _ (take 4 post)).
    apply slice_at; rewrite !len_app; change (len (lit "6304")) with 4; [done|].
    unfold len in *. rewrite length_take. lia. }
  change (format_04X (Crc.checksum Crc.IBM_3740 (encode (pre ++ lit "6304"))))
    with (QRISEditor._calculate_checksum (pre ++ lit "6304")).
  cbv zeta. case_bool_decide; cbn [negb]; [|done]. by destruct (contains _ (lit "59")).
Qed.

(** ** [validate_qris] on any Python string *)


















(** ** Reading a well-formed payload *)

Lemma read_field_serialized pre tag value rest :
  length tag = 2%nat → 0 <= len value <= 99 →
  read_field (pre ++ (tag ++ format_02d (len value) ++ value) ++ rest) (len pre) =
  Some (Payload.field_of (tag, value)).
Proof.
  intros Ht Hv.
  assert (Hf : length (format_02d (len value)) = 2%nat) by (apply format_02d_length; lia).
  assert (Hlt : len tag = 2) by (unfold len; lia).
  assert (Hlf : len (format_02d (len value)) = 2).
  { change (Z.of_nat (length (format_02d (len value))) = 2). lia. }
  pose proof (len_nonneg pre). pose proof (len_nonneg rest).
  unfold read_field. rewrite !len_app, Hlt, Hlf.
  destruct (Z.ltb_spec (len pre) (len pre + (2 + (2 + len value) + len rest))); [|lia].
  rewrite Z.gtb_ltb.
  destruct (Z.ltb_spec (len pre + (2 + (2 + len value) + len rest)) (len pre + 4)); [lia|].
  assert (slice (pre ++ (tag ++ format_02d (len value) ++ value) ++ rest)
            (len pre) (len pre + 2) = tag) as ->.
  { rewrite <- !app_assoc. apply slice_at; lia. }
  assert (slice (pre ++ (tag ++ format_02d (len value) ++ value) ++ rest)
            (len pre + 2) (len pre + 4) = format_02d (len value)) as ->.
  { rewrite <- !app_assoc, (app_assoc pre tag). apply slice_at; rewrite ?len_app; lia. }
  rewrite py_int_format_02d by done. simpl.
  assert (slice (pre ++ (tag ++ format_02d (len value) ++ value) ++ rest)
            (len pre + 4) (len pre + 4 + len value) = value) as ->.
  { rewrite <- !app_assoc, (app_assoc pre tag), (app_assoc (pre ++ tag)).
    apply slice_at; rewrite ?len_app; lia. }
  reflexivity.
Qed.

Lemma read_field_checksum pre cs :
  length cs = 4%nat →
  read_field (pre ++ lit "6304" ++ cs) (len pre) = Some (Payload.checksum_field cs).
Proof.
  intros Hc. assert (len cs = 4) by (unfold len; lia).
  pose proof (len_nonneg pre).
  unfold read_field. rewrite !len_app. change (len (lit "6304")) with 4.
  destruct (Z.ltb_spec (len pre) (len pre + (4 + len cs))); [|lia].
  rewrite Z.gtb_ltb.
  destruct (Z.ltb_spec (len pre + (4 + len cs)) (len pre + 4)); [lia|].
  assert (slice (pre ++ lit "6304" ++ cs) (len pre) (len pre + 2) = lit "63") as ->.
  { change (lit "6304" ++ cs) with (lit "63" ++ lit "04" ++ cs). by apply slice_at. }
  assert (slice (pre ++ lit "6304" ++ cs) (len pre + 2) (len pre + 4) = lit "04") as ->.
  { change (lit "6304" ++ cs) with (lit "63" ++ lit "04" ++ cs).
    rewrite (app_assoc pre).
    apply slice_at; rewrite ?len_app; change (len (lit "63")) with 2;
      change (len (lit "04")) with 2; lia. }
  change (py_int (lit "04")) with (Some 4). cbn [mbind option_bind].
  assert (slice (pre ++ lit "6304" ++ cs) (len pre + 4) (len pre + 4 + 4) = cs) as ->.
  { rewrite app_assoc, <- (app_nil_r cs) at 1.
    apply slice_at; rewrite ?len_app; change (len (lit "6304")) with 4; lia. }
  reflexivity.
Qed.

Lemma read_field_end data : read_field data (len data) = None.
Proof. unfold read_field. by destruct (Z.ltb_spec (len data) (len data)); [lia|]. Qed.

Lemma well_formed_length f : Payload.well_formed f → 0 <= len f.2 <= 99.
Proof.
  intros (_ & _ & H). pose proof (len_nonneg f.2). pose proof (max_len_le f.1). lia.
Qed.

Lemma serialize_cons f fs :
  Payload.serialize (f :: fs) =
  (f.1 ++ format_02d (len f.2) ++ f.2) ++ Payload.serialize fs.
Proof. unfold Payload.serialize. rewrite bind_cons. by destruct f. Qed.

(** The cursor loop reads back the fields of a well-formed payload, then
    the checksum field, and stops at the end. *)
Lemma scan_payload pre fs cs :
  Forall Payload.well_formed fs → length cs = 4%nat →
  scan (S (S (length fs))) (pre ++ Payload.payload fs cs) (len pre) =
  Some ((Payload.field_of <$> fs) ++ [Payload.checksum_field cs]).
Proof.
  intros Hfs Hcs. revert pre.
  induction Hfs as [|f fs Hf _ IH]; intros pre.
  - change (Payload.payload [] cs) with (lit "6304" ++ cs).
    change (@fmap list _ _ _ Payload.field_of []) with (@nil Field.t).
    cbn [scan app]. rewrite read_field_checksum by done. unfold next_pos. simpl Field.length.
    assert (len pre + 4 + 4 = len (pre ++ lit "6304" ++ cs)) as ->.
    { rewrite !len_app. unfold len. rewrite Hcs. simpl. lia. }
    by rewrite read_field_end.
  - unfold Payload.payload in *. rewrite serialize_cons. cbn [length].
    rewrite scan_S.
    destruct f as [tag value]. simpl fst. simpl snd.
    rewrite <- (app_assoc _ (Payload.serialize fs)).
    pose proof (well_formed_length _ Hf) as Hv. destruct Hf as (Ht & _).
    cbn [fst snd] in Ht, Hv.
    rewrite read_field_serialized by done.
    unfold next_pos. cbn [Payload.field_of Field.length snd fst].
    assert (len pre + 4 + len value
            = len (pre ++ tag ++ format_02d (len value) ++ value)) as ->.
    { rewrite !len_app.
      pose proof (format_02d_length (len value)) as Hl.
      change (len tag) with (Z.of_nat (length tag)).
      change (len (format_02d (len value)))
        with (Z.of_nat (length (format_02d (len value)))).
      rewrite Ht, Hl by lia. lia. }
    specialize (IH (pre ++ tag ++ format_02d (len value) ++ value)).
    replace (pre ++ (tag ++ format_02d (len value) ++ value)
               ++ Payload.serialize fs ++ lit "6304" ++ cs)
      with ((pre ++ tag ++ format_02d (len value) ++ value)
              ++ Payload.serialize fs ++ lit "6304" ++ cs)
      by (by repeat rewrite <- app_assoc).
    rewrite IH. reflexivity.
Qed.

(** ** [strip] *)

Lemma strip_id s c z :
  head s = Some c → last s = Some z →
  is_space c = false → is_space z = false → strip s = s.
Proof.
  intros Hh Hl Hc Hz. unfold strip.
  assert (lstrip s = s) as ->.
  { destruct s as [|c' s]; [done|]. simpl in Hh. injection Hh as ->.
    simpl. by rewrite Hc. }
  apply last_Some in Hl as [s' ->]. unfold rstrip.
  rewrite reverse_snoc. simpl. rewrite Hz.
  by rewrite reverse_cons, reverse_involutive.
Qed.

Lemma same_hex_not_space c d :
  is_upper_hex d = true → same_hex c d → is_space c = false.
Proof.
  intros Hd%upper_hex_range Hs.
  assert (48 <= code c <= 57 ∨ 65 <= code c <= 70 ∨ 97 <= code c <= 102).
  { destruct Hs as [->|[? ?]]; lia. }
  unfold is_space, int_space.
  repeat match goal with
         | |- context [?a <=? ?b] => destruct (Z.leb_spec a b)
         | |- context [?a =? ?b] => destruct (Z.eqb_spec a b)
         end; try reflexivity; lia.
Qed.

(** ** A payload the validator accepts *)

Lemma header_is_last X cs :
  length cs = 4%nat → cs ≠ lit "6304" →
  ∀ j, (length X < j)%nat → ¬ occurs_at (X ++ lit "6304" ++ cs) (lit "6304") j.
Proof.
  intros Hcs Hne j Hj Hocc.
  pose proof (occurs_at_length _ _ _ Hocc) as Hl.
  rewrite !length_app, Hcs in Hl. simpl in Hl. specialize (Hl ltac:(done)).
  destruct cs as [|c1 [|c2 [|c3 [|c4 [|]]]]]; try discriminate Hcs.
  unfold occurs_at in Hocc.
  replace j with (length X + (j - length X))%nat in Hocc by lia.
  rewrite drop_app_add in Hocc.
  destruct (j - length X)%nat as [|[|[|[|[|k]]]]] eqn:E; try lia;
    simpl in Hocc; try discriminate Hocc.
  by destruct Hne.
Qed.

Lemma validate_doubled_header X :
  (QRCodeHandler.validate_qris (X ++ lit "6304" ++ lit "6304")).1 = false.
Proof.
  destruct (Z.lt_ge_cases (len (X ++ lit "6304" ++ lit "6304")) 50) as [Hlt|Hge].
  { unfold QRCodeHandler.validate_qris.
    by destruct (Z.ltb_spec (len (X ++ lit "6304" ++ lit "6304")) 50); [|lia]. }
  destruct (startswith (X ++ lit "6304" ++ lit "6304") (lit "000201")) eqn:Hp.
  - pose proof (validate_at_last_header (X ++ lit "6304") []) as H.
    cbv zeta in H. rewrite app_nil_r, <- app_assoc in H. rewrite H; [done..|].
    intros j Hj Hocc. apply occurs_at_length in Hocc; [|done].
    rewrite !length_app in *. simpl in *. lia.
  - unfold QRCodeHandler.validate_qris.
    destruct (Z.ltb_spec (len (X ++ lit "6304" ++ lit "6304")) 50); [done|].
    by rewrite Hp.
Qed.

(** Acceptance gives the prefix and, for a string that ends with the
    header and four characters, the checksum up to letter case. *)
Lemma validate_accepts_inv X cs :
  length cs = 4%nat →
  (QRCodeHandler.validate_qris (X ++ lit "6304" ++ cs)).1 = true →
  startswith (X ++ lit "6304" ++ cs) (lit "000201") = true ∧
  upper cs = codepoints (QRISEditor._calculate_checksum (X ++ lit "6304")).
Proof.
  intros Hcs Hv.
  destruct (decide (cs = lit "6304")) as [->|Hne].
  { by rewrite validate_doubled_header in Hv. }
  assert (50 <= len (X ++ lit "6304" ++ cs)) as Hlen.
  { destruct (Z.lt_ge_cases (len (X ++ lit "6304" ++ cs)) 50); [|done].
    unfold QRCodeHandler.validate_qris in Hv.
    by destruct (Z.ltb_spec (len (X ++ lit "6304" ++ cs)) 50); [|lia]. }
  assert (startswith (X ++ lit "6304" ++ cs) (lit "000201") = true) as Hp.
  { destruct (startswith _ (lit "000201")) eqn:Hp; [done|].
    unfold QRCodeHandler.validate_qris in Hv. rewrite Hp in Hv.
    by destruct (Z.ltb_spec (len (X ++ lit "6304" ++ cs)) 50). }
  split; [done|].
  pose proof (validate_at_last_header X cs Hlen Hp (header_is_last X cs Hcs Hne)) as H.
  cbv zeta in H. assert (len cs = 4) by (unfold len; lia).
  destruct (Z.ltb_spec (len cs) 4); [lia|].
  rewrite take_ge in H by lia.
  case_bool_decide as Hu; [done|].
  by rewrite H in Hv.
Qed.

(** ** [build] on a well-formed payload *)

Lemma kept_payload fs cs :
  Forall Payload.well_formed fs →
  Edit.kept ((Payload.field_of <$> fs) ++ [Payload.checksum_field cs])
  = Payload.field_of <$> fs.
Proof.
  intros Hfs. unfold Edit.kept. rewrite filter_app.
  rewrite filter_cons_False by (simpl; by intros []).
  rewrite filter_nil, app_nil_r.
  induction Hfs as [|f fs (_ & Hf & _) _ IH]; [done|].
  rewrite fmap_cons, filter_cons_True by done. by rewrite IH.
Qed.

Lemma pieces_payload fs :
  concat (Edit.piece ∅ <$> (Payload.field_of <$> fs)) = Payload.serialize fs.
Proof.
  induction fs as [|[tag value] fs IH]; [done|].
  rewrite !fmap_cons, serialize_cons. simpl. rewrite IH.
  unfold Edit.piece, Edit.length_after, Edit.value_after. simpl.
  rewrite lookup_empty. simpl. by rewrite <- !app_assoc.
Qed.

Lemma first_too_long_payload fs cs :
  Forall Payload.well_formed fs →
  Edit.first_too_long ∅ ((Payload.field_of <$> fs) ++ [Payload.checksum_field cs]) = None.
Proof.
  intros Hfs. unfold Edit.first_too_long. rewrite kept_payload by done.
  induction Hfs as [|f fs (_ & _ & Hf) _ IH]; [done|].
  rewrite fmap_cons. simpl. rewrite IH.
  unfold Edit.too_long, Edit.length_after. simpl. rewrite lookup_empty.
  rewrite Z.gtb_ltb. by destruct (Z.ltb_spec (QRISEditor.max_len f.1) (len f.2)); [lia|].
Qed.

Lemma build_payload fs cs parser :
  Forall Payload.well_formed fs → length cs = 4%nat →
  QRISEditor.build (S (S (length fs)))
    {| QRISEditor.raw := Payload.payload fs cs; QRISEditor.parser := parser;
       QRISEditor.modifications := ∅ |}
  = Returned (Payload.payload fs
                (QRISEditor._calculate_checksum (Payload.serialize fs ++ lit "6304"))).
Proof.
  intros Hfs Hcs. unfold QRISEditor.build.
  cbn [QRISEditor.raw QRISEditor.modifications].
  pose proof (scan_payload [] fs cs Hfs Hcs) as Hs.
  rewrite app_nil_l in Hs. change (len []) with 0 in Hs.
  assert (QRISEditor.build_loop (S (S (length fs))) (Payload.payload fs cs) ∅ 0 []
          = Returned (Edit.piece ∅ <$> (Payload.field_of <$> fs))) as ->.
  { apply build_loop_returned. eexists. split_and!; [exact Hs | |].
    - by apply first_too_long_payload.
    - by rewrite kept_payload. }
  rewrite pieces_payload.
  unfold Payload.payload. by rewrite <- app_assoc.
Qed.

Lemma init_inv fuel s self :
  QRISEditor.init fuel s = Some self →
  QRISEditor.raw self = strip s ∧ QRISEditor.modifications self = ∅.
Proof.
  unfold QRISEditor.init. destruct (QRISParser.init fuel (strip s)); [|done].
  simpl. by intros [= <-].
Qed.

(** ** The round trip *)

(** C1, as the code has it.  Take a payload that is the serialization of
    fields within the limits of their tags (two-character tags other than
    "63"), followed by the checksum header "6304" and four characters, and
    that the validator accepts.  Then an editor is created for it, and
    [build] without overrides returns the same fields in the same order
    followed by "6304" and the checksum in upper case: the output differs
    from the payload at most in the letter case of the checksum, and is the
    payload itself when its checksum is written as the engine writes it. *)
Theorem build_reproduces_well_formed fs cs :
  Forall Payload.well_formed fs → length cs = 4%nat →
  let raw := Payload.payload fs cs in
  let checksum := QRISEditor._calculate_checksum (Payload.serialize fs ++ lit "6304") in
  let fuel := S (S (length fs)) in
  (QRCodeHandler.validate_qris raw).1 = true →
  ∃ self,
    QRISEditor.init fuel raw = Some self
    ∧ QRISEditor.modifications self = ∅
    ∧ QRISEditor.build fuel self = Returned (Payload.payload fs checksum)
    ∧ scan fuel raw 0 = Some ((Payload.field_of <$> fs) ++ [Payload.checksum_field cs])
    ∧ scan fuel (Payload.payload fs checksum) 0
      = Some ((Payload.field_of <$> fs) ++ [Payload.checksum_field checksum])
    ∧ codepoints checksum = upper cs
    ∧ (cs = checksum → QRISEditor.build fuel self = Returned raw).
Proof.
  intros Hfs Hcs raw checksum fuel Hv.
  destruct (validate_accepts_inv (Payload.serialize fs) cs Hcs Hv) as [Hp Hu].
  fold raw in Hp. fold checksum in Hu.
  pose proof (checksum_hex (Payload.serialize fs ++ lit "6304")) as [Hl Hh].
  fold checksum in Hl, Hh.
  assert (Hstrip : strip raw = raw).
  { apply startswith_app in Hp as [r Hr].
    destruct cs as [|c1 [|c2 [|c3 [|c4 [|]]]]]; try discriminate Hcs.
    apply upper_same_hex in Hu; [|done].
    destruct checksum as [|d1 [|d2 [|d3 [|d4 [|]]]]]; try discriminate Hl.
    apply Forall2_cons in Hu as [_ Hu]. apply Forall2_cons in Hu as [_ Hu].
    apply Forall2_cons in Hu as [_ Hu]. apply Forall2_cons in Hu as [H4 _].
    apply (strip_id raw "0"%char c4).
    - unfold raw, Payload.payload. by rewrite Hr.
    - unfold raw, Payload.payload.
      change (lit "6304" ++ [c1; c2; c3; c4]) with ((lit "6304" ++ [c1; c2; c3]) ++ [c4]).
      by rewrite app_assoc, last_snoc.
    - done.
    - eapply same_hex_not_space; [|exact H4].
      by repeat (apply Forall_cons in Hh as [? Hh]). }
  pose proof (scan_payload [] fs cs Hfs Hcs) as Hs.
  rewrite app_nil_l in Hs. change (len []) with 0 in Hs. fold raw fuel in Hs.
  pose proof (scan_payload [] fs checksum Hfs Hl) as Hs'.
  rewrite app_nil_l in Hs'. change (len []) with 0 in Hs'. fold fuel in Hs'.
  assert (Hb : ∀ parser,
             QRISEditor.build fuel
               {| QRISEditor.raw := raw; QRISEditor.parser := parser;
                  QRISEditor.modifications := ∅ |}
             = Returned (Payload.payload fs checksum)).
  { intros parser. by apply build_payload. }
  eexists. split_and!.
  - unfold QRISEditor.init, QRISParser.init.
    rewrite !Hstrip, _parse_scan, Hs. reflexivity.
  - done.
  - apply Hb.
  - done.
  - done.
  - done.
  - intros ->. apply Hb.
Qed.

(** ** The claims on sample payloads *)

Lemma build_returned_inv fuel self out :
  QRISEditor.build fuel self = Returned out →
  ∃ fs, scan fuel (QRISEditor.raw self) 0 = Some fs ∧
        Edit.first_too_long (QRISEditor.modifications self) fs = None ∧
        out = concat (Edit.piece (QRISEditor.modifications self) <$> Edit.kept fs)
              ++ lit "6304"
              ++ QRISEditor._calculate_checksum
                   (concat (Edit.piece (QRISEditor.modifications self) <$> Edit.kept fs)
                    ++ lit "6304").
Proof.
  unfold QRISEditor.build.
  destruct (QRISEditor.build_loop _ _ _ _ _) as [| |r] eqn:E; try discriminate.
  apply build_loop_returned in E as (fs & Hs & Hf & ->).
  intros [= <-]. exists fs. by rewrite <- app_assoc.
Qed.

Lemma scan_lower_case :
  scan 7 (strip Sample.lower_case) 0 =
  Some ((Payload.field_of <$> Sample.fields) ++ [Payload.checksum_field (lit "da08")]).
Proof. vm_compute. reflexivity. Qed.

Lemma scan_long_name :
  scan 6 (strip Sample.long_name) 0 =
  Some ((Payload.field_of <$>
           [(lit "00", lit "01"); (lit "01", lit "11"); (lit "59", Sample.name26);
            (lit "60", lit "JAKARTA")])
        ++ [Payload.checksum_field (lit "B6FE")]).
Proof. vm_compute. reflexivity. Qed.

(** The validator accepts a payload whose checksum is in small letters,
    and one whose merchant name is too long; [build] without overrides
    returns the first with the checksum in capitals, so not the payload
    itself, and returns nothing for the second. *)
Lemma round_trip_counterexample :
  ((QRCodeHandler.validate_qris Sample.lower_case).1 = true
   ∧ (∀ parser,
        QRISEditor.build 7
          {| QRISEditor.raw := strip Sample.lower_case; QRISEditor.parser := parser;
             QRISEditor.modifications := ∅ |} = Returned Sample.upper_case)
   ∧ ∀ fuel self, QRISEditor.init fuel Sample.lower_case = Some self →
                  QRISEditor.build fuel self ≠ Returned Sample.lower_case)
  ∧ ((QRCodeHandler.validate_qris Sample.long_name).1 = true
     ∧ (∀ parser,
          QRISEditor.build 6
            {| QRISEditor.raw := strip Sample.long_name; QRISEditor.parser := parser;
               QRISEditor.modifications := ∅ |} =
          Raised (ValueError (lit "Tag 59 value terlalu panjang (26 karakter, max 25)")))
     ∧ ∀ fuel self out, QRISEditor.init fuel Sample.long_name = Some self →
                        QRISEditor.build fuel self ≠ Returned out).
Proof.
  split; split_and!.
  - vm_compute. reflexivity.
  - intros parser. vm_compute. reflexivity.
  - intros fuel self Hi Hb. apply init_inv in Hi as [Hr Hm].
    apply build_returned_inv in Hb as (fs & Hs & _ & Hout).
    rewrite Hr, Hm in *.
    pose proof (scan_det _ _ _ _ _ _ Hs scan_lower_case) as ->.
    revert Hout. vm_compute. discriminate.
  - vm_compute. reflexivity.
  - intros parser. vm_compute. reflexivity.
  - intros fuel self out Hi Hb. apply init_inv in Hi as [Hr Hm].
    apply build_returned_inv in Hb as (fs & Hs & Hf & _).
    rewrite Hr, Hm in *.
    pose proof (scan_det _ _ _ _ _ _ Hs scan_long_name) as ->.
    revert Hf. vm_compute. discriminate.
Qed.

(** A sample run: the sample payload with
    its checksum in capitals comes back unchanged. *)
Lemma build_reproduces_well_formed_witness :
  Forall Payload.well_formed Sample.fields ∧ length (lit "DA08") = 4%nat
  ∧ (QRCodeHandler.validate_qris (Payload.payload Sample.fields (lit "DA08"))).1 = true
  ∧ ∃ self, QRISEditor.init 7 Sample.upper_case = Some self
            ∧ QRISEditor.build 7 self = Returned Sample.upper_case.
Proof.
  assert (Hfs : Forall Payload.well_formed Sample.fields).
  { repeat constructor; vm_compute; congruence. }
  assert (Hcs : length (lit "DA08") = 4%nat) by reflexivity.
  assert (Hv : (QRCodeHandler.validate_qris
                  (Payload.payload Sample.fields (lit "DA08"))).1 = true).
  { vm_compute. reflexivity. }
  split_and!; [done..|].
  destruct (build_reproduces_well_formed Sample.fields (lit "DA08") Hfs Hcs Hv)
    as (self & Hi & _ & _ & _ & _ & _ & Hb).
  exists self. split; [exact Hi|]. apply Hb. vm_compute. reflexivity.
Defined.



(** A sample run: the payload whose merchant
    name has 26 characters. *)
Lemma build_checks_original_fields_witness :
  Payload.field_of (lit "59", Sample.name26) ∈ scan_prefix 3 Sample.long_name 0
  ∧ ∃ g, g ∈ scan_prefix 3 Sample.long_name 0 ∧
         Field.length g > QRISEditor.max_len (Field.tag g) ∧
         QRISEditor.build 3 (Edit.session Sample.long_name Sample.empty []) =
         Raised (QRISEditor.too_long (Field.tag g) (Field.length g)
                   (QRISEditor.max_len (Field.tag g))).
Proof.
  assert (Hin : Payload.field_of (lit "59", Sample.name26)
                ∈ scan_prefix 3 Sample.long_name 0).
  { vm_compute. do 2 (apply elem_of_cons; right). apply elem_of_cons. by left. }
  split; [exact Hin|].
  apply (build_checks_original_fields Sample.long_name Sample.empty 3 _ Hin).
  left. split; [reflexivity | vm_compute; reflexivity].
Defined.

(** A sample run: the sample payload built
    without overrides and with a new merchant name. *)
Lemma build_cursor_ignores_overrides_witness :
  let mods : gmap str str := {[lit "59" := lit "Toko Baru"]} in
  let fs := Payload.field_of <$> Sample.fields in
  QRISEditor.build_loop 7 Sample.upper_case ∅ 0 [] = Returned (Edit.piece ∅ <$> fs)
  ∧ QRISEditor.build_loop 7 Sample.upper_case mods 0 [] = Returned (Edit.piece mods <$> fs)
  ∧ ∃ fs', scan 7 Sample.upper_case 0 = Some fs' ∧
           Edit.piece ∅ <$> fs = Edit.piece ∅ <$> Edit.kept fs' ∧
           Edit.piece mods <$> fs = Edit.piece mods <$> Edit.kept fs'.
Proof.
  intros mods fs.
  assert (H1 : QRISEditor.build_loop 7 Sample.upper_case ∅ 0 []
               = Returned (Edit.piece ∅ <$> fs)) by (vm_compute; reflexivity).
  assert (H2 : QRISEditor.build_loop 7 Sample.upper_case mods 0 []
               = Returned (Edit.piece mods <$> fs)) by (vm_compute; reflexivity).
  split_and!; [exact H1 | exact H2 |].
  destruct (build_cursor_ignores_overrides Sample.upper_case ∅ mods) as [_ H].
  destruct (H 7%nat 7%nat _ _ H1 H2) as (fs' & Hs & E1 & E2 & _).
  exists fs'. split_and!; [exact Hs | exact E1 | exact E2].
Defined.

(** A sample run: three characters are trailing garbage;
    a field with a two-digit length is stored and the cursor moves on. *)
Lemma parse_loop_turn_witness :
  (len (lit "abc") - 0 < 4 ∧ QRISParser._parse 1 (lit "abc") 0 ∅ = Some ∅)
  ∧ (4 <= len (lit "5903ABC") - 0
     ∧ py_int (slice (lit "5903ABC") (0 + 2) (0 + 4)) = Some 3
     ∧ QRISParser._parse 2 (lit "5903ABC") 0 ∅ =
       QRISParser._parse 1 (lit "5903ABC") (0 + 4 + 3)
         (<[lit "59" := {| Entry.tag := lit "59"; Entry.name := lit "Merchant Name";
                           Entry.length := 3; Entry.value := lit "ABC" |}]> ∅)).
Proof.
  assert (H1 : len (lit "abc") - 0 < 4) by (vm_compute; reflexivity).
  assert (H2 : 4 <= len (lit "5903ABC") - 0) by (vm_compute; discriminate).
  assert (H3 : py_int (slice (lit "5903ABC") (0 + 2) (0 + 4)) = Some 3)
    by (vm_compute; reflexivity).
  split; split_and!; [exact H1 | | exact H2 | exact H3 |].
  - exact (proj1 (parse_loop_turn 0 (lit "abc") 0 ∅) H1).
  - destruct (parse_loop_turn 1 (lit "5903ABC") 0 ∅) as (_ & _ & _ & H).
    exact (proj1 (H 3 H2 H3)).
Defined.



(** A sample run: the example of the specification. *)
Lemma acquiring_id_first_01_witness :
  let f := {| Field.tag := lit "01"; Field.length := 15;
              Field.value := lit "ID1020017612345" |} in
  QRISParser.data Sample.account !! lit "51" = None
  ∧ first_with (lit "01")
      (scan_prefix 1
         (from_option Entry.value [] (QRISParser.data Sample.account !! lit "26")) 0)
    = Some f
  ∧ QRISParser.acquiring_id 1 Sample.account = Some (lit "ID102001").
Proof.
  intros f.
  assert (H1 : QRISParser.data Sample.account !! lit "51" = None)
    by (vm_compute; reflexivity).
  assert (H2 : first_with (lit "01")
                 (scan_prefix 1
                    (from_option Entry.value []
                       (QRISParser.data Sample.account !! lit "26")) 0) = Some f)
    by (vm_compute; reflexivity).
  split_and!; [exact H1 | exact H2 |].
  pose proof (acquiring_id_first_01 Sample.account) as T.
  cbv zeta in T. destruct T as (_ & _ & _ & H & _).
  exact (H 1%nat f H1 H2 eq_refl).
Defined.

(** A sub-tag that occurs twice inside a composite value: the accessor
    returns the first occurrence, for any budget that lets it return, and
    never the later one. *)
Lemma nested_duplicate_counterexample :
  let value := lit "0103AAA0103BBB" in
  let first := {| Field.tag := lit "01"; Field.length := 3; Field.value := lit "AAA" |} in
  let later := {| Field.tag := lit "01"; Field.length := 3; Field.value := lit "BBB" |} in
  ∃ self, QRISParser.init 2 Sample.twice_01 = Some self
    ∧ QRISParser.get_value self (lit "26") = value
    ∧ scan 3 value 0 = Some [first; later]
    ∧ last_with (lit "01") [first; later] = Some later
    ∧ QRISParser.acquiring_id 1 self = Some (lit "AAA")
    ∧ ∀ fuel, QRISParser.acquiring_id fuel self ≠ Some (lit "BBB").
Proof.
  intros value first later.
  exists {| QRISParser.raw := Sample.twice_01;
            QRISParser.data :=
              store ∅ [{| Field.tag := lit "26"; Field.length := 14;
                          Field.value := value |}] |}.
  split_and!; [vm_compute; reflexivity..|].
  intros [|fuel]; [discriminate|]. vm_compute. discriminate.
Qed.

(** A sample run: a tag read twice at the top
    level keeps its later value. *)
Lemma parse_last_write_wins_witness :
  let first := {| Field.tag := lit "59"; Field.length := 2; Field.value := lit "AB" |} in
  let later := {| Field.tag := lit "59"; Field.length := 3; Field.value := lit "XYZ" |} in
  let city := {| Field.tag := lit "60"; Field.length := 1; Field.value := lit "J" |} in
  scan 4 (lit "5902AB5903XYZ6001J") 0 = Some [first; later; city]
  ∧ ∃ d, QRISParser._parse 4 (lit "5902AB5903XYZ6001J") 0 ∅ = Some d
         ∧ d !! lit "59" = Some (entry_of later)
         ∧ d !! lit "60" = Some (entry_of city).
Proof.
  intros first later city.
  assert (Hs : scan 4 (lit "5902AB5903XYZ6001J") 0 = Some [first; later; city])
    by (vm_compute; reflexivity).
  split; [exact Hs|].
  destruct (parse_last_write_wins (lit "5902AB5903XYZ6001J") 4) as (H & _).
  destruct (H _ Hs) as (d & Hd & Hl).
  exists d. split_and!; [exact Hd | rewrite Hl; reflexivity | rewrite Hl; reflexivity].
Defined.

(** The summary of the empty document: all ten labels are there, each
    with an empty value; no item is left out. *)
Lemma get_info_counterexample :
  QRISParser.init 1 [] = Some Sample.empty
  ∧ QRISParser.get_info 1 Sample.empty =
    Some [(lit "Merchant Name", []); (lit "Merchant City", []); (lit "NMID", []);
          (lit "Terminal ID", []); (lit "Acquiring ID", []); (lit "Country Code", []);
          (lit "Postal Code", []); (lit "Merchant Category", []); (lit "Currency", []);
          (lit "Checksum", [])]
  ∧ ∀ fuel info, QRISParser.get_info fuel Sample.empty = Some info →
                 length info = 10%nat ∧ Forall (λ kv, kv.2 = []) info.
Proof.
  split_and!; [vm_compute; reflexivity..|].
  intros [|fuel] info; [discriminate|]. vm_compute. intros [= <-].
  split; [reflexivity | repeat constructor].
Qed.

(** A sample run: the empty document. *)
Lemma get_info_all_labels_witness :
  QRISParser.nmid 1 Sample.empty = Some []
  ∧ QRISParser.terminal_id 1 Sample.empty = Some []
  ∧ QRISParser.acquiring_id 1 Sample.empty = Some []
  ∧ (info ← QRISParser.get_info 1 Sample.empty; Some (length info)) = Some 10%nat
  ∧ (lines ← QRISParser.display_info 1 Sample.empty; Some (length lines)) = Some 7%nat.
Proof.
  assert (H1 : QRISParser.nmid 1 Sample.empty = Some []) by reflexivity.
  assert (H2 : QRISParser.terminal_id 1 Sample.empty = Some []) by reflexivity.
  assert (H3 : QRISParser.acquiring_id 1 Sample.empty = Some []) by reflexivity.
  split_and!; [exact H1 | exact H2 | exact H3 | |].
  - destruct (get_info_all_labels 1 Sample.empty [] [] [] H1 H2 H3) as (-> & _ & _).
    reflexivity.
  - destruct (get_info_all_labels 1 Sample.empty [] [] [] H1 H2 H3) as (_ & _ & ->).
    reflexivity.
Defined.

(** * More of the program *)

(** ** The other composite accessors *)

(** X1. [nmid] scans the value of tag "51", or that of tag "26" when "51"
    is absent or its value is empty.  It returns the whole value of the
    first sub-field tagged "02" (it is not cut), and the empty string when
    the loop stops without such a sub-field; it returns when no sub-field
    read has a negative length. *)
Theorem nmid_first_02 (self : QRISParser.t) :
  let v51 := from_option Entry.value [] (QRISParser.data self !! lit "51") in
  let v26 := from_option Entry.value [] (QRISParser.data self !! lit "26") in
  let container := if bool_decide (v51 = []) then v26 else v51 in
  (∀ n f, first_with (lit "02") (scan_prefix n container 0) = Some f →
          QRISParser.nmid n self = Some (Field.value f))
  ∧ (∀ n fs, scan n container 0 = Some fs → first_with (lit "02") fs = None →
             QRISParser.nmid n self = Some [])
  ∧ ((∀ n f, f ∈ scan_prefix n container 0 → 0 <= Field.length f) →
     ∃ r, QRISParser.nmid (S (S (length container))) self = Some r).
Proof.
  intros v51 v26 container.
  assert (Hn : ∀ n, QRISParser.nmid n self = QRISParser.nmid_loop n container 0) by done.
  split_and!.
  - intros n f Hf. by rewrite Hn, nmid_loop_spec, Hf.
  - intros n fs Hs Hf.
    by rewrite Hn, nmid_loop_spec, (scan_prefix_scan _ _ _ _ Hs), Hf, Hs.
  - intros Hnn. destruct (scan_stops container Hnn) as [fs Hs].
    rewrite Hn, nmid_loop_spec, Hs. destruct (first_with _ _); by eexists.
Qed.

(** X2. [terminal_id] scans the value of tag "62" only.  It returns the
    whole value of the first sub-field tagged "07", and the empty string
    when tag "62" is absent or the loop stops without such a sub-field. *)
Theorem terminal_id_first_07 (self : QRISParser.t) :
  let container := from_option Entry.value [] (QRISParser.data self !! lit "62") in
  (∀ n f, first_with (lit "07") (scan_prefix n container 0) = Some f →
          QRISParser.terminal_id n self = Some (Field.value f))
  ∧ (∀ n fs, scan n container 0 = Some fs → first_with (lit "07") fs = None →
             QRISParser.terminal_id n self = Some [])
  ∧ (QRISParser.data self !! lit "62" = None →
     ∀ n, QRISParser.terminal_id (S n) self = Some [])
  ∧ ((∀ n f, f ∈ scan_prefix n container 0 → 0 <= Field.length f) →
     ∃ r, QRISParser.terminal_id (S (S (length container))) self = Some r).
Proof.
  intros container.
  assert (Hn : ∀ n, QRISParser.terminal_id n self
                    = QRISParser.terminal_id_loop n container 0) by done.
  split_and!.
  - intros n f Hf. by rewrite Hn, terminal_id_loop_spec, Hf.
  - intros n fs Hs Hf.
    by rewrite Hn, terminal_id_loop_spec, (scan_prefix_scan _ _ _ _ Hs), Hf, Hs.
  - intros H62 n. rewrite Hn. subst container. rewrite H62. reflexivity.
  - intros Hnn. destruct (scan_stops container Hnn) as [fs Hs].
    rewrite Hn, terminal_id_loop_spec, Hs. destruct (first_with _ _); by eexists.
Qed.

(** ** The setters *)

(** X3. Each of the three setters, called with the empty string, changes
    nothing; called with a non-empty value it stores that value under its
    own tag ("59" for the name, "60" for the city, "61" for the postal
    code) and leaves every other override, the payload and the parser as
    they are; calling the same setter again with a non-empty value replaces
    the earlier override; and setters for different fields can be called in
    either order. *)
Theorem setters_compose (self : QRISEditor.t) (name name' city city' postal postal' : str) :
  (QRISEditor.set_merchant_name self [] = self
   ∧ QRISEditor.set_merchant_city self [] = self
   ∧ QRISEditor.set_postal_code self [] = self)
  ∧ (QRISEditor.raw (QRISEditor.set_merchant_name self name) = QRISEditor.raw self
     ∧ QRISEditor.raw (QRISEditor.set_merchant_city self city) = QRISEditor.raw self
     ∧ QRISEditor.raw (QRISEditor.set_postal_code self postal) = QRISEditor.raw self)
  ∧ (QRISEditor.parser (QRISEditor.set_merchant_name self name) = QRISEditor.parser self
     ∧ QRISEditor.parser (QRISEditor.set_merchant_city self city) = QRISEditor.parser self
     ∧ QRISEditor.parser (QRISEditor.set_postal_code self postal) = QRISEditor.parser self)
  ∧ ((name ≠ [] →
      QRISEditor.modifications (QRISEditor.set_merchant_name self name)
      = <[lit "59" := name]> (QRISEditor.modifications self))
     ∧ (city ≠ [] →
        QRISEditor.modifications (QRISEditor.set_merchant_city self city)
        = <[lit "60" := city]> (QRISEditor.modifications self))
     ∧ (postal ≠ [] →
        QRISEditor.modifications (QRISEditor.set_postal_code self postal)
        = <[lit "61" := postal]> (QRISEditor.modifications self)))
  ∧ ((name ≠ [] →
      QRISEditor.modifications (QRISEditor.set_merchant_name self name) !! lit "59"
      = Some name)
     ∧ (city ≠ [] →
        QRISEditor.modifications (QRISEditor.set_merchant_city self city) !! lit "60"
        = Some city)
     ∧ (postal ≠ [] →
        QRISEditor.modifications (QRISEditor.set_postal_code self postal) !! lit "61"
        = Some postal))
  ∧ ((name' ≠ [] →
      QRISEditor.set_merchant_name (QRISEditor.set_merchant_name self name) name'
      = QRISEditor.set_merchant_name self name')
     ∧ (city' ≠ [] →
        QRISEditor.set_merchant_city (QRISEditor.set_merchant_city self city) city'
        = QRISEditor.set_merchant_city self city')
     ∧ (postal' ≠ [] →
        QRISEditor.set_postal_code (QRISEditor.set_postal_code self postal) postal'
        = QRISEditor.set_postal_code self postal'))
  ∧ (QRISEditor.set_merchant_city (QRISEditor.set_merchant_name self name) city
     = QRISEditor.set_merchant_name (QRISEditor.set_merchant_city self city) name
     ∧ QRISEditor.set_postal_code (QRISEditor.set_merchant_name self name) postal
       = QRISEditor.set_merchant_name (QRISEditor.set_postal_code self postal) name
     ∧ QRISEditor.set_postal_code (QRISEditor.set_merchant_city self city) postal
       = QRISEditor.set_merchant_city (QRISEditor.set_postal_code self postal) city).
Proof.
  destruct self as [raw parser mods].
  unfold QRISEditor.set_merchant_name, QRISEditor.set_merchant_city,
    QRISEditor.set_postal_code, QRISEditor.set_modification.
  split_and!; try reflexivity.
  - by case_bool_decide.
  - by case_bool_decide.
  - by case_bool_decide.
  - by case_bool_decide.
  - by case_bool_decide.
  - by case_bool_decide.
  - intros Hn. by rewrite bool_decide_false by done.
  - intros Hn. by rewrite bool_decide_false by done.
  - intros Hn. by rewrite bool_decide_false by done.
  - intros Hn. rewrite bool_decide_false by done. simpl. apply lookup_insert_eq.
  - intros Hn. rewrite bool_decide_false by done. simpl. apply lookup_insert_eq.
  - intros Hn. rewrite bool_decide_false by done. simpl. apply lookup_insert_eq.
  - intros Hn. rewrite (bool_decide_false (name' = [])) by done.
    case_bool_decide; simpl; [done|]. by rewrite insert_insert_eq.
  - intros Hn. rewrite (bool_decide_false (city' = [])) by done.
    case_bool_decide; simpl; [done|]. by rewrite insert_insert_eq.
  - intros Hn. rewrite (bool_decide_false (postal' = [])) by done.
    case_bool_decide; simpl; [done|]. by rewrite insert_insert_eq.
  - repeat case_bool_decide; simpl; try done. f_equal. by apply insert_insert_ne.
  - repeat case_bool_decide; simpl; try done. f_equal. by apply insert_insert_ne.
  - repeat case_bool_decide; simpl; try done. f_equal. by apply insert_insert_ne.
Qed.

(** ** Loops that stop and loops that do not *)

Lemma scan_field_count k data pos fs :
  scan k data pos = Some fs →
  Forall (λ f, 0 <= Field.length f) fs →
  4 * Z.of_nat (length fs) <= Z.max 0 (len data - pos).
Proof.
  revert pos fs. induction k as [|k IH]; intros pos fs; [discriminate|].
  rewrite scan_S. destruct (read_field data pos) as [f|] eqn:E.
  - destruct (scan k data (next_pos pos f)) as [fs'|] eqn:E'; [|discriminate].
    simpl. intros [= <-] [Hf Hfs]%Forall_cons.
    apply read_field_inv in E as (Hp & _). specialize (IH _ _ E' Hfs).
    unfold next_pos in IH. simpl length. lia.
  - intros [= <-] _. simpl. lia.
Qed.

(** X4. When no length read from the string is negative, the loops stop
    within a number of turns given by the length of the string: [_parse]
    returns a document and [build] returns a payload or raises the length
    error.  The fields read are then at most a quarter of the characters. *)
Theorem loops_stop (self : QRISEditor.t) :
  let raw := QRISEditor.raw self in
  let fuel := S (S (length raw)) in
  (∀ n f, f ∈ scan_prefix n raw 0 → 0 <= Field.length f) →
  (∃ d, QRISParser._parse fuel raw 0 ∅ = Some d)
  ∧ QRISEditor.build fuel self ≠ OutOfFuel
  ∧ ∃ fs, scan fuel raw 0 = Some fs ∧ 4 * Z.of_nat (length fs) <= len raw.
Proof.
  intros raw fuel Hnn. destruct (scan_stops raw Hnn) as [fs Hs]. fold fuel in Hs.
  split_and!.
  - exists (store ∅ fs). by rewrite _parse_scan, Hs.
  - unfold QRISEditor.build. fold raw. rewrite build_loop_spec, Hs.
    by destruct (Edit.first_too_long _ _).
  - exists fs. split; [done|].
    pose proof (scan_field_count _ _ _ _ Hs) as Hc.
    pose proof (len_nonneg raw). rewrite Z.sub_0_r, Z.max_r in Hc by done.
    apply Hc, Forall_forall. intros f Hf. apply (Hnn fuel).
    by rewrite (scan_prefix_scan _ _ _ _ Hs).
Qed.

Lemma scan_stuck data pos f :
  read_field data pos = Some f → Field.length f = -4 →
  ∀ fuel, scan fuel data pos = None.
Proof.
  intros E Hl fuel. induction fuel as [|fuel IH]; [done|].
  rewrite scan_S, E. unfold next_pos. rewrite Hl.
  replace (pos + 4 + -4) with pos by lia. by rewrite IH.
Qed.

Lemma scan_reaches_stuck n data pos p f :
  Walk.cursor_after n data pos = Some p →
  read_field data p = Some f → Field.length f = -4 →
  ∀ fuel, scan fuel data pos = None.
Proof.
  revert pos. induction n as [|n IH]; intros pos Hc E Hl fuel.
  - injection Hc as ->. by eapply scan_stuck.
  - simpl in Hc. destruct fuel as [|fuel]; [done|]. rewrite scan_S.
    destruct (read_field data pos) as [g|]; [|done].
    by rewrite (IH _ Hc E Hl).
Qed.

Lemma first_with_absent tag fs :
  (∀ g, g ∈ fs → Field.tag g ≠ tag) → first_with tag fs = None.
Proof.
  intros H. unfold first_with.
  destruct (filter _ fs) as [|g l] eqn:E; [done|]. exfalso.
  assert (g ∈ filter (λ f, Field.tag f = tag) fs) as Hin
    by (rewrite E; apply elem_of_cons; by left).
  apply list_elem_of_filter in Hin as [Ht Hin]. by apply (H g).
Qed.

(** X5. [int()] reads "-4" as a length, and [4 + length] is then no
    advance: once the cursor reaches a field whose length reads -4, the loop
    reads that field again in every turn.  [_parse] then never returns, no
    parser and no editor is created, and [build] never returns a payload.
    An accessor whose container is such a string never returns either,
    unless it finds its sub-tag before. *)
Theorem length_minus_four_never_returns data n p f :
  Walk.cursor_after n data 0 = Some p →
  read_field data p = Some f → Field.length f = -4 →
  (∀ fuel d, QRISParser._parse fuel data 0 d = None)
  ∧ (strip data = data →
     ∀ fuel, QRISParser.init fuel data = None ∧ QRISEditor.init fuel data = None)
  ∧ (∀ fuel mods out, QRISEditor.build_loop fuel data mods 0 [] ≠ Returned out)
  ∧ ((∀ k g, g ∈ scan_prefix k data 0 → Field.tag g ≠ lit "02") →
     ∀ fuel, QRISParser.nmid_loop fuel data 0 = None)
  ∧ ((∀ k g, g ∈ scan_prefix k data 0 → Field.tag g ≠ lit "01") →
     ∀ fuel, QRISParser.acquiring_id_loop fuel data 0 = None)
  ∧ ((∀ k g, g ∈ scan_prefix k data 0 → Field.tag g ≠ lit "07") →
     ∀ fuel, QRISParser.terminal_id_loop fuel data 0 = None).
Proof.
  intros Hc E Hl.
  pose proof (scan_reaches_stuck _ _ _ _ _ Hc E Hl) as Hs.
  split_and!.
  - intros fuel d. by rewrite _parse_scan, Hs.
  - intros Hst fuel.
    assert (QRISParser.init fuel data = None) as Hi.
    { unfold QRISParser.init. by rewrite Hst, _parse_scan, Hs. }
    split; [done|]. unfold QRISEditor.init. by rewrite Hst, Hi.
  - intros fuel mods out. rewrite build_loop_spec, Hs.
    by destruct (Edit.first_too_long _ _).
  - intros Ht fuel. by rewrite nmid_loop_spec, first_with_absent, Hs by apply Ht.
  - intros Ht fuel. by rewrite acquiring_id_loop_spec, first_with_absent, Hs by apply Ht.
  - intros Ht fuel. by rewrite terminal_id_loop_spec, first_with_absent, Hs by apply Ht.
Qed.

(** ** [build] and the override set *)

Lemma find_ext_elem {A} (p q : A → bool) l :
  (∀ x, x ∈ l → p x = q x) → find p l = find q l.
Proof.
  induction l as [|x l IH]; intros H; [done|]. simpl.
  rewrite (H x) by (apply elem_of_cons; by left).
  destruct (q x); [done|]. apply IH. intros y Hy. apply H. apply elem_of_cons. by right.
Qed.

Lemma fmap_ext_elem {A B} (g h : A → B) (l : list A) :
  (∀ x, x ∈ l → g x = h x) → g <$> l = h <$> l.
Proof.
  intros H. apply list_fmap_ext. intros i x Hi. apply H. by eapply list_elem_of_lookup_2.
Qed.

Lemma kept_elem f fs : f ∈ Edit.kept fs → f ∈ fs.
Proof. unfold Edit.kept. by intros [_ ?]%list_elem_of_filter. Qed.

(** X6. [build] looks at the override set only under the tags it reads
    from the payload: two override sets that agree on those tags give the
    same result.  In particular an override for a tag that is not in the
    payload is ignored, the field is not added. *)
Theorem build_ignores_absent_overrides raw parser mods1 mods2 fuel :
  (∀ n f, f ∈ scan_prefix n raw 0 → mods1 !! Field.tag f = mods2 !! Field.tag f) →
  QRISEditor.build fuel
    {| QRISEditor.raw := raw; QRISEditor.parser := parser;
       QRISEditor.modifications := mods1 |}
  = QRISEditor.build fuel
      {| QRISEditor.raw := raw; QRISEditor.parser := parser;
         QRISEditor.modifications := mods2 |}.
Proof.
  intros H. unfold QRISEditor.build. cbn [QRISEditor.raw QRISEditor.modifications].
  assert (Heq : ∀ f, f ∈ scan_prefix fuel raw 0 →
                     Edit.length_after mods1 f = Edit.length_after mods2 f ∧
                     Edit.piece mods1 f = Edit.piece mods2 f).
  { intros f Hf. unfold Edit.piece, Edit.length_after, Edit.value_after.
    by rewrite (H _ _ Hf). }
  rewrite !build_loop_spec. unfold Edit.first_too_long.
  rewrite (find_ext_elem (Edit.too_long mods1) (Edit.too_long mods2)).
  2:{ intros f Hf%kept_elem. unfold Edit.too_long. by rewrite (proj1 (Heq f Hf)). }
  destruct (find _ _) as [f|] eqn:E.
  - apply find_some in E as [Hin%list_elem_of_In%kept_elem _].
    unfold Edit.error. by rewrite (proj1 (Heq f Hin)).
  - destruct (scan fuel raw 0) as [fs|] eqn:Hs; [|done].
    rewrite (fmap_ext_elem (Edit.piece mods1) (Edit.piece mods2)); [done|].
    intros f Hf%kept_elem. apply Heq. by rewrite (scan_prefix_scan _ _ _ _ Hs).
Qed.

(** ** Editing a well-formed payload *)

Lemma override_well_formed_tags mods fs :
  Forall Payload.well_formed (Walk.override mods fs) →
  Forall (λ f, f.1 ≠ lit "63") fs.
Proof.
  unfold Walk.override. rewrite Forall_fmap. intros H.
  eapply Forall_impl; [exact H|]. by intros f (_ & ? & _).
Qed.

Lemma kept_fields fs cs :
  Forall (λ f : str * str, f.1 ≠ lit "63") fs →
  Edit.kept ((Payload.field_of <$> fs) ++ [Payload.checksum_field cs])
  = Payload.field_of <$> fs.
Proof.
  intros Hfs. unfold Edit.kept. rewrite filter_app.
  rewrite filter_cons_False by (simpl; by intros []).
  rewrite filter_nil, app_nil_r.
  induction Hfs as [|f fs Hf _ IH]; [done|].
  rewrite fmap_cons, filter_cons_True by done. by rewrite IH.
Qed.

Lemma pieces_override mods fs :
  concat (Edit.piece mods <$> (Payload.field_of <$> fs))
  = Payload.serialize (Walk.override mods fs).
Proof.
  induction fs as [|[tag value] fs IH]; [done|].
  unfold Walk.override in *. rewrite !fmap_cons, serialize_cons. simpl. rewrite IH.
  unfold Edit.piece, Edit.length_after, Edit.value_after. simpl.
  destruct (mods !! tag); simpl; by rewrite <- !app_assoc.
Qed.

Lemma first_too_long_override mods fs cs :
  Forall Payload.well_formed (Walk.override mods fs) →
  Edit.first_too_long mods ((Payload.field_of <$> fs) ++ [Payload.checksum_field cs])
  = None.
Proof.
  intros Ho. unfold Edit.first_too_long.
  rewrite kept_fields by by eapply override_well_formed_tags.
  unfold Walk.override in Ho. rewrite Forall_fmap in Ho.
  induction Ho as [|f fs (_ & _ & Hf) _ IH]; [done|].
  rewrite fmap_cons. simpl. rewrite IH.
  unfold Edit.too_long, Edit.length_after. simpl in *.
  rewrite Z.gtb_ltb.
  destruct (mods !! f.1); simpl in *;
    by match goal with |- context [?a <? ?b] => destruct (Z.ltb_spec a b); [lia|] end.
Qed.

Lemma scan_payload_more fs cs fuel :
  Forall Payload.well_formed fs → length cs = 4%nat →
  (S (S (length fs)) <= fuel)%nat →
  scan fuel (Payload.payload fs cs) 0
  = Some ((Payload.field_of <$> fs) ++ [Payload.checksum_field cs]).
Proof.
  intros Hfs Hcs Hk.
  pose proof (scan_payload [] fs cs Hfs Hcs) as Hs.
  rewrite app_nil_l in Hs. change (len []) with 0 in Hs.
  replace fuel with (S (S (length fs)) + (fuel - S (S (length fs))))%nat by lia.
  by apply scan_more.
Qed.

Lemma build_override fs cs parser mods fuel :
  Forall Payload.well_formed fs → length cs = 4%nat →
  Forall Payload.well_formed (Walk.override mods fs) →
  (S (S (length fs)) <= fuel)%nat →
  QRISEditor.build fuel
    {| QRISEditor.raw := Payload.payload fs cs; QRISEditor.parser := parser;
       QRISEditor.modifications := mods |}
  = Returned (Payload.payload (Walk.override mods fs)
                (QRISEditor._calculate_checksum
                   (Payload.serialize (Walk.override mods fs) ++ lit "6304"))).
Proof.
  intros Hfs Hcs Ho Hk.
  unfold QRISEditor.build. cbn [QRISEditor.raw QRISEditor.modifications].
  pose proof (scan_payload_more fs cs fuel Hfs Hcs Hk) as Hs.
  assert (QRISEditor.build_loop fuel (Payload.payload fs cs) mods 0 []
          = Returned (Edit.piece mods <$> (Payload.field_of <$> fs))) as ->.
  { apply build_loop_returned. eexists. split_and!; [exact Hs | |].
    - by apply first_too_long_override.
    - rewrite kept_fields; [done|]. by eapply override_well_formed_tags. }
  rewrite pieces_override. unfold Payload.payload. by rewrite <- app_assoc.
Qed.

Lemma override_tags mods fs : (Walk.override mods fs).*1 = fs.*1.
Proof.
  unfold Walk.override. rewrite <- list_fmap_compose. by apply list_fmap_ext.
Qed.

Lemma override_length mods fs : length (Walk.override mods fs) = length fs.
Proof. unfold Walk.override. apply length_fmap. Qed.

(** X7. Editing a well-formed payload: when the fields are within their
    limits before and after the overrides are put in place, [build] returns
    the serialization of the fields with the override values and their
    character counts, in the original order, followed by "6304" and the
    checksum of all that. *)
Theorem build_serializes_overrides fs cs parser mods :
  Forall Payload.well_formed fs → length cs = 4%nat →
  Forall Payload.well_formed (Walk.override mods fs) →
  let fs' := Walk.override mods fs in
  QRISEditor.build (S (S (length fs)))
    {| QRISEditor.raw := Payload.payload fs cs; QRISEditor.parser := parser;
       QRISEditor.modifications := mods |}
  = Returned (Payload.payload fs'
                (QRISEditor._calculate_checksum (Payload.serialize fs' ++ lit "6304")))
  ∧ fs'.*1 = fs.*1
  ∧ (∀ tag value, (tag, value) ∈ fs → mods !! tag = None → (tag, value) ∈ fs')
  ∧ (∀ tag value v, (tag, value) ∈ fs → mods !! tag = Some v → (tag, v) ∈ fs').
Proof.
  intros Hfs Hcs Ho fs'. split_and!.
  - by apply build_override.
  - apply override_tags.
  - intros tag value Hin Hm. subst fs'. unfold Walk.override.
    apply list_elem_of_fmap. exists (tag, value). simpl. by rewrite Hm.
  - intros tag value v Hin Hm. subst fs'. unfold Walk.override.
    apply list_elem_of_fmap. exists (tag, value). simpl. by rewrite Hm.
Qed.

(** X8. The output of [build] on a well-formed payload is a fixed point:
    building it again without overrides returns it unchanged. *)
Theorem build_output_is_fixed_point fs cs parser parser' mods out :
  Forall Payload.well_formed fs → length cs = 4%nat →
  Forall Payload.well_formed (Walk.override mods fs) →
  QRISEditor.build (S (S (length fs)))
    {| QRISEditor.raw := Payload.payload fs cs; QRISEditor.parser := parser;
       QRISEditor.modifications := mods |} = Returned out →
  QRISEditor.build (S (S (length fs)))
    {| QRISEditor.raw := out; QRISEditor.parser := parser';
       QRISEditor.modifications := ∅ |} = Returned out.
Proof.
  intros Hfs Hcs Ho. rewrite (build_override fs cs parser mods _ Hfs Hcs Ho (le_n _)).
  intros [= <-]. rewrite <- (override_length mods fs).
  apply build_payload; [done|]. apply checksum_hex.
Qed.

(** ** [strip] *)

Lemma lstrip_suffix s : lstrip s `suffix_of` s.
Proof.
  induction s as [|c s IH]; [done|]. simpl.
  destruct (is_space c); [by apply suffix_cons_r|done].
Qed.

Lemma lstrip_head s c : head (lstrip s) = Some c → is_space c = false.
Proof.
  induction s as [|a s IH]; [done|]. simpl.
  destruct (is_space a) eqn:E; [done|]. by intros [= <-].
Qed.

Lemma lstrip_id s : (∀ c, head s = Some c → is_space c = false) → lstrip s = s.
Proof. destruct s as [|a s]; [done|]. intros H. simpl. by rewrite (H a). Qed.

Lemma rstrip_prefix s : rstrip s `prefix_of` s.
Proof.
  apply prefix_suffix_reverse. unfold rstrip. rewrite reverse_involutive.
  apply lstrip_suffix.
Qed.

Lemma rstrip_last s c : last (rstrip s) = Some c → is_space c = false.
Proof. unfold rstrip. rewrite last_reverse. apply lstrip_head. Qed.

Lemma rstrip_id s : (∀ c, last s = Some c → is_space c = false) → rstrip s = s.
Proof.
  intros H. unfold rstrip. rewrite lstrip_id, reverse_involutive; [done|].
  intros c. rewrite head_reverse. apply H.
Qed.

Lemma prefix_head (s t : str) c : s `prefix_of` t → head s = Some c → head t = Some c.
Proof. intros [k ->]. by destruct s. Qed.

Lemma strip_head s c : head (strip s) = Some c → is_space c = false.
Proof.
  intros H. apply (lstrip_head s). eapply prefix_head; [|exact H]. apply rstrip_prefix.
Qed.

Lemma strip_last s c : last (strip s) = Some c → is_space c = false.
Proof. apply rstrip_last. Qed.

Lemma strip_fixed s :
  strip s = s ↔
  (∀ c, head s = Some c → is_space c = false) ∧
  (∀ c, last s = Some c → is_space c = false).
Proof.
  split.
  - intros H. split; intros c Hc; rewrite <- H in Hc;
      [by eapply strip_head | by eapply strip_last].
  - intros [Hh Hl]. unfold strip. rewrite (lstrip_id s Hh). by apply rstrip_id.
Qed.

Lemma strip_strip s : strip (strip s) = strip s.
Proof. apply strip_fixed. split; intros c; [apply strip_head | apply strip_last]. Qed.

(** X9. The state of a new editor.  [QRISEditor(s)] strips [s], hands the
    stripped string to [QRISParser] (which strips again, to no effect) and
    starts with no override: its raw string has no white space at either
    end, its parser is the one [QRISParser(s)] gives and holds the same raw
    string, and the editor is created exactly when the parse of [s]
    returns. *)
Theorem editor_init_state fuel s :
  (∀ self, QRISEditor.init fuel s = Some self →
     QRISEditor.raw self = strip s
     ∧ QRISEditor.modifications self = ∅
     ∧ QRISParser.init fuel s = Some (QRISEditor.parser self)
     ∧ QRISParser.raw (QRISEditor.parser self) = QRISEditor.raw self
     ∧ QRISParser._parse fuel (strip s) 0 ∅ = Some (QRISParser.data (QRISEditor.parser self))
     ∧ (∀ c, head (QRISEditor.raw self) = Some c → is_space c = false)
     ∧ (∀ c, last (QRISEditor.raw self) = Some c → is_space c = false))
  ∧ (is_Some (QRISEditor.init fuel s) ↔ is_Some (QRISParser.init fuel s))
  ∧ QRISEditor.init fuel (strip s) = QRISEditor.init fuel s
  ∧ QRISParser.init fuel (strip s) = QRISParser.init fuel s.
Proof.
  assert (Hp : QRISParser.init fuel (strip s) = QRISParser.init fuel s).
  { unfold QRISParser.init. by rewrite strip_strip. }
  split_and!.
  - intros self. unfold QRISEditor.init. rewrite Hp.
    destruct (QRISParser.init fuel s) as [p|] eqn:E; [|done].
    cbn [mbind option_bind]. intros [= <-]. cbn [QRISEditor.raw QRISEditor.parser
      QRISEditor.modifications].
    unfold QRISParser.init in E.
    destruct (QRISParser._parse fuel (strip s) 0 ∅) as [d|] eqn:E'; [|done].
    cbn [mbind option_bind] in E. injection E as <-. cbn [QRISParser.raw QRISParser.data].
    split_and!; try done; intros c; [apply strip_head | apply strip_last].
  - unfold QRISEditor.init. rewrite Hp.
    destruct (QRISParser.init fuel s); cbn [mbind option_bind];
      split; intros [x Hx]; try done; by eexists.
  - unfold QRISEditor.init. by rewrite strip_strip.
  - exact Hp.
Qed.

(** ** Parsing a serialized payload *)

Lemma is_digit_not_space c : is_digit c = true → is_space c = false.
Proof.
  unfold is_digit, is_space, int_space. intros H.
  apply andb_true_iff in H as [H1%Z.leb_le H2%Z.leb_le].
  repeat match goal with
         | |- context [?a <=? ?b] => destruct (Z.leb_spec a b); try lia
         | |- context [?a =? ?b] => destruct (Z.eqb_spec a b); try lia
         end; done.
Qed.

Lemma is_upper_hex_not_space c : is_upper_hex c = true → is_space c = false.
Proof.
  unfold is_upper_hex, is_digit, is_space, int_space. intros H.
  assert (48 <= code c <= 70) as Hr.
  { apply orb_true_iff in H as [H|H]; apply andb_true_iff in H as [?%Z.leb_le ?%Z.leb_le]; lia. }
  clear H.
  repeat match goal with
         | |- context [?a <=? ?b] => destruct (Z.leb_spec a b); try lia
         | |- context [?a =? ?b] => destruct (Z.eqb_spec a b); try lia
         end; done.
Qed.

Lemma serialize_head fs cs c :
  Forall (λ f : str * str, length f.1 = 2%nat ∧ Walk.numeric f.1) fs →
  head (Payload.payload fs cs) = Some c → is_space c = false.
Proof.
  intros Hfs. destruct Hfs as [|[tag value] fs [Hl Hn] _].
  - intros [= <-]. reflexivity.
  - unfold Payload.payload. rewrite serialize_cons. simpl in *.
    destruct tag as [|a tag]; [done|]. simpl. intros [= <-].
    apply is_digit_not_space. by inversion Hn.
Qed.

Lemma payload_last fs cs c :
  length cs = 4%nat → last (Payload.payload fs cs) = Some c → last cs = Some c.
Proof.
  intros Hcs. unfold Payload.payload. rewrite !app_assoc.
  destruct cs as [|a cs] using rev_ind; [done|].
  rewrite app_assoc, !last_snoc. done.
Qed.

Lemma strip_payload fs cs :
  Forall (λ f : str * str, length f.1 = 2%nat ∧ Walk.numeric f.1) fs →
  length cs = 4%nat → (∀ c, last cs = Some c → is_space c = false) →
  strip (Payload.payload fs cs) = Payload.payload fs cs.
Proof.
  intros Hfs Hcs Hl. apply strip_fixed. split; intros c Hc.
  - by eapply serialize_head.
  - apply Hl. by eapply payload_last.
Qed.

Lemma last_with_fields tag fs :
  last_with tag (Payload.field_of <$> fs)
  = Payload.field_of <$> last (filter (λ f, f.1 = tag) fs).
Proof.
  unfold last_with. rewrite <- fmap_last. f_equal.
  induction fs as [|f fs IH]; [done|]. rewrite fmap_cons.
  destruct (decide (f.1 = tag)) as [E|E].
  - rewrite !filter_cons_True by done. by rewrite fmap_cons, IH.
  - by rewrite !filter_cons_False by done.
Qed.

Lemma last_with_snoc tag fs f :
  last_with tag (fs ++ [f])
  = if bool_decide (Field.tag f = tag) then Some f else last_with tag fs.
Proof.
  unfold last_with. rewrite filter_app. case_bool_decide.
  - rewrite filter_cons_True, filter_nil by done. apply last_snoc.
  - by rewrite filter_cons_False, filter_nil, app_nil_r by done.
Qed.

Lemma parse_payload fs cs fuel :
  Forall Payload.well_formed fs → length cs = 4%nat →
  (S (S (length fs)) <= fuel)%nat →
  QRISParser._parse fuel (Payload.payload fs cs) 0 ∅
  = Some (store ∅ ((Payload.field_of <$> fs) ++ [Payload.checksum_field cs])).
Proof.
  intros Hfs Hcs Hk. by rewrite _parse_scan, (scan_payload_more fs cs fuel Hfs Hcs Hk).
Qed.

Lemma payload_lookup fs cs tag :
  store ∅ ((Payload.field_of <$> fs) ++ [Payload.checksum_field cs]) !! tag
  = if bool_decide (tag = lit "63") then Some (entry_of (Payload.checksum_field cs))
    else (λ f, entry_of (Payload.field_of f)) <$> last (filter (λ f, f.1 = tag) fs).
Proof.
  rewrite store_lookup, last_with_snoc. cbn [Payload.checksum_field Field.tag].
  case_bool_decide as E; case_bool_decide as E'; try done; try (by subst).
  rewrite last_with_fields. destruct (last _); [done|]. simpl. apply lookup_empty.
Qed.

(** X10. Reading back a serialization.  The parse of the serialization of
    fields within the limits of their tags, followed by the checksum tag
    with four characters, returns within one turn per field (and two more),
    and the document holds for every tag the value and the character count
    of the last field written with it, under the name of the tag table;
    "63" holds the four characters; a tag that was not written is absent. *)
Theorem parse_reads_back_serialized fs cs :
  Forall Payload.well_formed fs → length cs = 4%nat →
  ∃ d, QRISParser._parse (S (S (length fs))) (Payload.payload fs cs) 0 ∅ = Some d
    ∧ (∀ tag value, Walk.value_of tag fs = Some value →
         d !! tag = Some {| Entry.tag := tag;
                            Entry.name := default (lit "Unknown Tag " ++ tag)
                                            (QRISParser.TAGS !! tag);
                            Entry.length := len value;
                            Entry.value := value |})
    ∧ (∀ tag, tag ≠ lit "63" → Walk.value_of tag fs = None → d !! tag = None)
    ∧ (∀ tag, tag ≠ lit "63" → (Walk.value_of tag fs = None ↔ tag ∉ fs.*1))
    ∧ (Entry.value <$> d !! lit "63" = Some cs)
    ∧ (∀ raw, QRISParser.get_value {| QRISParser.raw := raw; QRISParser.data := d |} (lit "63")
              = cs).
Proof.
  intros Hfs Hcs. eexists. split; [by apply parse_payload|].
  split_and!.
  - intros tag value Hv. rewrite payload_lookup. unfold Walk.value_of in Hv.
    destruct (last _) as [[t v]|] eqn:El; [|done]. simpl in Hv. injection Hv as ->.
    assert (t = tag ∧ (t, value) ∈ fs) as [-> Hin].
    { apply last_Some_elem_of in El. by apply list_elem_of_filter in El as [? ?]. }
    rewrite bool_decide_eq_false_2; [done|].
    rewrite Forall_forall in Hfs. by destruct (Hfs _ Hin) as (_ & ? & _).
  - intros tag Ht Hv. rewrite payload_lookup, bool_decide_eq_false_2 by done.
    unfold Walk.value_of in Hv. by destruct (last _).
  - intros tag Ht. unfold Walk.value_of. rewrite fmap_None, last_None. split.
    + intros Hf [[t v] [-> Hin]]%list_elem_of_fmap.
      by eapply (filter_nil_not_elem_of _ _ (t, v)) in Hf.
    + intros Hn. destruct (filter _ fs) as [|f l] eqn:Ef; [done|]. exfalso. apply Hn.
      assert (f ∈ filter (λ f : str * str, f.1 = tag) fs) as Hin
        by (rewrite Ef; apply elem_of_cons; by left).
      apply list_elem_of_filter in Hin as [<- Hin]. apply list_elem_of_fmap. by exists f.
  - by rewrite payload_lookup.
  - intros raw. unfold QRISParser.get_value. cbn [QRISParser.data].
    by rewrite payload_lookup.
Qed.

(** ** Reading an edited payload *)

Lemma filter_override tag mods fs :
  filter (λ f : str * str, f.1 = tag) (Walk.override mods fs)
  = (λ f : str * str, (f.1, default f.2 (mods !! tag)))
      <$> filter (λ f : str * str, f.1 = tag) fs.
Proof.
  unfold Walk.override. induction fs as [|f fs IH]; [done|]. rewrite fmap_cons.
  destruct (decide (f.1 = tag)) as [E|E].
  - rewrite !filter_cons_True by done. rewrite fmap_cons, IH. by rewrite E.
  - by rewrite !filter_cons_False by done.
Qed.

Lemma override_numeric mods fs :
  Forall Payload.well_formed (Walk.override mods fs) →
  Forall (λ f : str * str, Walk.numeric f.1) fs →
  Forall (λ f : str * str, length f.1 = 2%nat ∧ Walk.numeric f.1) (Walk.override mods fs).
Proof.
  unfold Walk.override. rewrite !Forall_fmap. intros Ho Hn.
  induction Hn as [|f fs Hf _ IH]; [done|].
  inversion Ho as [|? ? (? & _) Ho']; subst. constructor; [done|]. by apply IH.
Qed.

Lemma checksum_last data c :
  last (QRISEditor._calculate_checksum data) = Some c → is_space c = false.
Proof.
  intros Hc. apply is_upper_hex_not_space.
  destruct (checksum_hex data) as [_ Hh]. rewrite Forall_forall in Hh.
  apply Hh. by apply last_Some_elem_of.
Qed.

Lemma lookup_override_some mods fs cs tag v :
  Forall Payload.well_formed fs → mods !! tag = Some v → tag ∈ fs.*1 →
  store ∅ ((Payload.field_of <$> Walk.override mods fs) ++ [Payload.checksum_field cs])
    !! tag
  = Some (entry_of (Payload.field_of (tag, v))).
Proof.
  intros Hfs Hm Hin. rewrite payload_lookup.
  assert (tag ≠ lit "63") as Ht.
  { intros ->. apply list_elem_of_fmap in Hin as [f [E Hin]].
    rewrite Forall_forall in Hfs. destruct (Hfs f Hin) as (_ & ? & _). done. }
  rewrite bool_decide_eq_false_2 by done.
  rewrite filter_override, fmap_last, Hm.
  destruct (last (filter _ fs)) as [f|] eqn:El.
  - apply last_Some_elem_of, list_elem_of_filter in El as [<- _]. done.
  - exfalso. apply last_None in El.
    apply list_elem_of_fmap in Hin as [f [-> Hin]].
    by eapply (filter_nil_not_elem_of _ _ f) in El.
Qed.

Lemma lookup_override_none mods fs cs cs' tag :
  mods !! tag = None → tag ≠ lit "63" →
  store ∅ ((Payload.field_of <$> Walk.override mods fs) ++ [Payload.checksum_field cs'])
    !! tag
  = store ∅ ((Payload.field_of <$> fs) ++ [Payload.checksum_field cs]) !! tag.
Proof.
  intros Hm Ht. rewrite !payload_lookup, !bool_decide_eq_false_2 by done.
  rewrite filter_override, Hm. f_equal. f_equal.
  rewrite <- (list_fmap_id (filter _ fs)) at 2. apply list_fmap_ext.
  by intros i [t v].
Qed.

Lemma lookup_absent fs cs tag :
  tag ∉ fs.*1 → tag ≠ lit "63" →
  store ∅ ((Payload.field_of <$> fs) ++ [Payload.checksum_field cs]) !! tag = None.
Proof.
  intros Hin Ht. rewrite payload_lookup, bool_decide_eq_false_2 by done.
  destruct (filter _ fs) as [|f l] eqn:Ef; [done|]. exfalso. apply Hin.
  assert (f ∈ filter (λ f : str * str, f.1 = tag) fs) as Hf
    by (rewrite Ef; apply elem_of_cons; by left).
  apply list_elem_of_filter in Hf as [<- Hf]. apply list_elem_of_fmap. by exists f.
Qed.

Lemma init_payload fs cs fuel :
  Forall Payload.well_formed fs → length cs = 4%nat →
  Forall (λ f : str * str, Walk.numeric f.1) fs →
  (∀ c, last cs = Some c → is_space c = false) →
  (S (S (length fs)) <= fuel)%nat →
  QRISParser.init fuel (Payload.payload fs cs)
  = Some {| QRISParser.raw := Payload.payload fs cs;
            QRISParser.data :=
              store ∅ ((Payload.field_of <$> fs) ++ [Payload.checksum_field cs]) |}.
Proof.
  intros Hfs Hcs Hn Hl Hk. unfold QRISParser.init.
  rewrite strip_payload; [| | done | done].
  - by rewrite (parse_payload fs cs fuel Hfs Hcs Hk).
  - rewrite Forall_forall in *. intros f Hf. split; [apply (Hfs f Hf)|by apply Hn].
Qed.

(** X11. The program reads its own output.  After [build] on a
    well-formed payload with numeric tags, when the fields are within their
    limits with the overrides in place, [QRISParser] on the output returns
    and keeps the output as its raw string; a tag of the payload that has
    an override shows the override, with its character count; a tag
    without override has the entry it has in the parse of the original; a
    tag that is not in the payload is not in the document, whether it has
    an override or not; and the checksum shown is the one [build]
    computed. *)
Theorem reparse_shows_edit fs cs parser mods :
  Forall Payload.well_formed fs → length cs = 4%nat →
  Forall (λ f : str * str, Walk.numeric f.1) fs →
  Forall Payload.well_formed (Walk.override mods fs) →
  let fuel := S (S (length fs)) in
  ∃ out new_parser d0,
    QRISEditor.build fuel
      {| QRISEditor.raw := Payload.payload fs cs; QRISEditor.parser := parser;
         QRISEditor.modifications := mods |} = Returned out
    ∧ QRISParser.init fuel out = Some new_parser
    ∧ QRISParser.raw new_parser = out
    ∧ QRISParser._parse fuel (Payload.payload fs cs) 0 ∅ = Some d0
    ∧ (∀ tag v, mods !! tag = Some v → tag ∈ fs.*1 →
         QRISParser.get_value new_parser tag = v ∧
         Entry.length <$> QRISParser.data new_parser !! tag = Some (len v))
    ∧ (∀ tag, mods !! tag = None → tag ≠ lit "63" →
         QRISParser.data new_parser !! tag = d0 !! tag)
    ∧ (∀ tag, tag ∉ fs.*1 → tag ≠ lit "63" → QRISParser.data new_parser !! tag = None)
    ∧ QRISParser.checksum new_parser
      = QRISEditor._calculate_checksum
          (Payload.serialize (Walk.override mods fs) ++ lit "6304").
Proof.
  intros Hfs Hcs Hn Ho fuel.
  set (fs' := Walk.override mods fs).
  set (cs' := QRISEditor._calculate_checksum (Payload.serialize fs' ++ lit "6304")).
  assert (Hcs' : length cs' = 4%nat) by apply checksum_hex.
  assert (Hn' : Forall (λ f : str * str, Walk.numeric f.1) fs').
  { eapply Forall_impl; [by apply override_numeric|]. by intros f [_ ?]. }
  exists (Payload.payload fs' cs'),
    {| QRISParser.raw := Payload.payload fs' cs';
       QRISParser.data := store ∅ ((Payload.field_of <$> fs') ++ [Payload.checksum_field cs']) |},
    (store ∅ ((Payload.field_of <$> fs) ++ [Payload.checksum_field cs])).
  split_and!.
  - by apply build_override.
  - apply init_payload; [done | done | done | apply checksum_last |].
    subst fuel fs'. by rewrite override_length.
  - done.
  - by apply parse_payload.
  - intros tag v Hm Hin. unfold QRISParser.get_value. cbn [QRISParser.data].
    subst fs'. by rewrite (lookup_override_some mods fs cs' tag v Hfs Hm Hin).
  - intros tag Hm Ht. cbn [QRISParser.data]. by apply lookup_override_none.
  - intros tag Hin Ht. cbn [QRISParser.data]. apply lookup_absent; [|done].
    subst fs'. by rewrite override_tags.
  - unfold QRISParser.checksum, QRISParser.get_value. cbn [QRISParser.data].
    by rewrite payload_lookup.
Qed.

(** ** What the validator accepts *)

Lemma occurs_at_app_r s t sub i : occurs_at s sub i → occurs_at (s ++ t) sub i.
Proof.
  unfold occurs_at. intros H.
  destruct (decide (i <= length s)%nat) as [Hi|Hi].
  - rewrite drop_app_le by done. rewrite take_app_le; [done|].
    rewrite <- H at 1. rewrite length_take. lia.
  - rewrite drop_ge in H by lia. rewrite take_nil in H. subst sub. by rewrite take_0.
Qed.

Lemma same_hex_refl_list h : Forall2 same_hex h h.
Proof. induction h; constructor; [by left|done]. Qed.

Lemma last_header data :
  contains data (lit "6304") = true →
  ∃ pre post, data = pre ++ lit "6304" ++ post ∧
    ∀ j, (length pre < j)%nat → ¬ occurs_at data (lit "6304") j.
Proof.
  intros [i Hi]%contains_occurs.
  pose proof (occurs_at_length _ _ _ Hi ltac:(done)) as Hl.
  destruct (rfind_from_spec data (lit "6304") 0 ltac:(done))
    as [[_ Hn]|(j & Hj & _ & Hocc & Hlast)].
  { exfalso. apply (Hn i); [lia|done]. }
  exists (take j data), (drop (j + length (lit "6304")) data). split.
  - by apply occurs_at_split.
  - intros j'. rewrite length_take, Nat.min_l by done. intros Hlt Ho.
    pose proof (occurs_at_length _ _ _ Ho ltac:(done)).
    apply (Hlast j'); [lia|done].
Qed.

Lemma validate_true_inv data :
  (QRCodeHandler.validate_qris data).1 = true →
  50 <= len data ∧ startswith data (lit "000201") = true ∧
  contains data (lit "6304") = true.
Proof.
  unfold QRCodeHandler.validate_qris.
  destruct (Z.ltb_spec (len data) 50); [done|].
  destruct (startswith data (lit "000201")); [|done].
  destruct (contains data (lit "6304")); [|done]. done.
Qed.

Lemma validate_last_header_iff pre post :
  let data := pre ++ lit "6304" ++ post in
  (∀ j, (length pre < j)%nat → ¬ occurs_at data (lit "6304") j) →
  (QRCodeHandler.validate_qris data).1 = true ↔
  50 <= len data ∧ startswith data (lit "000201") = true ∧ 4 <= len post ∧
  Forall2 same_hex (take 4 post) (QRISEditor._calculate_checksum (pre ++ lit "6304")) ∧
  contains data (lit "59") = true.
Proof.
  intros data Hlast.
  pose proof (validate_at_last_header pre post) as H. cbv zeta in H. fold data in H.
  pose proof (upper_same_hex (take 4 post)
                (QRISEditor._calculate_checksum (pre ++ lit "6304"))
                (proj2 (checksum_hex _))) as Hup.
  split.
  - intros Hv. destruct (validate_true_inv _ Hv) as (Hlen & Hpre & _).
    rewrite (H Hlen Hpre Hlast) in Hv.
    destruct (Z.ltb_spec (len post) 4); [done|].
    case_bool_decide as Hd; [|done].
    destruct (contains data (lit "59")); [|done].
    split_and!; try done. by apply Hup.
  - intros (Hlen & Hpre & Hpost & Hsame & H59).
    rewrite (H Hlen Hpre Hlast).
    destruct (Z.ltb_spec (len post) 4); [lia|].
    rewrite bool_decide_eq_true_2 by by apply Hup. by rewrite H59.
Qed.

(** X12. What the validator accepts.  A string is accepted exactly when it
    has at least 50 characters, starts with "000201", holds "59" somewhere,
    and can be cut at the last place where "6304" is found into a part
    before, the "6304", and a part after that has at least four characters,
    the first four being the checksum of everything up to and including the
    "6304", in either letter case.  What follows those four characters is
    not examined: an accepted string stays accepted when text is appended
    in which no further "6304" begins. *)
Theorem validate_qris_accepts_iff data :
  ((QRCodeHandler.validate_qris data).1 = true ↔
   50 <= len data ∧ (∃ r, data = lit "000201" ++ r) ∧ (∃ i, occurs_at data (lit "59") i) ∧
   ∃ pre post,
     data = pre ++ lit "6304" ++ post ∧
     (∀ j, (length pre < j)%nat → ¬ occurs_at data (lit "6304") j) ∧
     4 <= len post ∧
     Forall2 same_hex (take 4 post) (QRISEditor._calculate_checksum (pre ++ lit "6304")))
  ∧ (∀ t, (QRCodeHandler.validate_qris data).1 = true →
          (∀ j, (length data - 4 < j)%nat → ¬ occurs_at (data ++ t) (lit "6304") j) →
          (QRCodeHandler.validate_qris (data ++ t)).1 = true).
Proof.
  split; [split|].
  - intros Hv. destruct (validate_true_inv _ Hv) as (Hlen & Hpre & Hc).
    destruct (last_header _ Hc) as (pre & post & -> & Hlast).
    apply (validate_last_header_iff pre post Hlast) in Hv as (_ & _ & Hpost & Hsame & H59).
    split_and!; [done | by apply startswith_app | by apply contains_occurs |].
    by exists pre, post.
  - intros (Hlen & Hpre & H59 & pre & post & -> & Hlast & Hpost & Hsame).
    apply (validate_last_header_iff pre post Hlast).
    split_and!; [done | by apply startswith_app | done | done | by apply contains_occurs].
  - intros t Hv Ht. destruct (validate_true_inv _ Hv) as (Hlen & Hpre & Hc).
    destruct (last_header _ Hc) as (pre & post & -> & Hlast).
    apply (validate_last_header_iff pre post Hlast) in Hv as (_ & _ & Hpost & Hsame & H59).
    rewrite <- !app_assoc.
    assert (Hlast' : ∀ j, (length pre < j)%nat →
              ¬ occurs_at (pre ++ lit "6304" ++ post ++ t) (lit "6304") j).
    { intros j Hj Ho. rewrite !app_assoc, <- (app_assoc pre) in Ho.
      destruct (decide (length (pre ++ lit "6304" ++ post) - 4 < j)%nat) as [Hb|Hb].
      - by apply (Ht j).
      - apply (Hlast j Hj). unfold occurs_at in *.
        rewrite drop_app_le in Ho by lia. rewrite take_app_le in Ho; [done|].
        rewrite length_drop. rewrite !length_app in *. simpl in *.
        unfold len in Hpost. lia. }
    apply (validate_last_header_iff pre (post ++ t) Hlast').
    assert (Heq : pre ++ lit "6304" ++ post ++ t = (pre ++ lit "6304" ++ post) ++ t)
      by by rewrite <- !app_assoc.
    rewrite Heq. pose proof (len_nonneg t).
    split_and!.
    + rewrite len_app. lia.
    + apply startswith_app. apply startswith_app in Hpre as [r Hr].
      exists (r ++ t). by rewrite Hr, <- app_assoc.
    + rewrite len_app. lia.
    + rewrite take_app_le; [done|]. unfold len in Hpost. lia.
    + apply contains_occurs. apply contains_occurs in H59 as [i Hi]. exists i.
      by apply occurs_at_app_r.
Qed.

(** ** [build] and the validator *)

(** X13. The output of [build] under the validator.  Whatever the payload
    and the overrides, an output of [build] ends with "6304" and the
    checksum of everything before, so the checksum test of the validator
    never fails on it, with one exception: when the checksum itself reads
    "6304", the validator finds its header there and reports a bad checksum
    format.  Otherwise an output of at least 50 characters that starts with
    "000201" is accepted when it holds "59" and rejected for the missing
    merchant name when not. *)
Theorem build_output_validates fuel self out :
  QRISEditor.build fuel self = Returned out →
  ∃ body,
    let checksum := QRISEditor._calculate_checksum (body ++ lit "6304") in
    out = body ++ lit "6304" ++ checksum
    ∧ length checksum = 4%nat
    ∧ (50 <= len out → startswith out (lit "000201") = true →
       QRCodeHandler.validate_qris out =
       if bool_decide (checksum = lit "6304")
       then (false, QRCodeHandler.bad_checksum_format)
       else if contains out (lit "59") then (true, QRCodeHandler.valid)
            else (false, QRCodeHandler.no_merchant_name))
    ∧ ((QRCodeHandler.validate_qris out).1 = true ↔
       50 <= len out ∧ startswith out (lit "000201") = true ∧
       contains out (lit "59") = true ∧ checksum ≠ lit "6304").
Proof.
  intros (fs & _ & _ & ->)%build_returned_inv.
  set (body := concat _). exists body. intros checksum. subst checksum.
  set (checksum := QRISEditor._calculate_checksum (body ++ lit "6304")).
  assert (Hcs : length checksum = 4%nat) by apply checksum_hex.
  assert (Hv : 50 <= len (body ++ lit "6304" ++ checksum) →
               startswith (body ++ lit "6304" ++ checksum) (lit "000201") = true →
               QRCodeHandler.validate_qris (body ++ lit "6304" ++ checksum) =
               if bool_decide (checksum = lit "6304")
               then (false, QRCodeHandler.bad_checksum_format)
               else if contains (body ++ lit "6304" ++ checksum) (lit "59")
                    then (true, QRCodeHandler.valid)
                    else (false, QRCodeHandler.no_merchant_name)).
  { intros Hlen Hpre. case_bool_decide as E.
    - rewrite E in *.
      pose proof (validate_at_last_header (body ++ lit "6304") []) as H.
      cbv zeta in H. rewrite app_nil_r, <- app_assoc in H. rewrite H; [done..|].
      intros j Hj Hocc. apply occurs_at_length in Hocc; [|done].
      rewrite !length_app in *. simpl in *. lia.
    - pose proof (validate_at_last_header body checksum) as H. cbv zeta in H.
      rewrite H; [|done|done|by apply header_is_last].
      destruct (Z.ltb_spec (len checksum) 4) as [Hlt|_].
      { unfold len in Hlt. lia. }
      rewrite firstn_all2 by lia. fold checksum.
      rewrite bool_decide_eq_true_2; [done|].
      apply upper_same_hex; [apply checksum_hex | apply same_hex_refl_list]. }
  split_and!; [done | done | exact Hv |]. split.
  - intros Ht. destruct (validate_true_inv _ Ht) as (Hlen & Hpre & _).
    rewrite (Hv Hlen Hpre) in Ht. case_bool_decide; [done|].
    destruct (contains _ (lit "59")); done.
  - intros (Hlen & Hpre & H59 & Hne). rewrite (Hv Hlen Hpre).
    rewrite bool_decide_eq_false_2 by done. by rewrite H59.
Qed.

(** ** Serialized fields followed by other text *)

Lemma serialize_app fs gs :
  Payload.serialize (fs ++ gs) = Payload.serialize fs ++ Payload.serialize gs.
Proof. unfold Payload.serialize. apply bind_app. Qed.

Lemma serialize_len_cons (f : str * str) fs :
  length f.1 = 2%nat → 0 <= len f.2 <= 99 →
  len (Payload.serialize (f :: fs)) = 4 + len f.2 + len (Payload.serialize fs).
Proof.
  intros Ht Hv. rewrite serialize_cons, !len_app.
  pose proof (format_02d_length (len f.2) ltac:(lia)) as Hl.
  unfold len in *. rewrite Ht, Hl. lia.
Qed.

(** The cursor loop reads back serialized fields and goes on with what
    follows them. *)
Lemma scan_prefix_serialized pre fs rest :
  Forall Walk.sub_field fs →
  scan_prefix (length fs) (pre ++ Payload.serialize fs ++ rest) (len pre)
  = Payload.field_of <$> fs
  ∧ Walk.cursor_after (length fs) (pre ++ Payload.serialize fs ++ rest) (len pre)
    = Some (len pre + len (Payload.serialize fs)).
Proof.
  intros Hfs. revert pre. induction Hfs as [|f fs [Ht Hv] _ IH]; intros pre.
  - split; [done|]. cbn [length Walk.cursor_after]. f_equal.
    change (len (Payload.serialize [])) with 0. lia.
  - assert (0 <= len f.2 <= 99) as Hv' by (pose proof (len_nonneg f.2); lia).
    assert (Hr : read_field (pre ++ Payload.serialize (f :: fs) ++ rest) (len pre)
                 = Some (Payload.field_of f)).
    { rewrite serialize_cons. destruct f as [tag value]. cbn [fst snd] in *.
      rewrite <- (app_assoc (tag ++ format_02d (len value) ++ value)
                    (Payload.serialize fs) rest).
      by apply read_field_serialized. }
    cbn [length scan_prefix Walk.cursor_after]. rewrite Hr.
    unfold next_pos. cbn [Payload.field_of Field.length].
    rewrite serialize_len_cons by done.
    specialize (IH (pre ++ f.1 ++ format_02d (len f.2) ++ f.2)).
    assert (len (pre ++ f.1 ++ format_02d (len f.2) ++ f.2) = len pre + 4 + len f.2) as Hl.
    { rewrite !len_app. pose proof (format_02d_length (len f.2) ltac:(lia)) as Hl.
      unfold len in *. rewrite Ht, Hl. lia. }
    rewrite Hl in IH.
    assert ((pre ++ f.1 ++ format_02d (len f.2) ++ f.2) ++ Payload.serialize fs ++ rest
            = pre ++ Payload.serialize (f :: fs) ++ rest) as Heq.
    { rewrite serialize_cons. by rewrite <- !app_assoc. }
    rewrite Heq in IH. destruct IH as [IH1 IH2]. split.
    + rewrite fmap_cons. by rewrite IH1.
    + rewrite IH2. f_equal. lia.
Qed.

Lemma scan_prefix_stop n data pos p :
  Walk.cursor_after n data pos = Some p → read_field data p = None →
  scan (S n) data pos = Some (scan_prefix n data pos).
Proof.
  revert pos. induction n as [|n IH]; intros pos Hc Hr.
  - injection Hc as ->. cbn [scan scan_prefix]. by rewrite Hr.
  - rewrite scan_S. cbn [scan_prefix Walk.cursor_after] in *.
    destruct (read_field data pos) as [f|]; [|done].
    by rewrite (IH _ Hc Hr).
Qed.

Lemma scan_serialized pre fs rest :
  Forall Walk.sub_field fs →
  read_field (pre ++ Payload.serialize fs ++ rest) (len pre + len (Payload.serialize fs))
  = None →
  scan (S (length fs)) (pre ++ Payload.serialize fs ++ rest) (len pre)
  = Some (Payload.field_of <$> fs).
Proof.
  intros Hfs Hr. destruct (scan_prefix_serialized pre fs rest Hfs) as [H1 H2].
  rewrite (scan_prefix_stop _ _ _ _ H2 Hr). by rewrite H1.
Qed.

Lemma well_formed_sub_field (f : str * str) : Payload.well_formed f → Walk.sub_field f.
Proof. intros (? & _ & ?). split; [done|]. pose proof (max_len_le f.1). lia. Qed.

Lemma payload_serialize fs cs :
  length cs = 4%nat →
  Payload.payload fs cs = Payload.serialize (fs ++ [(lit "63", cs)]).
Proof.
  intros Hcs. rewrite serialize_app. unfold Payload.payload. f_equal.
  rewrite serialize_cons. change (Payload.serialize []) with (@nil ascii).
  rewrite app_nil_r. cbn [fst snd]. unfold len. rewrite Hcs. reflexivity.
Qed.

Lemma read_field_short data pos :
  len data - pos < 4 → read_field data pos = None.
Proof.
  intros H. unfold read_field. destruct (Z.ltb_spec pos (len data)); [|done].
  rewrite Z.gtb_ltb. by destruct (Z.ltb_spec (len data) (pos + 4)); [|lia].
Qed.

Lemma scan_payload_rest fs cs rest :
  Forall Payload.well_formed fs → length cs = 4%nat →
  read_field (Payload.payload fs cs ++ rest) (len (Payload.payload fs cs)) = None →
  scan (S (S (length fs))) (Payload.payload fs cs ++ rest) 0
  = Some ((Payload.field_of <$> fs) ++ [Payload.checksum_field cs]).
Proof.
  intros Hfs Hcs Hr. rewrite payload_serialize in * by done.
  pose proof (scan_serialized [] (fs ++ [(lit "63", cs)]) rest) as H.
  rewrite app_nil_l in H. change (len []) with 0 in H. rewrite Z.add_0_l in H.
  rewrite length_app, Nat.add_comm in H. cbn [length Nat.add] in H.
  rewrite H; [| |done].
  - assert (Payload.field_of (lit "63", cs) = Payload.checksum_field cs) as E.
    { unfold Payload.field_of, Payload.checksum_field. cbn [fst snd].
      unfold len. by rewrite Hcs. }
    rewrite fmap_app, fmap_cons, E. reflexivity.
  - apply Forall_app. split.
    + eapply Forall_impl; [exact Hfs|]. apply well_formed_sub_field.
    + constructor; [|done]. split; [done|]. cbn [snd]. unfold len. rewrite Hcs. lia.
Qed.

(** X14. Text after the checksum.  When a well-formed payload is followed
    by text at which the cursor loop stops (fewer than four characters, or
    a length that is no number), the parse gives the document of the
    payload alone, and [build] gives what it gives for the payload alone:
    the text is not carried over. *)
Theorem trailing_text_is_dropped fs cs rest parser mods :
  Forall Payload.well_formed fs → length cs = 4%nat →
  len rest < 4 ∨ (4 <= len rest ∧ py_int (slice rest 2 4) = None) →
  let fuel := S (S (length fs)) in
  let data := Payload.payload fs cs in
  QRISParser._parse fuel (data ++ rest) 0 ∅ = QRISParser._parse fuel data 0 ∅
  ∧ is_Some (QRISParser._parse fuel (data ++ rest) 0 ∅)
  ∧ QRISEditor.build fuel
      {| QRISEditor.raw := data ++ rest; QRISEditor.parser := parser;
         QRISEditor.modifications := mods |}
    = QRISEditor.build fuel
        {| QRISEditor.raw := data; QRISEditor.parser := parser;
           QRISEditor.modifications := mods |}
  ∧ QRISEditor.build fuel
      {| QRISEditor.raw := data ++ rest; QRISEditor.parser := parser;
         QRISEditor.modifications := ∅ |}
    = Returned (Payload.payload fs
                  (QRISEditor._calculate_checksum (Payload.serialize fs ++ lit "6304"))).
Proof.
  intros Hfs Hcs Hrest fuel data.
  assert (Hr : read_field (data ++ rest) (len data) = None).
  { destruct Hrest as [Hlt|[Hge Hint]].
    - apply read_field_short. rewrite len_app. lia.
    - unfold read_field. rewrite len_app.
      destruct (Z.ltb_spec (len data) (len data + len rest)); [|done].
      rewrite Z.gtb_ltb.
      destruct (Z.ltb_spec (len data + len rest) (len data + 4)); [done|].
      assert (slice (data ++ rest) (len data + 2) (len data + 4) = slice rest 2 4) as ->.
      { pose proof (len_nonneg data).
        rewrite !slice_inside by (rewrite ?len_app; lia).
        replace (Z.to_nat (len data + 2)) with (length data + Z.to_nat 2)%nat
          by (unfold len; lia).
        rewrite drop_app_add. f_equal. lia. }
      by rewrite Hint. }
  pose proof (scan_payload_rest fs cs rest Hfs Hcs Hr) as Hs. fold fuel data in Hs.
  pose proof (scan_payload [] fs cs Hfs Hcs) as Hs0.
  rewrite app_nil_l in Hs0. change (len []) with 0 in Hs0. fold fuel data in Hs0.
  assert (Hb : ∀ m, QRISEditor.build fuel
      {| QRISEditor.raw := data ++ rest; QRISEditor.parser := parser;
         QRISEditor.modifications := m |}
    = QRISEditor.build fuel
        {| QRISEditor.raw := data; QRISEditor.parser := parser;
           QRISEditor.modifications := m |}).
  { intros m. unfold QRISEditor.build. cbn [QRISEditor.raw QRISEditor.modifications].
    by rewrite !build_loop_spec, (scan_prefix_scan _ _ _ _ Hs),
      (scan_prefix_scan _ _ _ _ Hs0), Hs, Hs0. }
  split_and!.
  - by rewrite !_parse_scan, Hs, Hs0.
  - rewrite _parse_scan, Hs. by eexists.
  - apply Hb.
  - rewrite Hb. by apply build_payload.
Qed.

(** ** Composite values that are serializations *)

Lemma first_with_fields tag fs :
  first_with tag (Payload.field_of <$> fs)
  = Payload.field_of <$> head (filter (λ f : str * str, f.1 = tag) fs).
Proof.
  unfold first_with.
  assert (filter (λ f, Field.tag f = tag) (Payload.field_of <$> fs)
          = Payload.field_of <$> filter (λ f : str * str, f.1 = tag) fs) as ->.
  { induction fs as [|f fs IH]; [done|]. rewrite fmap_cons.
    destruct (decide (f.1 = tag)) as [E|E].
    - rewrite !filter_cons_True by done. by rewrite fmap_cons, IH.
    - by rewrite !filter_cons_False by done. }
  by destruct (filter _ fs).
Qed.

Lemma scan_sub_fields subs :
  Forall Walk.sub_field subs →
  scan (S (length subs)) (Payload.serialize subs) 0 = Some (Payload.field_of <$> subs).
Proof.
  intros Hs. pose proof (scan_serialized [] subs [] Hs) as H.
  rewrite app_nil_l, app_nil_r in H. change (len []) with 0 in H.
  rewrite Z.add_0_l in H. apply H, read_field_end.
Qed.

(** X15. The composite accessors on a serialized container.  When the
    value of the container tag is the serialization of sub-fields with
    two-character tags and at most 99 characters each, [nmid] returns the
    value of the first sub-field tagged "02", [acquiring_id] the first 8
    characters of the value of the first sub-field tagged "01", and
    [terminal_id] the value of the first sub-field tagged "07"; each
    returns the empty string when there is no such sub-field, within one
    turn per sub-field and one more. *)
Theorem accessors_read_serialized (self : QRISParser.t) subs :
  Forall Walk.sub_field subs →
  let container := Payload.serialize subs in
  let fuel := S (length subs) in
  let found tag := default [] (Walk.first_value_of tag subs) in
  (subs ≠ [] → QRISParser.get_value self (lit "51") = container →
   QRISParser.nmid fuel self = Some (found (lit "02")))
  ∧ (QRISParser.get_value self (lit "51") = [] →
     QRISParser.get_value self (lit "26") = container →
     QRISParser.nmid fuel self = Some (found (lit "02")))
  ∧ (subs ≠ [] → QRISParser.get_value self (lit "26") = container →
     QRISParser.acquiring_id fuel self = Some (take 8 (found (lit "01"))))
  ∧ (QRISParser.get_value self (lit "26") = [] →
     QRISParser.get_value self (lit "51") = container →
     QRISParser.acquiring_id fuel self = Some (take 8 (found (lit "01"))))
  ∧ (QRISParser.get_value self (lit "62") = container →
     QRISParser.terminal_id fuel self = Some (found (lit "07"))).
Proof.
  intros Hs container fuel found.
  pose proof (scan_sub_fields subs Hs) as Hscan. fold fuel container in Hscan.
  pose proof (scan_prefix_scan _ _ _ _ Hscan) as Hpre.
  assert (Hne : subs ≠ [] → container ≠ []).
  { intros Hn E. destruct subs as [|f subs]; [done|]. subst container.
    rewrite serialize_cons in E. inversion Hs as [|? ? [Ht _]]; subst.
    destruct f as [[|] ?]; done. }
  assert (Hn : QRISParser.nmid_loop fuel container 0 = Some (found (lit "02"))).
  { rewrite nmid_loop_spec, Hpre, Hscan, first_with_fields.
    unfold found, Walk.first_value_of. by destruct (head _). }
  assert (Ha : QRISParser.acquiring_id_loop fuel container 0
               = Some (take 8 (found (lit "01")))).
  { rewrite acquiring_id_loop_spec, Hpre, Hscan, first_with_fields.
    unfold found, Walk.first_value_of. by destruct (head _). }
  assert (Ht : QRISParser.terminal_id_loop fuel container 0 = Some (found (lit "07"))).
  { rewrite terminal_id_loop_spec, Hpre, Hscan, first_with_fields.
    unfold found, Walk.first_value_of. by destruct (head _). }
  split_and!.
  - intros Hsub E. unfold QRISParser.nmid. rewrite E.
    by rewrite bool_decide_eq_false_2 by by apply Hne.
  - intros E51 E26. unfold QRISParser.nmid. rewrite E51, E26.
    by rewrite bool_decide_eq_true_2.
  - intros Hsub E. unfold QRISParser.acquiring_id. rewrite E.
    by rewrite bool_decide_eq_false_2 by by apply Hne.
  - intros E26 E51. unfold QRISParser.acquiring_id. rewrite E26, E51.
    by rewrite bool_decide_eq_true_2.
  - intros E. unfold QRISParser.terminal_id. by rewrite E.
Qed.

(** ** The template *)

Lemma acquiring_id_length fuel self id :
  QRISParser.acquiring_id fuel self = Some id → (length id <= 8)%nat.
Proof.
  unfold QRISParser.acquiring_id. rewrite acquiring_id_loop_spec.
  destruct (first_with _ _) as [f|].
  - intros [= <-]. rewrite length_take. lia.
  - destruct (scan _ _ _); [|done]. intros [= <-]. simpl. lia.
Qed.

(** X16. The id printed in the footer of the template is never empty and
    has at most 8 characters: it is the acquiring id when that is not
    empty, and "00000000" otherwise; it is there exactly when the accessor
    returns. *)
Theorem dicetak_id_never_empty fuel parser :
  (∀ id, TemplateGenerator.dicetak_id fuel parser = Some id →
         id ≠ [] ∧ (length id <= 8)%nat)
  ∧ (QRISParser.acquiring_id fuel parser = Some [] →
     TemplateGenerator.dicetak_id fuel parser = Some (lit "00000000"))
  ∧ (∀ id, id ≠ [] → QRISParser.acquiring_id fuel parser = Some id →
           TemplateGenerator.dicetak_id fuel parser = Some id)
  ∧ (is_Some (TemplateGenerator.dicetak_id fuel parser)
     ↔ is_Some (QRISParser.acquiring_id fuel parser)).
Proof.
  unfold TemplateGenerator.dicetak_id. split_and!.
  - intros id. destruct (QRISParser.acquiring_id fuel parser) as [a|] eqn:E; [|done].
    cbn [mbind option_bind]. case_bool_decide as Ha; intros [= <-].
    + split; [done|]. simpl. lia.
    + split; [done|]. by eapply acquiring_id_length.
  - by intros ->.
  - intros id Hid ->. cbn [mbind option_bind]. by rewrite bool_decide_eq_false_2.
  - destruct (QRISParser.acquiring_id fuel parser); cbn [mbind option_bind];
      split; intros [x Hx]; try done; by eexists.
Qed.

(** X17. [_get_text_position] centres a text: the margin on the left is
    the one on the right or one less, whatever the two widths are; a text
    wider than the template starts left of it; the height is passed on. *)
Theorem text_position_centred text_width y template_width :
  let '(x, y') := TemplateGenerator._get_text_position text_width y template_width in
  let right := template_width - (x + text_width) in
  y' = y
  ∧ (right = x ∨ right = x + 1)
  ∧ (text_width <= template_width ↔ 0 <= x)
  ∧ (template_width < text_width ↔ x < 0).
Proof.
  unfold TemplateGenerator._get_text_position. cbv zeta.
  pose proof (Z.div_mod (template_width - text_width) 2 ltac:(lia)) as Hd.
  pose proof (Z.mod_pos_bound (template_width - text_width) 2 ltac:(lia)) as Hm.
  split_and!; [done | lia | split; lia | split; lia].
Qed.

(** ** Reading the payload from an image *)

Lemma unread_false qr_data :
  Reader.unread qr_data = false → ∃ s, qr_data = Some s ∧ s ≠ [].
Proof.
  destruct qr_data as [s|]; [|done]. simpl. intros H.
  exists s. split; [done|]. by apply bool_decide_eq_false in H.
Qed.

Lemma validate_min_length data :
  (QRCodeHandler.validate_qris data).1 = true →
  50 <= len data ∧ ∃ r, data = lit "000201" ++ r.
Proof.
  unfold QRCodeHandler.validate_qris.
  destruct (Z.ltb_spec (len data) 50); [done|].
  destruct (startswith data (lit "000201")) eqn:E; [|done].
  intros _. split; [done|]. by apply startswith_app.
Qed.

Lemma unread_None : Reader.unread (@None str) = true.
Proof. reflexivity. Qed.

Lemma unread_empty : Reader.unread (@Some str []) = true.
Proof. reflexivity. Qed.

Lemma unread_text (s : str) : s ≠ [] → Reader.unread (@Some str s) = false.
Proof. intros H. cbn [Reader.unread]. by rewrite bool_decide_eq_false_2. Qed.

Ltac reader_run Hs :=
  cbn [Reader.take_decoded Reader.scale_loop];
  repeat (first [ rewrite unread_None | rewrite unread_empty
                | rewrite (unread_text _ Hs) ];
          cbv iota; cbn [Reader.take_decoded Reader.scale_loop]);
  cbn [default from_option id].

(** X18. What [read_from_image] returns.  It raises [FileNotFoundError]
    when the file cannot be read.  Otherwise the variants of the image are
    tried in this order: as read, gray, fixed threshold, adaptive
    threshold, and then the scales 0.5, 1.5 and 2.0.  Among the first four
    the first one with a non-empty text decides, whatever the later ones
    hold; when none of the four has one, the first scale at which the
    decoder finds a symbol decides, and a symbol with an empty text there
    ends the search as well; when nothing is found the function raises.
    The text that decides is returned when the validator accepts it, and
    otherwise the function raises with the validator's reason: no further
    variant is tried.  A returned text is one the decoder gave, is accepted
    by the validator, and so has at least 50 characters and starts with
    "000201". *)
Theorem read_from_image_result image_path :
  Reader.read_from_image image_path None
  = inl (Reader.FileNotFoundError (Reader.cannot_read image_path))
  ∧ ∀ img,
      let early := [Reader.colour img; Reader.gray img; Reader.thresh img;
                    Reader.adaptive img] in
      let scales := [Reader.scaled_0_5 img; Reader.scaled_1_5 img;
                     Reader.scaled_2_0 img] in
      let result := Reader.read_from_image image_path (Some img) in
      let decide (s : str) : Reader.error + str :=
        if (QRCodeHandler.validate_qris s).1 then inr s
        else inl (Reader.ValueError
                    (Reader.not_valid (QRCodeHandler.validate_qris s).2)) in
      let no_text (d : option str) := d = None ∨ d = Some [] in
      (∀ tried s later,
         early = tried ++ Some s :: later → Forall no_text tried → s ≠ [] →
         result = decide s)
      ∧ (Forall no_text early →
         (∀ tried s later,
            scales = tried ++ Some s :: later → Forall (λ d, d = None) tried →
            result = if bool_decide (s = [])
                     then inl (Reader.ValueError Reader.not_recognised)
                     else decide s)
         ∧ (Forall (λ d, d = None) scales →
            result = inl (Reader.ValueError Reader.not_recognised)))
      ∧ (∀ s, result = inr s →
           (QRCodeHandler.validate_qris s).1 = true
           ∧ 50 <= len s ∧ (∃ r, s = lit "000201" ++ r)
           ∧ Some s ∈ early ++ scales).
Proof.
  split; [reflexivity|]. intros img early scales result decide no_text.
  subst result. split_and!.
  - intros tried s later Heq Htried Hs. subst early decide no_text.
    unfold Reader.read_from_image. cbv zeta.
    destruct tried as [|a [|b [|c [|d tried]]]]; cbn [app] in Heq.
    + injection Heq as Hc _. rewrite Hc. reader_run Hs.
      by destruct (QRCodeHandler.validate_qris s) as [[] msg].
    + injection Heq as Hc Hg _. rewrite Hc, Hg.
      inversion_clear Htried as [|? ? Ha _].
      destruct Ha as [->| ->]; reader_run Hs;
        by destruct (QRCodeHandler.validate_qris s) as [[] msg].
    + injection Heq as Hc Hg Ht _. rewrite Hc, Hg, Ht.
      inversion_clear Htried as [|? ? Ha Htried'].
      inversion_clear Htried' as [|? ? Hb _].
      destruct Ha as [->| ->], Hb as [->| ->]; reader_run Hs;
        by destruct (QRCodeHandler.validate_qris s) as [[] msg].
    + injection Heq as Hc Hg Ht Had _. rewrite Hc, Hg, Ht, Had.
      inversion_clear Htried as [|? ? Ha Htried'].
      inversion_clear Htried' as [|? ? Hb Htried''].
      inversion_clear Htried'' as [|? ? Hc' _].
      destruct Ha as [->| ->], Hb as [->| ->], Hc' as [->| ->]; reader_run Hs;
        by destruct (QRCodeHandler.validate_qris s) as [[] msg].
    + exfalso. injection Heq as _ _ _ _ Heq. by destruct tried.
  - intros Hearly. split.
    { intros tried s later Heq Htried. subst early scales decide no_text.
    unfold Reader.read_from_image. cbv zeta.
    inversion_clear Hearly as [|? ? Ha H1]. inversion_clear H1 as [|? ? Hb H2].
    inversion_clear H2 as [|? ? Hc H3]. inversion_clear H3 as [|? ? Hd _].
    assert (Hrun : ∀ q1 q2 q3 q4 : option str,
              (q1 = None ∨ q1 = Some []) → (q2 = None ∨ q2 = Some []) →
              (q3 = None ∨ q3 = Some []) → (q4 = None ∨ q4 = Some []) →
              ∃ q, (q = None ∨ q = Some []) ∧
                   (let qr_data := Reader.take_decoded q1 None in
                    let qr_data := if Reader.unread qr_data
                                   then Reader.take_decoded q2 qr_data else qr_data in
                    let qr_data := if Reader.unread qr_data
                                   then Reader.take_decoded q3 qr_data else qr_data in
                    if Reader.unread qr_data
                    then Reader.take_decoded q4 qr_data else qr_data) = q).
    { intros q1 q2 q3 q4 [->| ->] [->| ->] [->| ->] [->| ->]; cbv zeta;
        eexists; (split; [|reflexivity]); auto. }
    destruct (Hrun _ _ _ _ Ha Hb Hc Hd) as (q & Hq & Hrun'). cbv zeta in Hrun'.
    rewrite Hrun'. clear Hrun Hrun'.
    assert (Hu : Reader.unread q = true) by by destruct Hq as [->| ->].
    rewrite Hu.
    destruct tried as [|x [|y [|z tried]]]; cbn [app] in Heq.
    + injection Heq as H5 _. rewrite H5. cbn [Reader.scale_loop].
      cbn [Reader.unread default from_option id]. case_bool_decide; [done|].
      by destruct (QRCodeHandler.validate_qris s) as [[] msg].
    + injection Heq as H5 H6 _. inversion_clear Htried as [|? ? Hx _]. rewrite Hx in H5.
      rewrite H5, H6. cbn [Reader.scale_loop].
      cbn [Reader.unread default from_option id]. case_bool_decide; [done|].
      by destruct (QRCodeHandler.validate_qris s) as [[] msg].
    + injection Heq as H5 H6 H7 _. inversion_clear Htried as [|? ? Hx Htried'].
      inversion_clear Htried' as [|? ? Hy _]. rewrite Hx in H5. rewrite Hy in H6.
      rewrite H5, H6, H7. cbn [Reader.scale_loop].
      cbn [Reader.unread default from_option id]. case_bool_decide; [done|].
      by destruct (QRCodeHandler.validate_qris s) as [[] msg].
    + exfalso. injection Heq as _ _ _ Heq. by destruct tried. }
    intros Hscales. subst early scales decide no_text.
    inversion_clear Hearly as [|? ? Ha H1]. inversion_clear H1 as [|? ? Hb H2].
    inversion_clear H2 as [|? ? Hc H3]. inversion_clear H3 as [|? ? Hd _].
    inversion_clear Hscales as [|? ? H5 H1]. inversion_clear H1 as [|? ? H6 H2].
    inversion_clear H2 as [|? ? H7 _].
    destruct Ha as [Ha|Ha], Hb as [Hb|Hb], Hc as [Hc|Hc], Hd as [Hd|Hd];
      unfold Reader.read_from_image; cbv zeta;
      rewrite Ha, Hb, Hc, Hd, H5, H6, H7; reflexivity.
  - intros s. unfold Reader.read_from_image. cbv zeta.
    set (q1 := Reader.take_decoded (Reader.colour img) None).
    set (q2 := if Reader.unread q1 then _ else q1).
    set (q3 := if Reader.unread q2 then _ else q2).
    set (q4 := if Reader.unread q3 then _ else q3).
    set (q5 := if Reader.unread q4 then _ else q4).
    destruct (Reader.unread q5) eqn:E5; [done|].
    destruct (unread_false _ E5) as (t & Hq5 & Ht). rewrite Hq5.
    cbn [default from_option id].
    destruct (QRCodeHandler.validate_qris t) as [ok msg] eqn:Ev.
    destruct ok; [|discriminate]. intros [= <-].
    assert (Hv : (QRCodeHandler.validate_qris t).1 = true) by by rewrite Ev.
    split; [done|]. destruct (validate_min_length _ Hv) as [? ?].
    split_and!; [done..|].
    assert (Hstage : ∀ d q, (if Reader.unread q then Reader.take_decoded d q else q)
                            = Some t → d = Some t ∨ q = Some t).
    { intros d q. destruct (Reader.unread q); [|by right].
      destruct d; simpl; [by left | by right]. }
    assert (Hloop : ∀ l q, Reader.scale_loop l q = Some t → Some t ∈ l ∨ q = Some t).
    { intros l q. induction l as [|[u|] l IH]; simpl.
      - by right.
      - intros [= ->]. left. apply elem_of_cons. by left.
      - intros [Hl|Hq]%IH; [left; apply elem_of_cons; by right | by right]. }
    subst early scales. cbn [app]. rewrite !elem_of_cons.
    assert (H5 : Some t ∈ [Reader.scaled_0_5 img; Reader.scaled_1_5 img;
                           Reader.scaled_2_0 img] ∨ q4 = Some t).
    { subst q5. destruct (Reader.unread q4); [by apply Hloop | by right]. }
    assert (Hpick : ∀ d, d = Some t → Some t = d) by done.
    destruct H5 as [H5|H4].
    { rewrite !elem_of_cons in H5.
      destruct H5 as [E|[E|[E|E]]]; [tauto..|by apply elem_of_nil in E]. }
    apply Hstage in H4 as [H4%Hpick|H3]; [tauto|].
    apply Hstage in H3 as [H3%Hpick|H2]; [tauto|].
    apply Hstage in H2 as [H2%Hpick|H1]; [tauto|].
    subst q1. destruct (Reader.colour img); [left; by symmetry | done].
Qed.

(** ** The entries of a document *)

Lemma scan_prefix_read k data pos f :
  f ∈ scan_prefix k data pos →
  ∃ n p, Walk.cursor_after n data pos = Some p ∧ read_field data p = Some f.
Proof.
  revert pos. induction k as [|k IH]; intros pos; simpl; [by intros ?%elem_of_nil|].
  destruct (read_field data pos) as [g|] eqn:E; [|by intros ?%elem_of_nil].
  intros [->|H]%elem_of_cons.
  - by exists 0%nat, pos.
  - destruct (IH _ H) as (n & p & Hc & Hr). exists (S n), p. simpl. by rewrite E.
Qed.

Lemma cursor_after_nonneg n data pos p :
  (∀ k f, f ∈ scan_prefix k data pos → 0 <= Field.length f) →
  0 <= pos → Walk.cursor_after n data pos = Some p → 0 <= p.
Proof.
  revert pos. induction n as [|n IH]; intros pos Hnn Hpos; simpl.
  - by intros [= <-].
  - destruct (read_field data pos) as [f|] eqn:E; [|done].
    assert (0 <= Field.length f) as Hf.
    { apply (Hnn 1%nat). simpl. rewrite E. apply elem_of_cons. by left. }
    apply IH; [|unfold next_pos; lia].
    intros k g Hg. apply (Hnn (S k)). simpl. rewrite E. apply elem_of_cons. by right.
Qed.

Lemma slice_len_le s i j : i <= j → len (slice s i j) <= j - i.
Proof.
  intros Hij. unfold slice, len. rewrite length_take.
  pose proof (len_nonneg s) as Hs. unfold len in Hs.
  pose proof (clamp_range (Z.of_nat (length s)) i Hs).
  pose proof (clamp_range (Z.of_nat (length s)) j Hs).
  assert (clamp (Z.of_nat (length s)) j - clamp (Z.of_nat (length s)) i <= j - i)
    by (apply clamp_mono; lia).
  lia.
Qed.

Lemma slice_two s p : 0 <= p → p + 2 <= len s → length (slice s p (p + 2)) = 2%nat.
Proof.
  intros Hp Hl. rewrite slice_inside by lia.
  rewrite length_take, length_drop. unfold len in *. lia.
Qed.

(** X19. Every entry of a parsed document carries its own key as tag and
    the name of the tag table (or "Unknown Tag" and the tag); its length
    is a number [int()] gives for two characters, from -9 to 99; tag and
    value are made of characters of the string; the value has at most as
    many characters as the length says when that is not negative.  When no
    length read is negative, every key has exactly two characters and each
    entry is a field of the string: tag, length and value stand at a
    cursor position. *)
Theorem parse_document_invariant fuel data d tag e :
  QRISParser._parse fuel data 0 ∅ = Some d → d !! tag = Some e →
  Entry.tag e = tag
  ∧ Entry.name e = default (lit "Unknown Tag " ++ tag) (QRISParser.TAGS !! tag)
  ∧ -9 <= Entry.length e <= 99
  ∧ (length tag <= 2)%nat
  ∧ (0 <= Entry.length e → len (Entry.value e) <= Entry.length e)
  ∧ (∀ c, c ∈ tag ∨ c ∈ Entry.value e → c ∈ data)
  ∧ ((∀ n f, f ∈ scan_prefix n data 0 → 0 <= Field.length f) →
     length tag = 2%nat
     ∧ ∃ pos, 0 <= pos ∧ pos + 4 <= len data
         ∧ tag = slice data pos (pos + 2)
         ∧ py_int (slice data (pos + 2) (pos + 4)) = Some (Entry.length e)
         ∧ Entry.value e = slice data (pos + 4) (pos + 4 + Entry.length e)).
Proof.
  rewrite _parse_scan. destruct (scan fuel data 0) as [fs|] eqn:Hs; [|done].
  intros [= <-]. rewrite store_lookup, lookup_empty.
  destruct (last_with tag fs) as [f|] eqn:El; [|done]. intros [= <-].
  unfold last_with in El. apply last_Some_elem_of, list_elem_of_filter in El as [Ht Hin].
  rewrite <- (scan_prefix_scan _ _ _ _ Hs) in Hin.
  destruct (scan_prefix_read _ _ _ _ Hin) as (n & p & Hc & Hr).
  pose proof (read_field_length _ _ _ Hr) as Hlen.
  apply read_field_inv in Hr as (Hp & Hint & Htag & Hval).
  unfold entry_of. cbn [Entry.tag Entry.name Entry.length Entry.value].
  rewrite Ht. split_and!; try done; try lia.
  - rewrite <- Ht, Htag. apply slice_length_le.
  - intros Hnn. rewrite Hval.
    pose proof (slice_len_le data (p + 4) (p + 4 + Field.length f) ltac:(lia)). lia.
  - intros c [Hc'|Hc'].
    + rewrite <- Ht, Htag in Hc'. by eapply slice_elem.
    + rewrite Hval in Hc'. by eapply slice_elem.
  - intros Hnn. pose proof (cursor_after_nonneg _ _ _ _ Hnn ltac:(done) Hc) as Hp0.
    split.
    + rewrite <- Ht, Htag. apply slice_two; lia.
    + exists p. by rewrite <- Ht.
Qed.

(** A length that reads as a negative number counts from the end of the
    string, as a slice bound does: the field then has a value although its
    length is below zero, and the cursor steps back to a place where the
    tag is empty. *)
Lemma negative_length_keeps_value :
  scan 4 (lit "00-6ABCDEFGHIJ") 0
  = Some [{| Field.tag := lit "00"; Field.length := -6; Field.value := lit "ABCDEFGH" |};
          {| Field.tag := []; Field.length := 0; Field.value := [] |}].
Proof. vm_compute. reflexivity. Qed.

(** ** The edit session of [main] *)

Lemma edited_session editor new_name new_city new_postal :
  Main.edited editor new_name new_city new_postal
  = foldl Edit.apply editor
      [Edit.SetMerchantName new_name; Edit.SetMerchantCity new_city;
       Edit.SetPostalCode new_postal].
Proof.
  unfold Main.edited. cbn [foldl Edit.apply].
  unfold QRISEditor.set_merchant_name, QRISEditor.set_merchant_city,
    QRISEditor.set_postal_code.
  by repeat case_bool_decide.
Qed.

Lemma edited_inv raw parser n c p :
  let self := Main.edited {| QRISEditor.raw := raw; QRISEditor.parser := parser;
                             QRISEditor.modifications := ∅ |} n c p in
  QRISEditor.raw self = raw
  ∧ QRISEditor.modifications self !! lit "59" = (if bool_decide (n = []) then None else Some n)
  ∧ QRISEditor.modifications self !! lit "60" = (if bool_decide (c = []) then None else Some c)
  ∧ QRISEditor.modifications self !! lit "61" = (if bool_decide (p = []) then None else Some p)
  ∧ (∀ tag, tag ≠ lit "59" → tag ≠ lit "60" → tag ≠ lit "61" →
            QRISEditor.modifications self !! tag = None).
Proof.
  unfold Main.edited, QRISEditor.set_merchant_name, QRISEditor.set_merchant_city,
    QRISEditor.set_postal_code, QRISEditor.set_modification.
  destruct (bool_decide (n = [])), (bool_decide (c = [])), (bool_decide (p = []));
    cbn [QRISEditor.raw QRISEditor.parser QRISEditor.modifications];
    split_and!; try reflexivity;
    try (intros tag H1 H2 H3);
    repeat first [ rewrite lookup_insert_eq | rewrite lookup_insert_ne by done
                 | rewrite lookup_empty ];
    reflexivity.
Qed.

Lemma valid_checksum_last fs cs c :
  length cs = 4%nat →
  (QRCodeHandler.validate_qris (Payload.payload fs cs)).1 = true →
  last cs = Some c → is_space c = false.
Proof.
  intros Hcs Hv Hl.
  destruct (validate_accepts_inv (Payload.serialize fs) cs Hcs Hv) as [_ Hup].
  destruct (checksum_hex (Payload.serialize fs ++ lit "6304")) as [_ Hhex].
  apply (upper_same_hex _ _ Hhex) in Hup.
  apply last_Some in Hl as [l ->].
  apply Forall2_app_inv_l in Hup as (k1 & k2 & _ & H2 & Hk).
  inversion H2 as [|? d ? ? Hsame _]; subst.
  apply (same_hex_not_space c d); [|done].
  rewrite Forall_forall in Hhex. apply Hhex. rewrite Hk.
  apply elem_of_app. right. apply elem_of_cons. by left.
Qed.

Lemma accessors_depend_on_containers fuel p q :
  (∀ tag, tag ∈ [lit "26"; lit "51"; lit "62"] →
          QRISParser.data p !! tag = QRISParser.data q !! tag) →
  QRISParser.nmid fuel p = QRISParser.nmid fuel q
  ∧ QRISParser.acquiring_id fuel p = QRISParser.acquiring_id fuel q
  ∧ QRISParser.terminal_id fuel p = QRISParser.terminal_id fuel q.
Proof.
  intros H.
  assert (H26 : QRISParser.get_value p (lit "26") = QRISParser.get_value q (lit "26")).
  { unfold QRISParser.get_value. rewrite H; [done|]. apply elem_of_cons. by left. }
  assert (H51 : QRISParser.get_value p (lit "51") = QRISParser.get_value q (lit "51")).
  { unfold QRISParser.get_value. rewrite H; [done|].
    apply elem_of_cons. right. apply elem_of_cons. by left. }
  assert (H62 : QRISParser.get_value p (lit "62") = QRISParser.get_value q (lit "62")).
  { unfold QRISParser.get_value. rewrite H; [done|].
    do 2 (apply elem_of_cons; right). apply elem_of_cons. by left. }
  unfold QRISParser.nmid, QRISParser.acquiring_id, QRISParser.terminal_id.
  by rewrite H26, H51, H62.
Qed.

Lemma display_info_is_Some fuel p q :
  (∀ tag, tag ∈ [lit "26"; lit "51"; lit "62"] →
          QRISParser.data p !! tag = QRISParser.data q !! tag) →
  is_Some (QRISParser.display_info fuel p) → is_Some (QRISParser.display_info fuel q).
Proof.
  intros H. destruct (accessors_depend_on_containers fuel p q H) as (Hn & Ha & Ht).
  unfold QRISParser.display_info, QRISParser.get_info. rewrite Hn, Ha, Ht.
  destruct (QRISParser.nmid fuel q); cbn [mbind option_bind]; [|by intros [? ?]].
  destruct (QRISParser.terminal_id fuel q); cbn [mbind option_bind]; [|by intros [? ?]].
  destruct (QRISParser.acquiring_id fuel q); cbn [mbind option_bind]; [|by intros [? ?]].
  intros _. by eexists.
Qed.

Lemma override_within_limits mods fs :
  Forall Payload.well_formed fs →
  (∀ tag v, mods !! tag = Some v → len v <= QRISEditor.max_len tag) →
  Forall Payload.well_formed (Walk.override mods fs).
Proof.
  intros Hfs Hm. unfold Walk.override. rewrite Forall_fmap.
  eapply Forall_impl; [exact Hfs|]. intros f (Ht & H63 & Hl).
  split_and!; [done..|]. simpl. destruct (mods !! f.1) as [v|] eqn:E; [|done].
  simpl. by apply Hm.
Qed.

(** The edit session of [main] when [display_info] has returned on the
    document of the payload.  When the three lines typed are blank,
    nothing is built.  Otherwise, with the stripped lines within 25, 15
    and 5 characters, [main] builds the payload with the non-blank lines
    in place of the values of tags "59", "60" and "61", parses it again,
    and the new document shows each non-blank line under its tag when the
    payload has that tag, and the entry of the original everywhere else
    but under the checksum. *)
Lemma main_edit_session fs cs fuel parser name city postal :
  Forall Payload.well_formed fs → length cs = 4%nat →
  Forall (λ f : str * str, Walk.numeric f.1) fs →
  let qris_data := Payload.payload fs cs in
  let new_name := strip name in
  let new_city := strip city in
  let new_postal := strip postal in
  (QRCodeHandler.validate_qris qris_data).1 = true →
  (S (S (length fs)) <= fuel)%nat →
  QRISParser.init fuel qris_data = Some parser →
  is_Some (QRISParser.display_info fuel parser) →
  len new_name <= 25 → len new_city <= 15 → len new_postal <= 5 →
  (new_name = [] → new_city = [] → new_postal = [] →
   Main.main fuel qris_data name city postal = Returned Main.NoChange)
  ∧ (¬ (new_name = [] ∧ new_city = [] ∧ new_postal = []) →
     let mods :=
       QRISEditor.modifications
         (Main.edited {| QRISEditor.raw := qris_data; QRISEditor.parser := parser;
                         QRISEditor.modifications := ∅ |}
            new_name new_city new_postal) in
     let fs' := Walk.override mods fs in
     let new_qris :=
       Payload.payload fs'
         (QRISEditor._calculate_checksum (Payload.serialize fs' ++ lit "6304")) in
     ∃ new_parser,
       Main.main fuel qris_data name city postal
       = Returned (Main.Edited new_qris new_parser)
       ∧ QRISParser.raw new_parser = new_qris
       ∧ (∀ tag v, (tag, v) ∈ [(lit "59", new_name); (lit "60", new_city);
                               (lit "61", new_postal)] →
            (v ≠ [] → tag ∈ fs.*1 → QRISParser.get_value new_parser tag = v)
            ∧ (v = [] ∨ tag ∉ fs.*1 →
               QRISParser.get_value new_parser tag = QRISParser.get_value parser tag))
       ∧ (∀ tag, tag ≠ lit "59" → tag ≠ lit "60" → tag ≠ lit "61" → tag ≠ lit "63" →
            QRISParser.data new_parser !! tag = QRISParser.data parser !! tag)).
Proof.
  intros Hfs Hcs Hnum qris_data new_name new_city new_postal Hv Hk Hinit Hshown Hn Hc Hp.
  assert (Hlast : ∀ c, last cs = Some c → is_space c = false).
  { intros c. by apply (valid_checksum_last fs cs c). }
  pose proof (init_payload fs cs fuel Hfs Hcs Hnum Hlast Hk) as Hinit'.
  fold qris_data in Hinit'. rewrite Hinit in Hinit'. injection Hinit' as Hparser.
  assert (Hstrip : strip qris_data = qris_data).
  { apply strip_payload; [|done|done].
    rewrite Forall_forall in *. intros f Hf. split; [apply (Hfs f Hf)|by apply Hnum]. }
  destruct Hshown as [shown Hshown].
  split.
  - intros E1 E2 E3. unfold Main.main. rewrite Hinit, Hshown. cbv zeta.
    fold new_name new_city new_postal.
    by rewrite !bool_decide_eq_true_2 by done.
  - intros Hne mods fs' new_qris.
    pose proof (edited_inv qris_data parser new_name new_city new_postal) as Hinv.
    cbv zeta in Hinv. fold mods in Hinv.
    destruct Hinv as (Hraw & H59 & H60 & H61 & Hother).
    assert (Hlim : ∀ tag v, mods !! tag = Some v → len v <= QRISEditor.max_len tag).
    { intros tag v Hm.
      destruct (decide (tag = lit "59")) as [->|N59].
      { rewrite H59 in Hm. case_bool_decide; [done|]. by injection Hm as <-. }
      destruct (decide (tag = lit "60")) as [->|N60].
      { rewrite H60 in Hm. case_bool_decide; [done|]. by injection Hm as <-. }
      destruct (decide (tag = lit "61")) as [->|N61].
      { rewrite H61 in Hm. case_bool_decide; [done|]. by injection Hm as <-. }
      by rewrite Hother in Hm. }
    pose proof (override_within_limits mods fs Hfs Hlim) as Ho. fold fs' in Ho.
    set (cs' := QRISEditor._calculate_checksum (Payload.serialize fs' ++ lit "6304")).
    assert (Hcs' : length cs' = 4%nat) by apply checksum_hex.
    assert (Hnum' : Forall (λ f : str * str, Walk.numeric f.1) fs').
    { eapply Forall_impl; [by apply override_numeric|]. by intros f [_ ?]. }
    assert (Hk' : (S (S (length fs')) <= fuel)%nat).
    { subst fs'. by rewrite override_length. }
    pose proof (init_payload fs' cs' fuel Ho Hcs' Hnum' (checksum_last _) Hk') as Hnew.
    set (new_parser := {| QRISParser.raw := Payload.payload fs' cs';
                          QRISParser.data := store ∅ ((Payload.field_of <$> fs')
                                                       ++ [Payload.checksum_field cs']) |})
      in Hnew.
    assert (Hsame : ∀ tag, mods !! tag = None → tag ≠ lit "63" →
                      QRISParser.data new_parser !! tag = QRISParser.data parser !! tag).
    { intros tag Hm Ht. rewrite Hparser. cbn [QRISParser.data].
      by apply lookup_override_none. }
    exists new_parser. split_and!.
    + unfold Main.main. rewrite Hinit, Hshown. cbv zeta.
      fold new_name new_city new_postal.
      assert (bool_decide (new_name = []) && bool_decide (new_city = [])
              && bool_decide (new_postal = []) = false) as ->.
      { repeat case_bool_decide; try done. by destruct Hne. }
      unfold QRISEditor.init. rewrite Hstrip, Hinit. cbn [mbind option_bind].
      set (self := Main.edited _ _ _ _) in *.
      assert (QRISEditor.build fuel self = Returned new_qris) as ->.
      { destruct self as [r pa m]. cbn [QRISEditor.raw] in Hraw. subst r.
        by apply build_override. }
      fold cs' in new_qris. subst new_qris. rewrite Hnew.
      assert (is_Some (QRISParser.display_info fuel new_parser)) as [shown' ->]; [|done].
      apply (display_info_is_Some fuel parser); [|by exists shown].
      intros tag Htag. symmetry. rewrite !elem_of_cons in Htag.
      apply Hsame.
      * apply Hother; destruct Htag as [->|[->|[->|Htag]]]; try done;
          by apply elem_of_nil in Htag.
      * destruct Htag as [->|[->|[->|Htag]]]; try done; by apply elem_of_nil in Htag.
    + done.
    + intros tag v Hin. rewrite !elem_of_cons in Hin.
      assert (mods !! tag = (if bool_decide (v = []) then None else Some v)
              ∧ tag ≠ lit "63") as [Hm Ht].
      { destruct Hin as [[= -> ->]|[[= -> ->]|[[= -> ->]|Hin]]]; try done.
        by apply elem_of_nil in Hin. }
      split.
      * intros Hv' Hin'. rewrite bool_decide_eq_false_2 in Hm by done.
        unfold QRISParser.get_value, new_parser. cbn [QRISParser.data]. subst fs'.
        by rewrite (lookup_override_some mods fs cs' tag v Hfs Hm Hin').
      * intros [Hv'|Hab].
        -- rewrite bool_decide_eq_true_2 in Hm by done.
           unfold QRISParser.get_value. by rewrite (Hsame tag Hm Ht).
        -- unfold QRISParser.get_value, new_parser. rewrite Hparser.
           cbn [QRISParser.data]. rewrite !lookup_absent; try done.
           subst fs'. by rewrite override_tags.
    + intros tag N59 N60 N61 N63. apply Hsame; [|done]. by apply Hother.
Qed.

Lemma init_det k1 k2 s p1 p2 :
  QRISParser.init k1 s = Some p1 → QRISParser.init k2 s = Some p2 → p1 = p2.
Proof.
  unfold QRISParser.init. rewrite !_parse_scan.
  destruct (scan k1 (strip s) 0) as [fs1|] eqn:E1; [|done].
  destruct (scan k2 (strip s) 0) as [fs2|] eqn:E2; [|done].
  cbn [fmap option_fmap option_map mbind option_bind].
  intros [= <-] [= <-]. by rewrite (scan_det _ _ _ _ _ _ E1 E2).
Qed.

(** When [display_info] does not return on the document of the payload,
    [main] does not get to its prompts. *)
Lemma main_hangs fuel qris_data parser :
  QRISParser.init fuel qris_data = Some parser →
  (∀ k, QRISParser.display_info k parser = None) →
  ∀ k name city postal, Main.main k qris_data name city postal = OutOfFuel.
Proof.
  intros Hi Hd k name city postal. unfold Main.main.
  destruct (QRISParser.init k qris_data) as [p|] eqn:E; [|done].
  rewrite (init_det _ _ _ _ _ E Hi). by rewrite Hd.
Qed.

Lemma scan_prefix_stuck data pos f k :
  read_field data pos = Some f → Field.length f = -4 →
  scan_prefix k data pos = replicate k f.
Proof.
  intros E Hl. induction k as [|k IH]; [done|].
  cbn [scan_prefix replicate]. rewrite E. unfold next_pos. rewrite Hl.
  replace (pos + 4 + -4) with pos by lia. by rewrite IH.
Qed.

Lemma nmid_loop_stuck data f :
  read_field data 0 = Some f → Field.length f = -4 → Field.tag f ≠ lit "02" →
  ∀ k, QRISParser.nmid_loop k data 0 = None.
Proof.
  intros E Hl Ht k. rewrite nmid_loop_spec, (scan_prefix_stuck _ _ _ _ E Hl).
  rewrite first_with_absent.
  - by rewrite (scan_stuck _ _ _ E Hl).
  - intros g Hg. apply elem_of_replicate in Hg as [-> _]. done.
Qed.

(** [display_info] returns when the values its accessors scan hold no
    negative length and the budget covers them. *)
Lemma display_info_returns fuel (self : QRISParser.t) :
  (∀ tag, tag ∈ [lit "26"; lit "51"; lit "62"] →
     (S (S (length (QRISParser.get_value self tag))) <= fuel)%nat
     ∧ ∀ n f, f ∈ scan_prefix n (QRISParser.get_value self tag) 0 →
              0 <= Field.length f) →
  is_Some (QRISParser.display_info fuel self).
Proof.
  intros H.
  assert (Hin : ∀ tag, tag ∈ [lit "26"; lit "51"; lit "62"] →
            ∃ fs, scan fuel (QRISParser.get_value self tag) 0 = Some fs).
  { intros tag Ht. destruct (H tag Ht) as [Hk Hnn].
    destruct (scan_stops _ Hnn) as [fs Hs]. exists fs.
    replace fuel with (S (S (length (QRISParser.get_value self tag)))
                       + (fuel - S (S (length (QRISParser.get_value self tag)))))%nat
      by lia.
    by apply scan_more. }
  destruct (Hin (lit "26")) as [fs26 H26]; [apply elem_of_cons; by left|].
  destruct (Hin (lit "51")) as [fs51 H51];
    [apply elem_of_cons; right; apply elem_of_cons; by left|].
  destruct (Hin (lit "62")) as [fs62 H62];
    [do 2 (apply elem_of_cons; right); apply elem_of_cons; by left|].
  assert (Hn : is_Some (QRISParser.nmid fuel self)).
  { unfold QRISParser.nmid. cbv zeta. rewrite nmid_loop_spec.
    case_bool_decide.
    - rewrite H26. destruct (first_with _ _); by eexists.
    - rewrite H51. destruct (first_with _ _); by eexists. }
  assert (Ha : is_Some (QRISParser.acquiring_id fuel self)).
  { unfold QRISParser.acquiring_id. cbv zeta. rewrite acquiring_id_loop_spec.
    case_bool_decide.
    - rewrite H51. destruct (first_with _ _); by eexists.
    - rewrite H26. destruct (first_with _ _); by eexists. }
  assert (Ht : is_Some (QRISParser.terminal_id fuel self)).
  { unfold QRISParser.terminal_id. rewrite terminal_id_loop_spec.
    rewrite H62. destruct (first_with _ _); by eexists. }
  unfold QRISParser.display_info, QRISParser.get_info.
  destruct Hn as [n ->], Ht as [t ->], Ha as [a ->]. cbn [mbind option_bind].
  by eexists.
Qed.

(** X20. The edit session of [main] on a payload read from an image (so
    accepted by the validator) that is a serialization of fields with
    numeric tags.  [main] shows the document before it asks anything: when
    [display_info] does not return on it, [main] does not return either,
    whatever is typed and whatever the budget; [display_info] returns when
    no sub-field length read in the values of tags "26", "51" and "62" is
    negative.  When it returns and the three lines typed are blank,
    nothing is built.  When it returns and some line is not blank, with
    the stripped lines within 25, 15 and 5 characters, [main] builds the
    payload with the non-blank lines in place of the values of tags "59",
    "60" and "61", parses it again, and the new document shows each
    non-blank line under its tag when the payload has that tag, and the
    entry of the original everywhere else but under the checksum. *)
Theorem main_edits_payload fs cs fuel parser name city postal :
  Forall Payload.well_formed fs → length cs = 4%nat →
  Forall (λ f : str * str, Walk.numeric f.1) fs →
  let qris_data := Payload.payload fs cs in
  let new_name := strip name in
  let new_city := strip city in
  let new_postal := strip postal in
  (QRCodeHandler.validate_qris qris_data).1 = true →
  (S (S (length fs)) <= fuel)%nat →
  QRISParser.init fuel qris_data = Some parser →
  ((∀ k, QRISParser.display_info k parser = None) →
   ∀ k name' city' postal',
     Main.main k qris_data name' city' postal' = OutOfFuel)
  ∧ (QRISParser.display_info fuel parser = None →
     Main.main fuel qris_data name city postal = OutOfFuel)
  ∧ ((∀ tag, tag ∈ [lit "26"; lit "51"; lit "62"] →
        (S (S (length (QRISParser.get_value parser tag))) <= fuel)%nat
        ∧ ∀ n f, f ∈ scan_prefix n (QRISParser.get_value parser tag) 0 →
                 0 <= Field.length f) →
     is_Some (QRISParser.display_info fuel parser))
  ∧ (is_Some (QRISParser.display_info fuel parser) →
     (new_name = [] → new_city = [] → new_postal = [] →
      Main.main fuel qris_data name city postal = Returned Main.NoChange)
     ∧ (¬ (new_name = [] ∧ new_city = [] ∧ new_postal = []) →
        len new_name <= 25 → len new_city <= 15 → len new_postal <= 5 →
        let mods :=
          QRISEditor.modifications
            (Main.edited {| QRISEditor.raw := qris_data; QRISEditor.parser := parser;
                            QRISEditor.modifications := ∅ |}
               new_name new_city new_postal) in
        let fs' := Walk.override mods fs in
        let new_qris :=
          Payload.payload fs'
            (QRISEditor._calculate_checksum (Payload.serialize fs' ++ lit "6304")) in
        ∃ new_parser,
          Main.main fuel qris_data name city postal
          = Returned (Main.Edited new_qris new_parser)
          ∧ QRISParser.raw new_parser = new_qris
          ∧ (∀ tag v, (tag, v) ∈ [(lit "59", new_name); (lit "60", new_city);
                                  (lit "61", new_postal)] →
               (v ≠ [] → tag ∈ fs.*1 → QRISParser.get_value new_parser tag = v)
               ∧ (v = [] ∨ tag ∉ fs.*1 →
                  QRISParser.get_value new_parser tag
                  = QRISParser.get_value parser tag))
          ∧ (∀ tag, tag ≠ lit "59" → tag ≠ lit "60" → tag ≠ lit "61" →
               tag ≠ lit "63" →
               QRISParser.data new_parser !! tag = QRISParser.data parser !! tag))).
Proof.
  intros Hfs Hcs Hnum qris_data new_name new_city new_postal Hv Hk Hinit.
  split_and!.
  - intros Hd. by apply (main_hangs fuel qris_data parser).
  - intros Hd. unfold Main.main. by rewrite Hinit, Hd.
  - apply display_info_returns.
  - intros [shown Hshown]. split.
    + intros E1 E2 E3. unfold Main.main. rewrite Hinit, Hshown. cbv zeta.
      fold new_name new_city new_postal.
      by rewrite !bool_decide_eq_true_2 by done.
    + intros Hne Hn Hc Hp.
      pose proof (main_edit_session fs cs fuel parser name city postal
                    Hfs Hcs Hnum) as T.
      cbv zeta in T. fold qris_data new_name new_city new_postal in T.
      destruct (T Hv Hk Hinit (ex_intro _ shown Hshown) Hn Hc Hp) as [_ H].
      exact (H Hne).
Qed.

(** A payload that the validator accepts and on which [main] never gets
    to its prompts: the value of tag "26" is "00-4", a sub-field whose
    length reads as -4. *)
Lemma main_hangs_in_display_info :
  let fs := [(lit "00", lit "01"); (lit "01", lit "11"); (lit "26", lit "00-4");
             (lit "59", lit "Warung Sejahtera"); (lit "60", lit "JAKARTA");
             (lit "58", lit "ID")] in
  let qris_data := Payload.payload fs (lit "6A07") in
  qris_data = lit "000201010211260400-45916Warung Sejahtera6007JAKARTA5802ID63046A07"
  ∧ (QRCodeHandler.validate_qris qris_data).1 = true
  ∧ ∀ k name city postal, Main.main k qris_data name city postal = OutOfFuel.
Proof.
  intros fs qris_data.
  assert (Hi : is_Some (QRISParser.init 8 qris_data)) by (vm_compute; by eexists).
  destruct Hi as [parser Hi].
  split_and!; [reflexivity | by vm_compute |].
  apply (main_hangs 8 qris_data parser Hi). intros k.
  assert (H26 : QRISParser.get_value parser (lit "26") = lit "00-4"
                ∧ QRISParser.get_value parser (lit "51") = []).
  { vm_compute in Hi. apply (inj Some) in Hi. subst parser. by vm_compute. }
  destruct H26 as [H26 H51].
  unfold QRISParser.display_info, QRISParser.get_info, QRISParser.nmid. cbv zeta.
  rewrite H51, H26. rewrite bool_decide_eq_true_2 by done.
  by rewrite (nmid_loop_stuck (lit "00-4")
                {| Field.tag := lit "00"; Field.length := -4; Field.value := [] |}).
Qed.

(** ** The lines of [display_info] *)

Lemma ljust_length width s :
  (length s <= width)%nat → length (ljust width s) = width.
Proof. intros H. unfold ljust. rewrite length_app, length_replicate. lia. Qed.

(** X21. The layout of [display_info].  Between three lines of heading
    and four lines of footing it prints one line for each of the ten items
    with a non-empty value, so between 7 and 17 lines.  Each item line is
    two spaces, the label in a field of exactly 20 characters (none of the
    ten labels is longer), a colon and a space, and then the value, which
    so starts in the same column on every line.  The raw string is the
    line before the last, after two spaces. *)
Theorem display_info_layout fuel self lines :
  QRISParser.display_info fuel self = Some lines →
  ∃ info shown,
    QRISParser.get_info fuel self = Some info
    ∧ shown = filter (λ kv : str * str, kv.2 ≠ []) info
    ∧ length lines = (7 + length shown)%nat
    ∧ (7 <= length lines <= 17)%nat
    ∧ (∀ i kv, shown !! i = Some kv →
         ∃ line, lines !! (3 + i)%nat = Some line
                 ∧ take 2 line = lit "  "
                 ∧ take (length kv.1) (drop 2 line) = kv.1
                 ∧ (length kv.1 <= 20)%nat
                 ∧ take 2 (drop 22 line) = lit ": "
                 ∧ drop 24 line = kv.2
                 ∧ kv.2 ≠ [])
    ∧ lines !! (5 + length shown)%nat = Some (lit "  " ++ QRISParser.raw self).
Proof.
  unfold QRISParser.display_info.
  destruct (QRISParser.get_info fuel self) as [info|] eqn:Hi; [|done].
  cbn [mbind option_bind]. intros H. apply (inj Some) in H. subst lines.
  exists info, (filter (λ kv : str * str, kv.2 ≠ []) info).
  rewrite info_lines_filter.
  set (shown := filter (λ kv : str * str, kv.2 ≠ []) info).
  assert (Hlabels : Forall (λ kv : str * str, (length kv.1 <= 20)%nat) info).
  { unfold QRISParser.get_info in Hi.
    destruct (QRISParser.nmid fuel self); [|done].
    destruct (QRISParser.terminal_id fuel self); [|done].
    destruct (QRISParser.acquiring_id fuel self); [|done].
    cbn [mbind option_bind] in Hi. injection Hi as <-.
    repeat constructor; vm_compute; by intros [=]. }
  assert (Hten : length info = 10%nat).
  { unfold QRISParser.get_info in Hi.
    destruct (QRISParser.nmid fuel self); [|done].
    destruct (QRISParser.terminal_id fuel self); [|done].
    destruct (QRISParser.acquiring_id fuel self); [|done].
    cbn [mbind option_bind] in Hi. by injection Hi as <-. }
  assert (Hshown : (length shown <= 10)%nat).
  { rewrite <- Hten. apply length_filter. }
  unfold str in *.
  match goal with |- context [length ?l = _] => set (lines := l) end.
  assert (Hlen : length lines = (7 + length shown)%nat).
  { subst lines. rewrite !length_app, length_fmap. cbn [length].
    rewrite (Nat.add_comm _ 4). reflexivity. }
  split_and!; [done | done | exact Hlen | rewrite Hlen; lia | rewrite Hlen; lia | |];
    subst lines.
  - intros i kv Hkv.
    exists (lit "  " ++ ljust 20 kv.1 ++ lit ": " ++ kv.2).
    assert (kv ∈ shown) as Hin by by eapply list_elem_of_lookup_2.
    apply list_elem_of_filter in Hin as [Hne Hin].
    rewrite Forall_forall in Hlabels. pose proof (Hlabels kv Hin) as Hl.
    pose proof (ljust_length 20 kv.1 Hl) as Hj.
    split_and!; try done.
    + change (([?a; ?b; ?c] ++ ?r) !! (3 + i)%nat) with (r !! i).
      rewrite lookup_app_l by (rewrite length_fmap; by eapply lookup_lt_Some).
      rewrite list_lookup_fmap. unfold shown in Hkv. by rewrite Hkv.
    + change (drop 2 (lit "  " ++ ?x)) with x. cbn [drop app lit list_ascii_of_string].
      unfold ljust. rewrite <- app_assoc. by rewrite take_app_length.
    + change (take 2 (drop 22 (lit "  " ++ ljust 20 kv.1 ++ lit ": " ++ kv.2)))
        with (take 2 (drop 20 (ljust 20 kv.1 ++ lit ": " ++ kv.2))).
      rewrite <- Hj at 1. by rewrite drop_app_length.
    + change (drop 24 (lit "  " ++ ljust 20 kv.1 ++ lit ": " ++ kv.2))
        with (drop 22 (ljust 20 kv.1 ++ lit ": " ++ kv.2)).
      replace 22%nat with (length (ljust 20 kv.1) + 2)%nat by lia.
      by rewrite drop_app_add.
  - change (([?a; ?b; ?c] ++ ?r) !! (5 + length shown)%nat)
      with (r !! (2 + length shown)%nat).
    unfold shown. rewrite lookup_app_r by (rewrite length_fmap; lia). rewrite length_fmap.
    rewrite Nat.add_sub. reflexivity.
Qed.

(** ** A length that [int()] takes and that is no two digits *)

Lemma acquiring_id_loop_stuck data f :
  read_field data 0 = Some f → Field.length f = -4 → Field.tag f ≠ lit "01" →
  ∀ k, QRISParser.acquiring_id_loop k data 0 = None.
Proof.
  intros E Hl Ht k. rewrite acquiring_id_loop_spec, (scan_prefix_stuck _ _ _ _ E Hl).
  rewrite first_with_absent.
  - by rewrite (scan_stuck _ _ _ E Hl).
  - intros g Hg. apply elem_of_replicate in Hg as [-> _]. done.
Qed.

(** C3. The length field is read with [int()], and [int()] takes more
    than two decimal digits: a sign before one digit, and white space on
    either side of one.  On such a length field the loop does not stop
    with the document built so far.  With "+3" it stores the field and
    goes on: "59+3ABC6001J" gives a document with the tags "59" and "60",
    not the empty one.  With "-4" the cursor moves by 4 + (-4) = 0, the
    same field is read in every turn, and [_parse] does not return
    whatever the number of turns: so on "00-4", and so on a payload that
    the validator accepts,
    "00020101-45916Warung Sejahtera6007JAKARTA5802ID6304B632", which no
    parser can be made of. *)
Theorem parse_signed_length_goes_on :
  let plus := lit "59+3ABC6001J" in
  let minus := lit "00-4" in
  let payload := lit "00020101-45916Warung Sejahtera6007JAKARTA5802ID6304B632" in
  (slice plus 2 4 = lit "+3" ∧ is_digit "+" = false
   ∧ ∀ k, ∃ d, QRISParser._parse (3 + k) plus 0 ∅ = Some d ∧ d ≠ ∅
               ∧ Entry.value <$> d !! lit "59" = Some (lit "ABC")
               ∧ Entry.length <$> d !! lit "59" = Some 3
               ∧ Entry.value <$> d !! lit "60" = Some (lit "J"))
  ∧ (slice minus 2 4 = lit "-4" ∧ is_digit "-" = false
     ∧ read_field minus 0
       = Some {| Field.tag := lit "00"; Field.length := -4; Field.value := [] |}
     ∧ next_pos 0 {| Field.tag := lit "00"; Field.length := -4; Field.value := [] |} = 0
     ∧ ∀ fuel d, QRISParser._parse fuel minus 0 d = None)
  ∧ (∀ fuel, QRISParser.init fuel minus = None)
  ∧ (QRCodeHandler.validate_qris payload).1 = true
  ∧ (∀ fuel, QRISParser.init fuel payload = None).
Proof.
  intros plus minus payload. split_and!; try reflexivity.
  - intros k.
    assert (Hs : ∃ fs, scan 3 plus 0 = Some fs ∧ store ∅ fs ≠ ∅
                       ∧ Entry.value <$> store ∅ fs !! lit "59" = Some (lit "ABC")
                       ∧ Entry.length <$> store ∅ fs !! lit "59" = Some 3
                       ∧ Entry.value <$> store ∅ fs !! lit "60" = Some (lit "J")).
    { eexists. split; [vm_compute; reflexivity|]. split_and!; [|by vm_compute..].
      intros H. apply (f_equal (λ d : gmap str Entry.t, d !! lit "59")) in H.
      vm_compute in H. discriminate. }
    destruct Hs as (fs & Hs & Hne & H59 & Hl & H60).
    exists (store ∅ fs). rewrite _parse_scan, (scan_more 3 k _ _ _ Hs). done.
  - intros fuel d. apply negative_length_spins.
  - intros fuel. unfold QRISParser.init.
    change (strip minus) with minus.
    by rewrite (proj2 (negative_length_spins fuel ∅)).
  - intros fuel. unfold QRISParser.init.
    change (strip payload) with payload. rewrite _parse_scan.
    rewrite (scan_reaches_stuck 1 payload 0 6
               {| Field.tag := lit "01"; Field.length := -4; Field.value := [] |});
      done.
Qed.

(** C6. A container that is malformed before the sub-field "01": the
    value "00-40103ABC" of tag "26" starts with a sub-field whose length
    reads as -4.  The loop of [acquiring_id] reads that sub-field in every
    turn, and the accessor does not return, whatever the number of turns;
    it does not give the empty string.  The payload
    "000201010211261100-40103ABC5916Warung Sejahtera6007JAKARTA5802ID6304F581"
    is accepted by the validator and parses to a document with that value
    under tag "26". *)
Theorem acquiring_id_negative_length :
  let container := lit "00-40103ABC" in
  let payload :=
    lit "000201010211261100-40103ABC5916Warung Sejahtera6007JAKARTA5802ID6304F581" in
  (QRCodeHandler.validate_qris payload).1 = true
  ∧ ∃ self,
      QRISParser.init 8 payload = Some self
      ∧ QRISParser.get_value self (lit "26") = container
      ∧ read_field container 0
        = Some {| Field.tag := lit "00"; Field.length := -4; Field.value := [] |}
      ∧ (∀ fuel, QRISParser.acquiring_id fuel self = None)
      ∧ (∀ fuel, QRISParser.acquiring_id fuel self ≠ Some []).
Proof.
  intros container payload. split; [by vm_compute|].
  assert (Hi : is_Some (QRISParser.init 8 payload)) by (vm_compute; by eexists).
  destruct Hi as [self Hi]. exists self.
  assert (H26 : QRISParser.get_value self (lit "26") = container).
  { vm_compute in Hi. apply (inj Some) in Hi. subst self. by vm_compute. }
  assert (Hnone : ∀ fuel, QRISParser.acquiring_id fuel self = None).
  { intros fuel. unfold QRISParser.acquiring_id. cbv zeta. rewrite H26.
    rewrite bool_decide_eq_false_2 by done.
    by rewrite (acquiring_id_loop_stuck container
                  {| Field.tag := lit "00"; Field.length := -4; Field.value := [] |}). }
  split_and!; [done | done | reflexivity | done |].
  intros fuel. by rewrite Hnone.
Qed.

(** ** Sample runs *)

Lemma scan_prefix_in_scan k data pos fs n f :
  scan k data pos = Some fs → f ∈ scan_prefix n data pos → f ∈ fs.
Proof.
  intros Hs Hin. apply (scan_prefix_elem_more n k) in Hin.
  apply (scan_more k n) in Hs. rewrite (Nat.add_comm k n) in Hs.
  by rewrite (scan_prefix_scan _ _ _ _ Hs) in Hin.
Qed.

Lemma scan_upper_case :
  scan 7 Sample.upper_case 0 =
  Some ((Payload.field_of <$> Sample.fields) ++ [Payload.checksum_field (lit "DA08")]).
Proof. vm_compute. reflexivity. Qed.

Lemma sample_well_formed : Forall Payload.well_formed Sample.fields.
Proof. repeat constructor; vm_compute; congruence. Qed.

Lemma sample_numeric : Forall (λ f : str * str, Walk.numeric f.1) Sample.fields.
Proof. repeat constructor. Qed.

(** A sample run: the merchant id of the sample account. *)
Lemma nmid_first_02_witness :
  let self := Example.merchant in
  let v51 := from_option Entry.value [] (QRISParser.data self !! lit "51") in
  let v26 := from_option Entry.value [] (QRISParser.data self !! lit "26") in
  let container := if bool_decide (v51 = []) then v26 else v51 in
  let f := Payload.field_of (lit "02", lit "ID1020017612345") in
  first_with (lit "02") (scan_prefix 2 container 0) = Some f
  ∧ QRISParser.nmid 2 self = Some (lit "ID1020017612345").
Proof.
  intros self v51 v26 container f.
  assert (Hf : first_with (lit "02") (scan_prefix 2 container 0) = Some f)
    by (vm_compute; reflexivity).
  split; [exact Hf|].
  pose proof (nmid_first_02 self) as T. cbv zeta in T. destruct T as (H & _).
  exact (H 2%nat f Hf).
Defined.

(** A sample run: the terminal label of the sample document. *)
Lemma terminal_id_first_07_witness :
  let self := Example.merchant in
  let container := from_option Entry.value [] (QRISParser.data self !! lit "62") in
  let f := Payload.field_of (lit "07", lit "A01") in
  first_with (lit "07") (scan_prefix 1 container 0) = Some f
  ∧ QRISParser.terminal_id 1 self = Some (lit "A01").
Proof.
  intros self container f.
  assert (Hf : first_with (lit "07") (scan_prefix 1 container 0) = Some f)
    by (vm_compute; reflexivity).
  split; [exact Hf|].
  pose proof (terminal_id_first_07 self) as T. cbv zeta in T. destruct T as (H & _).
  exact (H 1%nat f Hf).
Defined.

(** A sample run: a new name, city and postal code on the sample editor. *)
Lemma setters_compose_witness :
  lit "Toko Baru" ≠ [] ∧ lit "BANDUNG" ≠ [] ∧ lit "40111" ≠ []
  ∧ QRISEditor.modifications
      (QRISEditor.set_merchant_name Example.editor (lit "Toko Baru")) !! lit "59"
    = Some (lit "Toko Baru")
  ∧ QRISEditor.modifications
      (QRISEditor.set_merchant_city Example.editor (lit "BANDUNG")) !! lit "60"
    = Some (lit "BANDUNG")
  ∧ QRISEditor.modifications
      (QRISEditor.set_postal_code Example.editor (lit "40111")) !! lit "61"
    = Some (lit "40111").
Proof.
  assert (Hn : lit "Toko Baru" ≠ []) by (vm_compute; congruence).
  assert (Hc : lit "BANDUNG" ≠ []) by (vm_compute; congruence).
  assert (Hp : lit "40111" ≠ []) by (vm_compute; congruence).
  split_and!; [exact Hn | exact Hc | exact Hp | | |].
  - destruct (setters_compose Example.editor (lit "Toko Baru") [] [] [] [] [])
      as (_ & _ & _ & _ & (H & _) & _). exact (H Hn).
  - destruct (setters_compose Example.editor [] [] (lit "BANDUNG") [] [] [])
      as (_ & _ & _ & _ & (_ & H & _) & _). exact (H Hc).
  - destruct (setters_compose Example.editor [] [] [] [] (lit "40111") [])
      as (_ & _ & _ & _ & (_ & _ & H) & _). exact (H Hp).
Defined.

(** A sample run: the loops stop on the sample payload. *)
Lemma loops_stop_witness :
  (∀ n f, f ∈ scan_prefix n Sample.upper_case 0 → 0 <= Field.length f)
  ∧ QRISEditor.build (S (S (length Sample.upper_case))) Example.editor ≠ OutOfFuel.
Proof.
  assert (Hnn : ∀ n f, f ∈ scan_prefix n Sample.upper_case 0 → 0 <= Field.length f).
  { intros n f Hin. apply (scan_prefix_in_scan _ _ _ _ _ _ scan_upper_case) in Hin.
    revert f Hin. apply Forall_forall. repeat constructor; vm_compute; congruence. }
  split; [exact Hnn|].
  pose proof (loops_stop Example.editor) as T. cbv zeta in T.
  destruct (T Hnn) as (_ & H & _). exact H.
Defined.

(** A sample run: a field of length "-4" after a field that is read. *)
Lemma length_minus_four_never_returns_witness :
  let data := lit "0002AB01-4" in
  let f := {| Field.tag := lit "01"; Field.length := -4; Field.value := [] |} in
  Walk.cursor_after 1 data 0 = Some 6
  ∧ read_field data 6 = Some f
  ∧ ∀ fuel d, QRISParser._parse fuel data 0 d = None.
Proof.
  intros data f.
  assert (Hc : Walk.cursor_after 1 data 0 = Some 6) by (vm_compute; reflexivity).
  assert (Hr : read_field data 6 = Some f) by (vm_compute; reflexivity).
  split_and!; [exact Hc | exact Hr |].
  destruct (length_minus_four_never_returns data 1 6 f Hc Hr eq_refl) as (H & _).
  exact H.
Defined.

(** A sample run: an override for the amount, a tag the sample payload
    does not have. *)
Lemma build_ignores_absent_overrides_witness :
  let mods1 : gmap str str := ∅ in
  let mods2 : gmap str str := {[lit "54" := lit "10000"]} in
  (∀ n f, f ∈ scan_prefix n Sample.upper_case 0 →
          mods1 !! Field.tag f = mods2 !! Field.tag f)
  ∧ QRISEditor.build 7
      {| QRISEditor.raw := Sample.upper_case; QRISEditor.parser := Sample.empty;
         QRISEditor.modifications := mods1 |}
    = QRISEditor.build 7
        {| QRISEditor.raw := Sample.upper_case; QRISEditor.parser := Sample.empty;
           QRISEditor.modifications := mods2 |}.
Proof.
  intros mods1 mods2.
  assert (H : ∀ n f, f ∈ scan_prefix n Sample.upper_case 0 →
                     mods1 !! Field.tag f = mods2 !! Field.tag f).
  { intros n f Hin. apply (scan_prefix_in_scan _ _ _ _ _ _ scan_upper_case) in Hin.
    revert f Hin. apply Forall_forall. repeat constructor; vm_compute; reflexivity. }
  split; [exact H|].
  exact (build_ignores_absent_overrides Sample.upper_case Sample.empty mods1 mods2 7 H).
Defined.

Lemma sample_renamed_well_formed :
  Forall Payload.well_formed
    (Walk.override {[lit "59" := lit "Toko Baru"]} Sample.fields).
Proof. repeat constructor; vm_compute; congruence. Qed.

(** A sample run: the sample payload under a new merchant name. *)
Lemma build_serializes_overrides_witness :
  let mods : gmap str str := {[lit "59" := lit "Toko Baru"]} in
  Forall Payload.well_formed Sample.fields ∧ length (lit "DA08") = 4%nat
  ∧ Forall Payload.well_formed (Walk.override mods Sample.fields)
  ∧ (lit "59", lit "Toko Baru") ∈ Walk.override mods Sample.fields
  ∧ QRISEditor.build 7
      {| QRISEditor.raw := Payload.payload Sample.fields (lit "DA08");
         QRISEditor.parser := Sample.empty; QRISEditor.modifications := mods |}
    = Returned
        (Payload.payload (Walk.override mods Sample.fields)
           (QRISEditor._calculate_checksum
              (Payload.serialize (Walk.override mods Sample.fields) ++ lit "6304"))).
Proof.
  intros mods.
  pose proof (build_serializes_overrides Sample.fields (lit "DA08") Sample.empty mods
                sample_well_formed eq_refl sample_renamed_well_formed) as T.
  cbv zeta in T. destruct T as (Hb & _ & _ & Hin).
  split_and!; [exact sample_well_formed | reflexivity
              | exact sample_renamed_well_formed | | exact Hb].
  apply (Hin (lit "59") (lit "Warung Sejahtera") (lit "Toko Baru")).
  - do 2 (apply elem_of_cons; right). apply elem_of_cons. by left.
  - vm_compute. reflexivity.
Defined.

(** A sample run: the renamed payload built once more. *)
Lemma build_output_is_fixed_point_witness :
  let mods : gmap str str := {[lit "59" := lit "Toko Baru"]} in
  let out := lit "0002010102115909Toko Baru6007JAKARTA5802ID630414D9" in
  QRISEditor.build 7
    {| QRISEditor.raw := Payload.payload Sample.fields (lit "DA08");
       QRISEditor.parser := Sample.empty; QRISEditor.modifications := mods |}
  = Returned out
  ∧ QRISEditor.build 7
      {| QRISEditor.raw := out; QRISEditor.parser := Sample.empty;
         QRISEditor.modifications := ∅ |}
    = Returned out.
Proof.
  intros mods out.
  assert (Hb : QRISEditor.build 7
                 {| QRISEditor.raw := Payload.payload Sample.fields (lit "DA08");
                    QRISEditor.parser := Sample.empty;
                    QRISEditor.modifications := mods |} = Returned out)
    by (vm_compute; reflexivity).
  split; [exact Hb|].
  exact (build_output_is_fixed_point Sample.fields (lit "DA08") Sample.empty Sample.empty
           mods out sample_well_formed eq_refl sample_renamed_well_formed Hb).
Defined.

(** A sample run: an editor for the sample payload. *)
Lemma editor_init_state_witness :
  is_Some (QRISParser.init 7 Sample.upper_case)
  ∧ is_Some (QRISEditor.init 7 Sample.upper_case).
Proof.
  assert (Hp : is_Some (QRISParser.init 7 Sample.upper_case)).
  { vm_compute. by eexists. }
  split; [exact Hp|].
  destruct (editor_init_state 7 Sample.upper_case) as (_ & H & _).
  exact (proj2 H Hp).
Defined.

(** A sample run: the merchant name of the sample payload, read back. *)
Lemma parse_reads_back_serialized_witness :
  Forall Payload.well_formed Sample.fields ∧ length (lit "DA08") = 4%nat
  ∧ Walk.value_of (lit "59") Sample.fields = Some (lit "Warung Sejahtera")
  ∧ ∃ d, QRISParser._parse 7 (Payload.payload Sample.fields (lit "DA08")) 0 ∅ = Some d
       ∧ Entry.value <$> d !! lit "59" = Some (lit "Warung Sejahtera").
Proof.
  assert (Hv : Walk.value_of (lit "59") Sample.fields = Some (lit "Warung Sejahtera"))
    by (vm_compute; reflexivity).
  split_and!; [exact sample_well_formed | reflexivity | exact Hv |].
  destruct (parse_reads_back_serialized Sample.fields (lit "DA08")
              sample_well_formed eq_refl) as (d & Hd & H & _).
  exists d. split; [exact Hd|]. by rewrite (H _ _ Hv).
Defined.

(** A sample run: the renamed payload parsed again. *)
Lemma reparse_shows_edit_witness :
  let mods : gmap str str := {[lit "59" := lit "Toko Baru"]} in
  Forall Payload.well_formed Sample.fields ∧ length (lit "DA08") = 4%nat
  ∧ Forall (λ f : str * str, Walk.numeric f.1) Sample.fields
  ∧ Forall Payload.well_formed (Walk.override mods Sample.fields)
  ∧ mods !! lit "59" = Some (lit "Toko Baru") ∧ lit "59" ∈ Sample.fields.*1
  ∧ ∃ out new_parser,
      QRISEditor.build 7
        {| QRISEditor.raw := Payload.payload Sample.fields (lit "DA08");
           QRISEditor.parser := Sample.empty; QRISEditor.modifications := mods |}
      = Returned out
      ∧ QRISParser.init 7 out = Some new_parser
      ∧ QRISParser.get_value new_parser (lit "59") = lit "Toko Baru".
Proof.
  intros mods.
  assert (Hm : mods !! lit "59" = Some (lit "Toko Baru")) by (vm_compute; reflexivity).
  assert (Hin : lit "59" ∈ Sample.fields.*1).
  { vm_compute. do 2 (apply elem_of_cons; right). apply elem_of_cons. by left. }
  split_and!; [exact sample_well_formed | reflexivity | exact sample_numeric
              | exact sample_renamed_well_formed | exact Hm | exact Hin |].
  pose proof (reparse_shows_edit Sample.fields (lit "DA08") Sample.empty mods
                sample_well_formed eq_refl sample_numeric sample_renamed_well_formed) as T.
  cbv zeta in T. destruct T as (out & new_parser & d0 & Hb & Hi & _ & _ & H & _).
  exists out, new_parser. split_and!; [exact Hb | exact Hi |].
  exact (proj1 (H _ _ Hm Hin)).
Defined.

(** A sample run: the sample payload is accepted, so it has the shape the
    validator asks for. *)
Lemma validate_qris_accepts_iff_witness :
  (QRCodeHandler.validate_qris Sample.upper_case).1 = true
  ∧ 50 <= len Sample.upper_case
  ∧ ∃ r, Sample.upper_case = lit "000201" ++ r.
Proof.
  assert (Hv : (QRCodeHandler.validate_qris Sample.upper_case).1 = true)
    by (vm_compute; reflexivity).
  split; [exact Hv|].
  destruct (validate_qris_accepts_iff Sample.upper_case) as [H _].
  destruct (proj1 H Hv) as (Hlen & Hpre & _). by split.
Defined.

(** A sample run: the sample payload built without overrides is accepted
    again. *)
Lemma build_output_validates_witness :
  QRISEditor.build 7 Example.editor = Returned Sample.upper_case
  ∧ ∃ body, Sample.upper_case
            = body ++ lit "6304" ++ QRISEditor._calculate_checksum (body ++ lit "6304").
Proof.
  assert (Hb : QRISEditor.build 7 Example.editor = Returned Sample.upper_case)
    by (vm_compute; reflexivity).
  split; [exact Hb|].
  destruct (build_output_validates 7 Example.editor Sample.upper_case Hb)
    as (body & H & _).
  by exists body.
Defined.

(** A sample run: two characters after the checksum. *)
Lemma trailing_text_is_dropped_witness :
  Forall Payload.well_formed Sample.fields ∧ length (lit "DA08") = 4%nat
  ∧ len (lit "xy") < 4
  ∧ QRISEditor.build 7
      {| QRISEditor.raw := Payload.payload Sample.fields (lit "DA08") ++ lit "xy";
         QRISEditor.parser := Sample.empty; QRISEditor.modifications := ∅ |}
    = Returned
        (Payload.payload Sample.fields
           (QRISEditor._calculate_checksum (Payload.serialize Sample.fields ++ lit "6304"))).
Proof.
  assert (Hr : len (lit "xy") < 4) by (vm_compute; reflexivity).
  split_and!; [exact sample_well_formed | reflexivity | exact Hr |].
  pose proof (trailing_text_is_dropped Sample.fields (lit "DA08") (lit "xy") Sample.empty ∅
                sample_well_formed eq_refl (or_introl Hr)) as T.
  cbv zeta in T. destruct T as (_ & _ & _ & H). exact H.
Defined.

Lemma account_sub_fields : Forall Walk.sub_field Example.account_fields.
Proof. repeat constructor; vm_compute; congruence. Qed.

(** A sample run: the merchant id of the sample account, from its
    sub-fields. *)
Lemma accessors_read_serialized_witness :
  Forall Walk.sub_field Example.account_fields
  ∧ Example.account_fields ≠ []
  ∧ QRISParser.get_value Example.merchant (lit "51")
    = Payload.serialize Example.account_fields
  ∧ QRISParser.nmid 4 Example.merchant = Some (lit "ID1020017612345").
Proof.
  assert (Hne : Example.account_fields ≠ []) by done.
  assert (Hv : QRISParser.get_value Example.merchant (lit "51")
               = Payload.serialize Example.account_fields) by (vm_compute; reflexivity).
  split_and!; [exact account_sub_fields | exact Hne | exact Hv |].
  pose proof (accessors_read_serialized Example.merchant Example.account_fields
                account_sub_fields) as T.
  cbv zeta in T. destruct T as (H & _). exact (H Hne Hv).
Defined.

(** A sample run: the footer id of the sample account and of the empty
    document. *)
Lemma dicetak_id_never_empty_witness :
  QRISParser.acquiring_id 1 Sample.empty = Some []
  ∧ TemplateGenerator.dicetak_id 1 Sample.empty = Some (lit "00000000").
Proof.
  assert (Ha : QRISParser.acquiring_id 1 Sample.empty = Some [])
    by (vm_compute; reflexivity).
  split; [exact Ha|].
  destruct (dicetak_id_never_empty 1 Sample.empty) as (_ & H & _). exact (H Ha).
Defined.

(** A sample run: a text of 301 points on a template of 1000. *)
Lemma text_position_centred_witness :
  301 <= 1000
  ∧ 0 <= (TemplateGenerator._get_text_position 301 280 1000).1.
Proof.
  assert (Hw : 301 <= 1000) by lia.
  split; [exact Hw|].
  pose proof (text_position_centred 301 280 1000) as T.
  destruct (TemplateGenerator._get_text_position 301 280 1000) as [x y'].
  cbv zeta in T. destruct T as (_ & _ & H & _). exact (proj1 H Hw).
Defined.

(** A sample run: the sample payload found after the fixed threshold. *)
Lemma read_from_image_result_witness :
  let early := [Reader.colour Example.faint; Reader.gray Example.faint;
                Reader.thresh Example.faint; Reader.adaptive Example.faint] in
  early = [None; Some []] ++ Some Sample.upper_case :: [None]
  ∧ Forall (λ d : option str, d = None ∨ d = Some []) [None; Some []]
  ∧ Sample.upper_case ≠ []
  ∧ Reader.read_from_image (lit "qris.png") (Some Example.faint)
    = if (QRCodeHandler.validate_qris Sample.upper_case).1 then inr Sample.upper_case
      else inl (Reader.ValueError
                  (Reader.not_valid (QRCodeHandler.validate_qris Sample.upper_case).2)).
Proof.
  intros early.
  assert (He : early = [None; Some []] ++ Some Sample.upper_case :: [None])
    by reflexivity.
  assert (Ht : Forall (λ d : option str, d = None ∨ d = Some []) [None; Some []]).
  { apply Forall_cons. split; [by left|]. apply Forall_cons. split; [by right|].
    constructor. }
  assert (Hs : Sample.upper_case ≠ []) by (vm_compute; congruence).
  split_and!; [exact He | exact Ht | exact Hs |].
  destruct (read_from_image_result (lit "qris.png")) as [_ T].
  specialize (T Example.faint). cbv zeta in T. destruct T as (H & _).
  exact (H [None; Some []] Sample.upper_case [None] He Ht Hs).
Defined.

(** A sample run: the merchant name in the document of the sample
    payload. *)
Lemma parse_document_invariant_witness :
  let d := QRISParser.data Example.parser in
  let e := entry_of (Payload.field_of (lit "59", lit "Warung Sejahtera")) in
  QRISParser._parse 7 Sample.upper_case 0 ∅ = Some d
  ∧ d !! lit "59" = Some e
  ∧ Entry.tag e = lit "59" ∧ -9 <= Entry.length e <= 99.
Proof.
  intros d e.
  assert (Hd : QRISParser._parse 7 Sample.upper_case 0 ∅ = Some d).
  { rewrite _parse_scan, scan_upper_case. reflexivity. }
  assert (He : d !! lit "59" = Some e) by (vm_compute; reflexivity).
  split; [exact Hd|]. split; [exact He|].
  destruct (parse_document_invariant 7 Sample.upper_case d (lit "59") e Hd He)
    as (H1 & _ & H2 & _).
  split; [exact H1 | exact H2].
Defined.

Lemma main_edits_payload_witness :
  let name := lit " Toko Baru " in
  Forall Payload.well_formed Sample.fields ∧ length (lit "DA08") = 4%nat
  ∧ Forall (λ f : str * str, Walk.numeric f.1) Sample.fields
  ∧ (QRCodeHandler.validate_qris (Payload.payload Sample.fields (lit "DA08"))).1 = true
  ∧ (S (S (length Sample.fields)) <= 7)%nat
  ∧ QRISParser.init 7 (Payload.payload Sample.fields (lit "DA08")) = Some Example.parser
  ∧ is_Some (QRISParser.display_info 7 Example.parser)
  ∧ len (strip name) <= 25 ∧ len (strip []) <= 15 ∧ len (strip []) <= 5
  ∧ ¬ (strip name = [] ∧ strip [] = [] ∧ strip [] = [])
  ∧ lit "59" ∈ Sample.fields.*1
  ∧ ∃ new_qris new_parser,
      Main.main 7 (Payload.payload Sample.fields (lit "DA08")) name [] []
      = Returned (Main.Edited new_qris new_parser)
      ∧ QRISParser.get_value new_parser (lit "59") = strip name.
Proof.
  intros name.
  assert (Hv : (QRCodeHandler.validate_qris
                  (Payload.payload Sample.fields (lit "DA08"))).1 = true)
    by (vm_compute; reflexivity).
  assert (Hk : (S (S (length Sample.fields)) <= 7)%nat) by (vm_compute; lia).
  assert (Hi : QRISParser.init 7 (Payload.payload Sample.fields (lit "DA08"))
               = Some Example.parser) by (vm_compute; reflexivity).
  assert (Hs : is_Some (QRISParser.display_info 7 Example.parser))
    by (vm_compute; by eexists).
  assert (Hn : len (strip name) <= 25) by (vm_compute; congruence).
  assert (Hc : len (strip []) <= 15) by (vm_compute; congruence).
  assert (Hp : len (strip []) <= 5) by (vm_compute; congruence).
  assert (Hne : ¬ (strip name = [] ∧ strip [] = [] ∧ strip [] = []))
    by (vm_compute; intros [? _]; congruence).
  assert (Hin : lit "59" ∈ Sample.fields.*1).
  { vm_compute. do 2 (apply elem_of_cons; right). apply elem_of_cons. by left. }
  split_and!; [exact sample_well_formed | reflexivity | exact sample_numeric | exact Hv
              | exact Hk | exact Hi | exact Hs | exact Hn | exact Hc | exact Hp
              | exact Hne | exact Hin |].
  pose proof (main_edits_payload Sample.fields (lit "DA08") 7 Example.parser name [] []
                sample_well_formed eq_refl sample_numeric) as T.
  cbv zeta in T. destruct (T Hv Hk Hi) as (_ & _ & _ & H).
  destruct (H Hs) as [_ H'].
  destruct (H' Hne Hn Hc Hp) as (new_parser & Hm & _ & Hval & _).
  eexists _, new_parser. split; [exact Hm|].
  apply (Hval (lit "59") (strip name)).
  - apply elem_of_cons. by left.
  - vm_compute. congruence.
  - exact Hin.
Defined.

(** A sample run: the lines shown for the sample account. *)
Lemma display_info_layout_witness :
  let lines := default [] (QRISParser.display_info 3 Sample.account) in
  QRISParser.display_info 3 Sample.account = Some lines
  ∧ (7 <= length lines <= 17)%nat.
Proof.
  intros lines.
  assert (Hd : QRISParser.display_info 3 Sample.account = Some lines)
    by (vm_compute; reflexivity).
  split; [exact Hd|].
  destruct (display_info_layout 3 Sample.account lines Hd) as (info & shown & _ & _ & _ & H & _).
  exact H.
Defined.

(** ** A payload the program writes and does not read

    With the merchant name "TOKO ATAV" the checksum of the sample payload
    is 0x6304: the new payload ends with "63046304", the validator takes
    the last four characters for the header of the checksum and finds
    nothing after it. *)
Lemma unlucky_name_rejected :
  ∃ out,
    QRISEditor.build 7 (QRISEditor.set_merchant_name Example.editor Example.unlucky_name)
    = Returned out
    ∧ out = lit "0002010102115909TOKO ATAV6007JAKARTA5802ID63046304"
    ∧ QRCodeHandler.validate_qris out = (false, QRCodeHandler.bad_checksum_format).
Proof.
  eexists. split_and!; [vm_compute; reflexivity | reflexivity |].
  vm_compute. reflexivity.
Qed.
